(** * docs2llms: a shallow embedding of [src/mod.ts] (and of the
    interactive loop of [src/index.ts])

    The program walks a directory tree, keeps documentation files by
    extension, size and directory filters, and writes a link index and a
    full-content dump.  The host file system is modelled as a tree of
    entries whose children lists are in directory-listing order; the
    Deno primitives ([readDir], [stat], [readTextFile], [writeTextFile],
    [copyFile], [makeTempDir], [remove], [prompt], [console.log],
    [Deno.exit]) become operations of a small state/error monad over a
    [world] record. *)

From Stdlib Require Import List String Ascii Bool ZArith QArith Qround Lia.
Import ListNotations.
Set Warnings "-register-all".

Open Scope string_scope.
Open Scope list_scope.

(** ** Strings *)

Module Str.

(** [s.endsWith(suf)]: compared on the reversed character lists. *)
Fixpoint prefixb (p l : list ascii) : bool :=
  match p, l with
  | [], _ => true
  | a :: p', b :: l' => Ascii.eqb a b && prefixb p' l'
  | _ :: _, [] => false
  end.

Definition ends_with (s suf : string) : bool :=
  prefixb (rev (list_ascii_of_string suf)) (rev (list_ascii_of_string s)).

(** [s.startsWith(p)] *)
Definition starts_with (s p : string) : bool :=
  prefixb (list_ascii_of_string p) (list_ascii_of_string s).

(** [xs.includes(x)] *)
Definition includes (xs : list string) (x : string) : bool :=
  existsb (String.eqb x) xs.

(** [s.split(c)] for a one-character separator. *)
Fixpoint split_chars (c : ascii) (l : list ascii) : list (list ascii) :=
  match l with
  | [] => [[]]
  | a :: l' =>
      if Ascii.eqb a c then [] :: split_chars c l'
      else match split_chars c l' with
           | w :: ws => (a :: w) :: ws
           | [] => [[a]]
           end
  end.

Definition split (c : ascii) (s : string) : list string :=
  map string_of_list_ascii (split_chars c (list_ascii_of_string s)).

(** JavaScript's [\s] restricted to ASCII: tab, line feed, vertical tab,
    form feed, carriage return and space.  A character of the model is a
    byte of the file (sizes are byte counts), so the other characters
    [\s] matches (U+00A0, U+1680, U+2000 to U+200A, U+2028, U+2029,
    U+202F, U+205F, U+3000, U+FEFF), which are several bytes in UTF-8,
    are not recognised: on text holding them the model splits less than
    the program does. *)
Definition is_ws (a : ascii) : bool :=
  let n := nat_of_ascii a in ((9 <=? n) && (n <=? 13))%nat || (n =? 32)%nat.

(** [s.split(/\s+/)]: every maximal run of whitespace separates two
    pieces, so leading or trailing whitespace yields an empty piece. *)
Fixpoint split_ws_aux (l : list ascii) (cur : list ascii) (prev_ws : bool)
  : list (list ascii) :=
  match l with
  | [] => [rev cur]
  | a :: l' =>
      if is_ws a then
        if prev_ws then split_ws_aux l' cur true
        else rev cur :: split_ws_aux l' [] true
      else split_ws_aux l' (a :: cur) false
  end.

Definition split_ws (s : string) : list string :=
  map string_of_list_ascii (split_ws_aux (list_ascii_of_string s) [] false).

(** [s.replace(/(\.txt|llms-)/g, "")] *)
Fixpoint strip_txt_llms (l : list ascii) : list ascii :=
  match l with
  | "."%char :: "t"%char :: "x"%char :: "t"%char :: l' => strip_txt_llms l'
  | "l"%char :: "l"%char :: "m"%char :: "s"%char :: "-"%char :: l' =>
      strip_txt_llms l'
  | a :: l' => a :: strip_txt_llms l'
  | [] => []
  end.

Definition replace_txt_llms (s : string) : string :=
  string_of_list_ascii (strip_txt_llms (list_ascii_of_string s)).

(** [s.toLowerCase()] on ASCII. *)
Definition lower (a : ascii) : ascii :=
  let n := nat_of_ascii a in
  if ((65 <=? n) && (n <=? 90))%nat then ascii_of_nat (n + 32) else a.

Definition to_lower (s : string) : string :=
  string_of_list_ascii (map lower (list_ascii_of_string s)).

Fixpoint skip_while (f : ascii -> bool) (l : list ascii) : list ascii :=
  match l with
  | [] => []
  | a :: l' => if f a then skip_while f l' else l
  end.

(** [s.substring(0, s.lastIndexOf("/"))]; a missing separator gives
    index -1, which [substring] clamps to 0. *)
Definition before_last_slash (s : string) : string :=
  let r := rev (list_ascii_of_string s) in
  match skip_while (fun a => negb (Ascii.eqb a "/"%char)) r with
  | _ :: rest => string_of_list_ascii (rev rest)
  | [] => ""
  end.

End Str.

(** ** Paths ([jsr:@std/path]) *)

Module Path.

(** A normalised path, as its list of segments. *)
Definition path := list string.

(** Normalisation: empty and ["."] segments vanish, [".."] removes the
    preceding segment. *)
Fixpoint norm_acc (acc : list string) (l : list string) : list string :=
  match l with
  | [] => rev acc
  | x :: l' =>
      if String.eqb x "" || String.eqb x "." then norm_acc acc l'
      else if String.eqb x ".." then
        match acc with
        | y :: acc' =>
            if String.eqb y ".." then norm_acc (x :: acc) l' else norm_acc acc' l'
        | [] => norm_acc [x] l'
        end
      else norm_acc (x :: acc) l'
  end.

Definition of_string (s : string) : path := norm_acc [] (Str.split "/" s).

(** [join(p, s)] for an arbitrary string [s]. *)
Definition join (p : path) (s : string) : path := norm_acc (rev p) (Str.split "/" s).

(** A path as the string [join] and [relative] return. *)
Definition render (p : path) : string := String.concat "/" p.

Fixpoint drop_common (a b : path) : path * path :=
  match a, b with
  | x :: a', y :: b' => if String.eqb x y then drop_common a' b' else (a, b)
  | _, _ => (a, b)
  end.

(** [relative(from, to)]: up from [from] to the common ancestor, then
    down to [to]. *)
Definition relative (from to : path) : string :=
  let '(up, down) := drop_common from to in
  render (List.repeat ".." (List.length up) ++ down).

Fixpoint drop_slashes (l : list ascii) : list ascii :=
  match l with
  | a :: l' => if Ascii.eqb a "/"%char then drop_slashes l' else l
  | [] => []
  end.

Fixpoint take_segment (l : list ascii) : list ascii :=
  match l with
  | a :: l' => if Ascii.eqb a "/"%char then [] else a :: take_segment l'
  | [] => []
  end.

(** [basename(s)]: the last segment, trailing separators ignored. *)
Definition basename (s : string) : string :=
  string_of_list_ascii
    (rev (take_segment (drop_slashes (rev (list_ascii_of_string s))))).

End Path.

Import Path.

(** ** The file system *)

Module FS.

(** A directory entry: a regular file with its text, or a directory with
    its children in directory-listing order.  A file's size in bytes is
    the length of its text.  Symbolic links are not modelled. *)
Inductive entry : Type :=
| EFile (name : string) (content : string)
| EDir (name : string) (children : list entry).

Definition ename (e : entry) : string :=
  match e with EFile n _ | EDir n _ => n end.

(** The subset of [Deno.errors] the primitives raise, and the error the
    clone helper throws. *)
Inductive fserror : Type :=
| NotFound
| NotADirectory
| IsADirectory
| AlreadyExists
| CloneFailed (stderr : string).

Definition fsr (A : Type) := (A + fserror)%type.

Fixpoint find_child (n : string) (es : list entry) : option entry :=
  match es with
  | [] => None
  | e :: es' => if String.eqb (ename e) n then Some e else find_child n es'
  end.

Fixpoint replace_child (n : string) (c : entry) (es : list entry) : list entry :=
  match es with
  | [] => []
  | e :: es' =>
      if String.eqb (ename e) n then c :: es' else e :: replace_child n c es'
  end.

Fixpoint remove_child (n : string) (es : list entry) : list entry :=
  match es with
  | [] => []
  | e :: es' => if String.eqb (ename e) n then es' else e :: remove_child n es'
  end.

(** Path resolution ([Deno.stat]). *)
Fixpoint lookup (e : entry) (p : path) : fsr entry :=
  match p, e with
  | [], _ => inl e
  | _ :: _, EFile _ _ => inr NotADirectory
  | n :: p', EDir _ ch =>
      match find_child n ch with
      | Some c => lookup c p'
      | None => inr NotFound
      end
  end.

Definition size (e : entry) : Z :=
  match e with
  | EFile _ c => Z.of_nat (String.length c)
  | EDir _ _ => 0
  end.

(** [Deno.readTextFile] *)
Definition read_text (root : entry) (p : path) : fsr string :=
  match lookup root p with
  | inl (EFile _ c) => inl c
  | inl (EDir _ _) => inr IsADirectory
  | inr err => inr err
  end.

(** [Deno.writeTextFile] with its default options: an existing file is
    truncated and replaced, a missing one is created at the end of its
    directory listing. *)
Fixpoint write_text (e : entry) (p : path) (s : string) : fsr entry :=
  match p, e with
  | [], EFile n _ => inl (EFile n s)
  | [], EDir _ _ => inr IsADirectory
  | _ :: _, EFile _ _ => inr NotADirectory
  | n :: p', EDir m ch =>
      match find_child n ch with
      | Some c =>
          match write_text c p' s with
          | inl c' => inl (EDir m (replace_child n c' ch))
          | inr err => inr err
          end
      | None =>
          match p' with
          | [] => inl (EDir m (ch ++ [EFile n s]))
          | _ :: _ => inr NotFound
          end
      end
  end.

(** [Deno.copyFile] *)
Definition copy_file (root : entry) (src dst : path) : fsr entry :=
  match read_text root src with
  | inl c => write_text root dst c
  | inr err => inr err
  end.

(** [Deno.remove(p, { recursive: true })].  The root of the tree is the
    directory that also holds the temporary directories (see
    [makeTempDir]): removing it removes everything under it, and the
    tree keeps an empty root, having no place for its absence. *)
Fixpoint remove (e : entry) (p : path) : fsr entry :=
  match p, e with
  | [], _ => inl (EDir (ename e) [])
  | _ :: _, EFile _ _ => inr NotADirectory
  | n :: p', EDir m ch =>
      match find_child n ch with
      | Some c =>
          match p' with
          | [] => inl (EDir m (remove_child n ch))
          | _ :: _ =>
              match remove c p' with
              | inl c' => inl (EDir m (replace_child n c' ch))
              | inr err => inr err
              end
          end
      | None => inr NotFound
      end
  end.

(** A new directory [n] at the top of the tree (the temporary directory
    of [Deno.makeTempDir], filled by [git clone]). *)
Definition add_top_dir (root : entry) (n : string) (ch : list entry) : fsr entry :=
  match root with
  | EDir m es =>
      match find_child n es with
      | Some _ => inr AlreadyExists
      | None => inl (EDir m (es ++ [EDir n ch]))
      end
  | EFile _ _ => inr NotADirectory
  end.

End FS.

Import FS.

(** ** Numbers

    [maxSize] is a JavaScript number: [Infinity] by default, else what
    [parseFloat] returns.  Finite values are taken as rationals (the
    products by 1024 are exact in binary floating point); a file size is
    an integer. *)

Inductive jsnum : Type :=
| JFin (q : Q)
| JPosInf
| JNegInf
| JNaN.

(** [x * 1024] *)
Definition js_mul_1024 (x : jsnum) : jsnum :=
  match x with
  | JFin q => JFin (q * 1024)
  | y => y
  end.

(** [size <= x] for an integer [size]; every comparison with NaN is false. *)
Definition size_le (sz : Z) (x : jsnum) : bool :=
  match x with
  | JFin q => Qle_bool (inject_Z sz) q
  | JPosInf => true
  | JNegInf | JNaN => false
  end.

(** ** Directory walk ([getDirectory], [skipDirectory]) *)

Definition IGNORE_DIRECTORIES : list string := ["node_modules"; ".git"; "dist"; "build"].
Definition SUPPORTED_EXTENSIONS : list string := [".md"; ".mdx"; ".txt"; ".rst"].

Definition skipDirectory (dirName : string) (skip : list string) : bool :=
  Str.includes skip dirName || Str.starts_with dirName "." ||
  Str.includes IGNORE_DIRECTORIES dirName.

Section Walk.

Variables (basePath : path) (skip exclude : list string) (maxSize : jsnum).

(** The extension tests of the [else if] branch. *)
Definition file_selected (name : string) : bool :=
  existsb (Str.ends_with name) SUPPORTED_EXTENSIONS &&
  negb (existsb (Str.ends_with name) exclude).

(** One iteration of the [for await] loop of [processDirectory] over the
    entries of [currentPath], threading the two arrays [files] and
    [fullPaths] that the loop pushes to.  [join(currentPath, entry.name)]
    is [currentPath ++ [entry.name]]: an entry name is one segment.
    [Deno.readDir] and [Deno.stat] of an entry return the entry itself,
    the walk writing nothing. *)
Fixpoint processEntry (currentPath : path) (entry : FS.entry)
    (st : list string * list path) {struct entry} : list string * list path :=
  match entry with
  | EDir n ch =>
      if negb (skipDirectory n skip) then
        (fix loop (es : list FS.entry) (st : list string * list path) :=
           match es with
           | [] => st
           | e :: es' => loop es' (processEntry (currentPath ++ [n]) e st)
           end) ch st
      else st
  | EFile n _ =>
      if file_selected n then
        if size_le (size entry) (js_mul_1024 (js_mul_1024 maxSize)) then
          (fst st ++ [relative basePath (currentPath ++ [n])],
           snd st ++ [currentPath ++ [n]])
        else st
      else st
  end.

Definition processDirectory (currentPath : path) (es : list FS.entry)
    (st : list string * list path) : list string * list path :=
  fold_left (fun st e => processEntry currentPath e st) es st.

End Walk.

(** What [x.toFixed(2)] prints: [FixedDigits n] is [n / 100] written
    with two decimals. *)
Inductive fixed2 : Type :=
| FixedDigits (n : Z)
| FixedInfinity
| FixedNegInfinity
| FixedNaN.

(** ** Effects

    Console output is kept as a list of events rather than text. *)

Inductive logline : Type :=
| LPreview (files : list string)
| LAnalysis (folders files words : Z) (avg_centi_kb : fixed2)
| LSummary (files : list string)
| LBackup (p : string)
| LWritten (llms llmsFull : string)
| LError (e : fserror)
| LUsage.

Record world : Type := mkWorld {
  w_fs : FS.entry;
  w_log : list logline;
  w_stdin : list (option string);   (** answers to [prompt]; [None] is null *)
  w_tmp : nat;                      (** counter naming temporary directories *)
  w_remote : list (string * string * list FS.entry)
    (** what [git clone -b branch url] fetches *)
}.

Inductive outcome (A : Type) : Type :=
| Ret (a : A)
| Thrown (e : fserror)
| Exited (code : Z).
Arguments Ret {A}.
Arguments Thrown {A}.
Arguments Exited {A}.

Definition M (A : Type) : Type := world -> outcome A * world.

Definition ret {A} (a : A) : M A := fun w => (Ret a, w).

Definition bind {A B} (m : M A) (k : A -> M B) : M B :=
  fun w =>
    match m w with
    | (Ret a, w') => k a w'
    | (Thrown e, w') => (Thrown e, w')
    | (Exited c, w') => (Exited c, w')
    end.

Notation "x <- m ;; k" := (bind m (fun x => k))
  (at level 61, m at next level, right associativity).
Notation "' p <- m ;; k" := (bind m (fun x => match x with p => k end))
  (at level 61, p pattern, m at next level, right associativity).
Notation "m ;;; k" := (bind m (fun _ => k)) (at level 61, right associativity).

Definition throw {A} (e : fserror) : M A := fun w => (Thrown e, w).

(** [Deno.exit(code)]: ends the process, past any [catch]. *)
Definition exit {A} (code : Z) : M A := fun w => (Exited code, w).

(** [try { m } catch (error) { h(error) }] *)
Definition catch {A} (m : M A) (h : fserror -> M A) : M A :=
  fun w =>
    match m w with
    | (Thrown e, w') => h e w'
    | r => r
    end.

Definition log (l : logline) : M unit :=
  fun w => (Ret tt, mkWorld (w_fs w) (w_log w ++ [l]) (w_stdin w) (w_tmp w) (w_remote w)).

Definition prompt : M (option string) :=
  fun w =>
    match w_stdin w with
    | [] => (Ret None, w)
    | a :: rest => (Ret a, mkWorld (w_fs w) (w_log w) rest (w_tmp w) (w_remote w))
    end.

(** A read-only file system primitive. *)
Definition fs_read {A} (f : FS.entry -> fsr A) : M A :=
  fun w =>
    match f (w_fs w) with
    | inl a => (Ret a, w)
    | inr e => (Thrown e, w)
    end.

(** A file system primitive that replaces the tree. *)
Definition fs_update (f : FS.entry -> fsr FS.entry) : M unit :=
  fun w =>
    match f (w_fs w) with
    | inl fs' => (Ret tt, mkWorld fs' (w_log w) (w_stdin w) (w_tmp w) (w_remote w))
    | inr e => (Thrown e, w)
    end.

Definition stat (p : path) : M FS.entry := fs_read (fun fs => lookup fs p).
Definition readTextFile (p : path) : M string := fs_read (fun fs => read_text fs p).
Definition writeTextFile (p : path) (s : string) : M unit :=
  fs_update (fun fs => write_text fs p s).
Definition copyFile (src dst : path) : M unit :=
  fs_update (fun fs => copy_file fs src dst).
Definition removeRecursive (p : path) : M unit := fs_update (fun fs => remove fs p).

(** [Deno.readDir(p)]: the entries of a directory, in listing order. *)
Definition readDir (p : path) : M (list FS.entry) :=
  fs_read (fun fs =>
    match lookup fs p with
    | inl (EDir _ ch) => inl ch
    | inl (EFile _ _) => inr NotADirectory
    | inr e => inr e
    end).

(** [getDirectory(dirPath, basePath, skip, exclude, maxSize)] *)
Definition getDirectory (dirPath basePath : path) (skip exclude : list string)
    (maxSize : jsnum) : M (list string * list path) :=
  es <- readDir dirPath ;;
  ret (processDirectory basePath skip exclude maxSize dirPath es ([], [])).

Fixpoint mapM {A B} (f : A -> M B) (l : list A) : M (list B) :=
  match l with
  | [] => ret []
  | x :: l' => y <- f x ;; ys <- mapM f l' ;; ret (y :: ys)
  end.

(** ** Output ([writeFiles]) *)

Definition nl : string := String (ascii_of_nat 10) EmptyString.

(** [`${p}.bak`] *)
Definition backup_path (p : path) : path := of_string (render p ++ ".bak").

(** One [try { stat; copyFile; log } catch] block of the backup step. *)
Definition backupOne (p : path) : M unit :=
  catch (_ <- stat p ;;
         copyFile p (backup_path p) ;;;
         log (LBackup (render (backup_path p))))
        (fun err => match err with
                    | NotFound => ret tt
                    | _ => throw err
                    end).

(** [`# ${repositoryName}\n\n`], [repositoryName] being the base name of
    the link-index path with every [.txt] and [llms-] removed. *)
Definition heading (llmsFilePath : path) : string :=
  "# " ++ Str.replace_txt_llms (basename (render llmsFilePath)) ++ nl ++ nl.

Definition link_entry (file : string) : string :=
  "- [" ++ basename file ++ "](" ++ file ++ ")".

(** The text written to the link index. *)
Definition llms_text (llmsFilePath : path) (files : list string) : string :=
  heading llmsFilePath ++ String.concat nl (map link_entry files).

(** The text written to the full-content file. *)
Definition llms_full_text (fileContents : list string) : string :=
  String.concat (nl ++ nl) fileContents.

(** [join(outputDir, file)] *)
Definition output_path (outputDir file : string) : path := join (of_string outputDir) file.

Definition writeFiles (llmsFile llmsFullFile : string) (files : list string)
    (fullPaths : list path) (outputDir : string) (backup : bool) : M unit :=
  let llmsFilePath := output_path outputDir llmsFile in
  let llmsFullFilePath := output_path outputDir llmsFullFile in
  (if backup then backupOne llmsFilePath ;;; backupOne llmsFullFilePath
   else ret tt) ;;;
  writeTextFile llmsFilePath (llms_text llmsFilePath files) ;;;
  fileContents <- mapM readTextFile fullPaths ;;
  writeTextFile llmsFullFilePath (llms_full_text fileContents) ;;;
  log (LWritten (render llmsFilePath) (render llmsFullFilePath)).

(** ** Interaction modes *)

(** [previewOption(files)] prints the files grouped by directory. *)
Definition previewOption (files : list string) : M unit := log (LPreview files).

(** [Set.add] on an insertion-ordered set. *)
Definition set_add (x : string) (s : list string) : list string :=
  if Str.includes s x then s else s ++ [x].

(** [p / q] in binary64 arithmetic, for integers [0 <= p] and [0 < q]
    below 2^53 (both are then exact doubles): the double nearest to the
    quotient, ties to even, as the rational it stands for.  [s] is the
    scale at which the quotient has 53 bits before the point. *)
Definition div_double (p q : Z) : Q :=
  let scaled (s : Z) : Z * Z :=
    if (0 <=? s)%Z then (p * 2 ^ s, q)%Z else (p, q * 2 ^ (- s))%Z in
  let s0 := (52 - (Z.log2 p - Z.log2 q))%Z in
  let s := if (fst (scaled s0) / snd (scaled s0) <? 2 ^ 52)%Z then (s0 + 1)%Z else s0 in
  let '(num, den) := scaled s in
  let m0 := (num / den)%Z in
  let r := (num mod den)%Z in
  let m := if (den <? 2 * r)%Z then (m0 + 1)%Z
           else if (2 * r <? den)%Z then m0
           else if Z.even m0 then m0 else (m0 + 1)%Z in
  if (0 <=? s)%Z then Qmake m (Z.to_pos (2 ^ s)) else inject_Z (m * 2 ^ (- s)).

(** [(totalSize / files.length / 1024).toFixed(2)].  [totalSize] is a sum
    of file sizes, an integer kept exact below 2^53.  Over no file the
    quotient is [NaN] for a total of 0 and [Infinity] otherwise.  Else
    [totalSize / files.length] is rounded to a double, the division by
    1024 is exact, and [toFixed(2)] prints the integer [n] nearest to
    100 times that double (the larger on a tie) over 100; the value
    stays below 10^21, where [toFixed] would switch notation. *)
Definition avg_centi_kb (totalSize : Z) (count : nat) : fixed2 :=
  match count with
  | O => if (totalSize =? 0)%Z then FixedNaN
         else if (0 <? totalSize)%Z then FixedInfinity else FixedNegInfinity
  | S _ =>
      FixedDigits (Qfloor (div_double totalSize (Z.of_nat count) / 1024 * 100
                           + (1 # 2))%Q)
  end.

(** The [for ... of fullPaths] loop of [analyzeOption], on
    [(totalWords, totalSize, folders)]. *)
Fixpoint analyzeLoop (fullPaths : list path) (acc : Z * Z * list string)
  : M (Z * Z * list string) :=
  match fullPaths with
  | [] => ret acc
  | fullPath :: rest =>
      content <- readTextFile fullPath ;;
      st <- stat fullPath ;;
      let '(words, sz, folders) := acc in
      analyzeLoop rest
        ((words + Z.of_nat (List.length (Str.split_ws content)))%Z,
         (sz + size st)%Z,
         set_add (Str.before_last_slash (render fullPath)) folders)
  end.

Definition analyzeOption (files : list string) (fullPaths : list path) : M unit :=
  '(words, sz, folders) <- analyzeLoop fullPaths (0%Z, 0%Z, []) ;;
  log (LAnalysis (Z.of_nat (List.length folders)) (Z.of_nat (List.length files))
         words (avg_centi_kb sz (List.length files))).

(** The interactive confirmation loop of [src/index.ts] ([main], lines
    371-385): file [i] and full path [i] are kept together when the
    answer is [y] or [Y]. *)
Fixpoint confirmLoop (i : nat) (files : list string) (fullPaths : list path)
    (acc : list string * list path) : M (list string * list path) :=
  match files with
  | [] => ret acc
  | file :: rest =>
      userInput <- prompt ;;
      let acc' :=
        match userInput with
        | Some a =>
            if String.eqb (Str.to_lower a) "y"
            then (fst acc ++ [file], snd acc ++ [nth i fullPaths []])
            else acc
        | None => acc
        end in
      confirmLoop (S i) rest fullPaths acc'
  end.

Definition interactiveSelect (files : list string) (fullPaths : list path)
  : M (list string * list path) :=
  confirmLoop 0 files fullPaths ([], []).

(** ** Source location ([parseURL], [cloneRepository]) *)

Definition DEFAULT_BRANCH : string := "main".

Module RepositoryURL.
Record RepositoryURL : Type := mk {
  owner : string;
  repo : string;
  branch : string;
  path : string
}.
End RepositoryURL.

(** [s.replace(pattern, "")] for a string pattern: its first occurrence. *)
Fixpoint replace_first (pat l : list ascii) : list ascii :=
  if Str.prefixb pat l then skipn (List.length pat) l
  else match l with
       | [] => []
       | a :: l' => a :: replace_first pat l'
       end.

(** [parseURL(url, baseUrl)]; a missing owner or repo is [undefined],
    which the clone URL template prints as ["undefined"]. *)
Definition parseURL (url baseUrl : string) : RepositoryURL.RepositoryURL :=
  let parts := Str.split "/"%char
    (string_of_list_ascii
       (replace_first (list_ascii_of_string baseUrl) (list_ascii_of_string url))) in
  RepositoryURL.mk (nth 0 parts "undefined") (nth 1 parts "undefined")
    (nth 3 parts DEFAULT_BRANCH) (String.concat "/" (skipn 4 parts)).

(** [Deno.makeTempDir()]: a fresh top-level directory. *)
Definition makeTempDir : M path :=
  fun w =>
    let n := ("tmp" ++ string_of_list_ascii (List.repeat "x"%char (w_tmp w)))%string in
    match add_top_dir (w_fs w) n [] with
    | inl fs' => (Ret [n], mkWorld fs' (w_log w) (w_stdin w) (S (w_tmp w)) (w_remote w))
    | inr e => (Thrown e, w)
    end.

Fixpoint find_remote (url br : string) (rs : list (string * string * list FS.entry))
  : option (list FS.entry) :=
  match rs with
  | [] => None
  | (u, b, t) :: rs' =>
      if String.eqb u url && String.eqb b br then Some t else find_remote url br rs'
  end.

(** [git clone -b branch --single-branch url dir] into the empty
    top-level directory [dir]. *)
Definition git_clone (url br : string) (dir : path) : M unit :=
  fun w =>
    match find_remote url br (w_remote w), dir, w_fs w with
    | Some t, [n], EDir m es =>
        (Ret tt, mkWorld (EDir m (replace_child n (EDir n t) es)) (w_log w)
                   (w_stdin w) (w_tmp w) (w_remote w))
    | _, _, _ => (Thrown (CloneFailed url), w)
    end.

Definition cloneRepository (url br : string) : M path :=
  temporaryDirectory <- makeTempDir ;;
  git_clone url br temporaryDirectory ;;;
  ret temporaryDirectory.

(** ** [main] after argument parsing *)

Module Config.
Record config : Type := mkConfig {
  localDir : option string;
  llmsFile : string;
  llmsFullFile : string;
  format : string;
  skip : list string;
  exclude : list string;
  branch : string;
  outputDir : string;
  githubUrl : option string;
  gitlabUrl : option string;
  preview : bool;
  analyze : bool;
  summary : bool;
  maxSize : jsnum;
  backup : bool
}.
End Config.
Import Config.

(** JavaScript truthiness of an optional string. *)
Definition truthy (s : option string) : bool :=
  match s with
  | Some x => negb (String.eqb x "")
  | None => false
  end.

Definition opt_str (s : option string) : string :=
  match s with Some x => x | None => "" end.

(** Lines 402-424: the root directory of the walk. *)
Definition locateSource (config : Config.config) : M path :=
  if truthy (githubUrl config) then
    let u := parseURL (opt_str (githubUrl config)) "https://github.com/" in
    dirPath <- cloneRepository ("https://github.com/" ++ RepositoryURL.owner u ++ "/" ++ RepositoryURL.repo u ++ ".git")
                 (if String.eqb (RepositoryURL.branch u) "" then Config.branch config
                  else RepositoryURL.branch u) ;;
    ret (if String.eqb (RepositoryURL.path u) "" then dirPath
         else join dirPath (RepositoryURL.path u))
  else if truthy (gitlabUrl config) then
    let u := parseURL (opt_str (gitlabUrl config)) "https://gitlab.com/" in
    dirPath <- cloneRepository ("https://gitlab.com/" ++ RepositoryURL.owner u ++ "/" ++ RepositoryURL.repo u ++ ".git")
                 (if String.eqb (RepositoryURL.branch u) "" then Config.branch config
                  else RepositoryURL.branch u) ;;
    ret (if String.eqb (RepositoryURL.path u) "" then dirPath
         else join dirPath (RepositoryURL.path u))
  else ret (of_string (opt_str (localDir config))).

(** Lines 434-440. *)
Definition previewStep (config : Config.config) (files : list string) : M unit :=
  if preview config then
    previewOption files ;;;
    userInput <- prompt ;;
    match userInput with
    | Some a => if String.eqb (Str.to_lower a) "y" then ret tt else exit 0
    | None => exit 0
    end
  else ret tt.

(** Lines 401-472, the body of the [try] block and its [catch]. *)
Definition pipeline (config : Config.config) : M unit :=
  dirPath <- locateSource config ;;
  '(files, fullPaths) <- getDirectory dirPath dirPath (skip config)
                           (exclude config) (maxSize config) ;;
  previewStep config files ;;;
  (if analyze config then analyzeOption files fullPaths ;;; exit 0 else ret tt) ;;;
  (if summary config then log (LSummary files) ;;; exit 0 else ret tt) ;;;
  writeFiles (llmsFile config) (llmsFullFile config) files fullPaths
    (outputDir config) (Config.backup config) ;;;
  (* [dirPath] is then the temporary directory or a path joined to it,
      a non-empty string, so the test is that of the URLs *)
  (if truthy (githubUrl config) || truthy (gitlabUrl config)
   then removeRecursive dirPath else ret tt).

(** [main] from line 393 on, once [config] is built. *)
Definition main (config : Config.config) : M unit :=
  if negb (truthy (localDir config) || truthy (githubUrl config) ||
           truthy (gitlabUrl config)) then
    log LUsage ;;; exit 1
  else
    catch (pipeline config) (fun error => log (LError error) ;;; exit 1).

(** ** Argument parsing ([main], lines 265-391) *)

(** The [config] object literal of [main]. *)
Definition default_config : Config.config :=
  Config.mkConfig None "llms.txt" "llms-full.txt" "txt" [] [] DEFAULT_BRANCH "."
    None None false false false JPosInf false.

Definition supportedOptions : list string :=
  ["--local"; "--llms"; "--llms-full"; "--format"; "--skip"; "--exclude";
   "--branch"; "--output-dir"; "--preview"; "--analyze"; "--summary";
   "--max-size"; "--github"; "--gitlab"; "--backup"; "--help"].

(** Assignments to one property of [config]. *)
Definition set_localDir (v : option string) (c : Config.config) : Config.config :=
  Config.mkConfig v (llmsFile c) (llmsFullFile c) (format c) (skip c) (exclude c) (Config.branch c) (outputDir c) (githubUrl c) (gitlabUrl c) (preview c) (analyze c) (summary c) (maxSize c) (Config.backup c).

Definition set_llmsFile (v : string) (c : Config.config) : Config.config :=
  Config.mkConfig (localDir c) v (llmsFullFile c) (format c) (skip c) (exclude c) (Config.branch c) (outputDir c) (githubUrl c) (gitlabUrl c) (preview c) (analyze c) (summary c) (maxSize c) (Config.backup c).

Definition set_llmsFullFile (v : string) (c : Config.config) : Config.config :=
  Config.mkConfig (localDir c) (llmsFile c) v (format c) (skip c) (exclude c) (Config.branch c) (outputDir c) (githubUrl c) (gitlabUrl c) (preview c) (analyze c) (summary c) (maxSize c) (Config.backup c).

Definition set_format (v : string) (c : Config.config) : Config.config :=
  Config.mkConfig (localDir c) (llmsFile c) (llmsFullFile c) v (skip c) (exclude c) (Config.branch c) (outputDir c) (githubUrl c) (gitlabUrl c) (preview c) (analyze c) (summary c) (maxSize c) (Config.backup c).

Definition set_skip (v : list string) (c : Config.config) : Config.config :=
  Config.mkConfig (localDir c) (llmsFile c) (llmsFullFile c) (format c) v (exclude c) (Config.branch c) (outputDir c) (githubUrl c) (gitlabUrl c) (preview c) (analyze c) (summary c) (maxSize c) (Config.backup c).

Definition set_exclude (v : list string) (c : Config.config) : Config.config :=
  Config.mkConfig (localDir c) (llmsFile c) (llmsFullFile c) (format c) (skip c) v (Config.branch c) (outputDir c) (githubUrl c) (gitlabUrl c) (preview c) (analyze c) (summary c) (maxSize c) (Config.backup c).

Definition set_branch (v : string) (c : Config.config) : Config.config :=
  Config.mkConfig (localDir c) (llmsFile c) (llmsFullFile c) (format c) (skip c) (exclude c) v (outputDir c) (githubUrl c) (gitlabUrl c) (preview c) (analyze c) (summary c) (maxSize c) (Config.backup c).

Definition set_outputDir (v : string) (c : Config.config) : Config.config :=
  Config.mkConfig (localDir c) (llmsFile c) (llmsFullFile c) (format c) (skip c) (exclude c) (Config.branch c) v (githubUrl c) (gitlabUrl c) (preview c) (analyze c) (summary c) (maxSize c) (Config.backup c).

Definition set_githubUrl (v : option string) (c : Config.config) : Config.config :=
  Config.mkConfig (localDir c) (llmsFile c) (llmsFullFile c) (format c) (skip c) (exclude c) (Config.branch c) (outputDir c) v (gitlabUrl c) (preview c) (analyze c) (summary c) (maxSize c) (Config.backup c).

Definition set_gitlabUrl (v : option string) (c : Config.config) : Config.config :=
  Config.mkConfig (localDir c) (llmsFile c) (llmsFullFile c) (format c) (skip c) (exclude c) (Config.branch c) (outputDir c) (githubUrl c) v (preview c) (analyze c) (summary c) (maxSize c) (Config.backup c).

Definition set_preview (v : bool) (c : Config.config) : Config.config :=
  Config.mkConfig (localDir c) (llmsFile c) (llmsFullFile c) (format c) (skip c) (exclude c) (Config.branch c) (outputDir c) (githubUrl c) (gitlabUrl c) v (analyze c) (summary c) (maxSize c) (Config.backup c).

Definition set_analyze (v : bool) (c : Config.config) : Config.config :=
  Config.mkConfig (localDir c) (llmsFile c) (llmsFullFile c) (format c) (skip c) (exclude c) (Config.branch c) (outputDir c) (githubUrl c) (gitlabUrl c) (preview c) v (summary c) (maxSize c) (Config.backup c).

Definition set_summary (v : bool) (c : Config.config) : Config.config :=
  Config.mkConfig (localDir c) (llmsFile c) (llmsFullFile c) (format c) (skip c) (exclude c) (Config.branch c) (outputDir c) (githubUrl c) (gitlabUrl c) (preview c) (analyze c) v (maxSize c) (Config.backup c).

Definition set_maxSize (v : jsnum) (c : Config.config) : Config.config :=
  Config.mkConfig (localDir c) (llmsFile c) (llmsFullFile c) (format c) (skip c) (exclude c) (Config.branch c) (outputDir c) (githubUrl c) (gitlabUrl c) (preview c) (analyze c) (summary c) v (Config.backup c).

Definition set_backup (v : bool) (c : Config.config) : Config.config :=
  Config.mkConfig (localDir c) (llmsFile c) (llmsFullFile c) (format c) (skip c) (exclude c) (Config.branch c) (outputDir c) (githubUrl c) (gitlabUrl c) (preview c) (analyze c) (summary c) (maxSize c) v.

(** [s.includes(".")] *)
Definition has_dot (s : string) : bool :=
  existsb (fun a => Ascii.eqb a "."%char) (list_ascii_of_string s).

(** [s.replace(/^\./, "")] *)
Definition strip_leading_dot (s : string) : string :=
  match s with
  | String a s' => if Ascii.eqb a "."%char then s' else s
  | EmptyString => s
  end.

(** The leftmost match of [/\.[^.]+$/]: a dot followed by at least one
    character and no other dot up to the end.  Returns the text before
    the match and the match. *)
Fixpoint ext_match (l : list ascii) : option (list ascii * list ascii) :=
  match l with
  | [] => None
  | a :: l' =>
      if Ascii.eqb a "."%char &&
         negb (existsb (fun b => Ascii.eqb b "."%char) l') &&
         negb (Nat.eqb (List.length l') 0)
      then Some ([], l)
      else match ext_match l' with
           | Some (b, m) => Some (a :: b, m)
           | None => None
           end
  end.

(** The replacement patterns of [String.prototype.replace] for a regular
    expression without groups: [$$], [$&], [$`] and [$'] are expanded,
    every other [$] is kept. *)
Fixpoint expand_replacement (matched before after t : list ascii) : list ascii :=
  match t with
  | [] => []
  | a :: t' =>
      if Ascii.eqb a "$"%char then
        match t' with
        | [] => [a]
        | b :: t'' =>
            if Ascii.eqb b "$"%char then "$"%char :: expand_replacement matched before after t''
            else if Ascii.eqb b "&"%char then matched ++ expand_replacement matched before after t''
            else if Ascii.eqb b "`"%char then before ++ expand_replacement matched before after t''
            else if Ascii.eqb b "'"%char then after ++ expand_replacement matched before after t''
            else a :: expand_replacement matched before after t'
        end
      else a :: expand_replacement matched before after t'
  end.

(** [s.replace(/\.[^.]+$/, rep)]; the match ends the string, so the text
    after it is empty. *)
Definition replace_ext (s rep : string) : string :=
  match ext_match (list_ascii_of_string s) with
  | Some (b, m) =>
      string_of_list_ascii (b ++ expand_replacement m b [] (list_ascii_of_string rep))
  | None => s
  end.

(** How the option loop ends: with a [config]; with [Deno.exit(1)] on an
    unsupported option; with [Deno.exit(0)] after [--help]; with an
    uncaught [TypeError] (a method called on the [undefined] that
    [args[++i]] gives past the end); or with [config.branch] or
    [config.outputDir] set to [undefined] by a last option missing its
    value. *)
Inductive parse_outcome : Type :=
| PConfig (c : Config.config)
| PInvalid (arg : string)
| PHelp
| PTypeError
| PUndefined (field : string) (c : Config.config).

Section parseArgs.
(** [parseFloat], on a string or on [undefined]. *)
Variable parseFloat : option string -> jsnum.

(** The [for] loop over [Deno.args]; [args[++i]] takes the next
    argument, whatever it is, as the option's value. *)
Fixpoint parseArgs (args : list string) (c : Config.config) : parse_outcome :=
  match args with
  | [] => PConfig c
  | arg :: rest =>
      if negb (Str.includes supportedOptions arg) then PInvalid arg
      else if String.eqb arg "--local" then
        match rest with
        | [] => PConfig (set_localDir None c)
        | v :: rest' => parseArgs rest' (set_localDir (Some v) c)
        end
      else if String.eqb arg "--llms" then
        match rest with
        | [] => PTypeError
        | v :: rest' =>
            parseArgs rest' (set_llmsFile (if has_dot v then v else v ++ ".txt") c)
        end
      else if String.eqb arg "--llms-full" then
        match rest with
        | [] => PTypeError
        | v :: rest' =>
            parseArgs rest' (set_llmsFullFile (if has_dot v then v else v ++ ".txt") c)
        end
      else if String.eqb arg "--format" then
        match rest with
        | [] => PTypeError
        | v :: rest' =>
            let f := strip_leading_dot v in
            let c1 := set_format f c in
            let c2 := set_llmsFile (replace_ext (llmsFile c1) ("." ++ f)) c1 in
            parseArgs rest' (set_llmsFullFile (replace_ext (llmsFullFile c2) ("." ++ f)) c2)
        end
      else if String.eqb arg "--skip" then
        match rest with
        | [] => PTypeError
        | v :: rest' => parseArgs rest' (set_skip (skip c ++ Str.split ","%char v) c)
        end
      else if String.eqb arg "--exclude" then
        match rest with
        | [] => PTypeError
        | v :: rest' => parseArgs rest' (set_exclude (exclude c ++ Str.split ","%char v) c)
        end
      else if String.eqb arg "--branch" then
        match rest with
        | [] => PUndefined "branch" c
        | v :: rest' => parseArgs rest' (set_branch v c)
        end
      else if String.eqb arg "--output-dir" then
        match rest with
        | [] => PUndefined "outputDir" c
        | v :: rest' => parseArgs rest' (set_outputDir v c)
        end
      else if String.eqb arg "--preview" then parseArgs rest (set_preview true c)
      else if String.eqb arg "--analyze" then parseArgs rest (set_analyze true c)
      else if String.eqb arg "--summary" then parseArgs rest (set_summary true c)
      else if String.eqb arg "--max-size" then
        match rest with
        | [] => PConfig (set_maxSize (parseFloat None) c)
        | v :: rest' => parseArgs rest' (set_maxSize (parseFloat (Some v)) c)
        end
      else if String.eqb arg "--github" then
        match rest with
        | [] => PConfig (set_githubUrl None c)
        | v :: rest' => parseArgs rest' (set_githubUrl (Some v) c)
        end
      else if String.eqb arg "--gitlab" then
        match rest with
        | [] => PConfig (set_gitlabUrl None c)
        | v :: rest' => parseArgs rest' (set_gitlabUrl (Some v) c)
        end
      else if String.eqb arg "--backup" then parseArgs rest (set_backup true c)
      else (* [--help] *) PHelp
  end.
End parseArgs.

(** ** The walk as the spec describes it

    A second description of the matched list, following the spec: list
    every regular file of the tree in directory-entries order, then keep
    those not under a skipped, hidden or ignored directory, with a
    recognised and not excluded extension, and within the size limit. *)

Record found : Type := mkFound {
  found_path : path;            (** its full path *)
  found_dirs : list string;     (** the directories between the root and it *)
  found_name : string;
  found_size : Z
}.

(** Every regular file under [e], depth first, children in listing order. *)
Fixpoint files_of (cur : path) (dirs : list string) (e : FS.entry) : list found :=
  match e with
  | EFile n c => [mkFound (cur ++ [n]) dirs n (size e)]
  | EDir n ch =>
      (fix loop (es : list FS.entry) : list found :=
         match es with
         | [] => []
         | x :: es' => files_of (cur ++ [n]) (dirs ++ [n]) x ++ loop es'
         end) ch
  end.

Definition all_files (root : path) (es : list FS.entry) : list found :=
  flat_map (files_of root []) es.

Section SpecWalk.

Variables (skip exclude : list string) (maxSize : jsnum).

Definition spec_keep (f : found) : bool :=
  forallb (fun d => negb (skipDirectory d skip)) (found_dirs f) &&
  existsb (Str.ends_with (found_name f)) SUPPORTED_EXTENSIONS &&
  negb (existsb (Str.ends_with (found_name f)) exclude) &&
  size_le (found_size f) (js_mul_1024 (js_mul_1024 maxSize)).

Definition spec_matched (root : path) (es : list FS.entry) : list path :=
  map found_path (filter spec_keep (all_files root es)).

End SpecWalk.

(** A real directory tree: names are unique within each directory. *)
Inductive wf_entry : FS.entry -> Prop :=
| wf_file n c : wf_entry (EFile n c)
| wf_dir n ch : NoDup (map ename ch) -> Forall wf_entry ch -> wf_entry (EDir n ch).

(** ** Concrete inputs *)

(** The tree of spec scenarios B and C under [r], with a hidden and an
    ignored directory, and an output directory [out]. *)
Definition tree_B : list FS.entry :=
  [EFile "a.md" "# A"; EFile "b.txt" "b"; EDir "skip" [EFile "c.md" "c"];
   EDir ".git" [EFile "d.md" "d"]; EDir "node_modules" [EFile "e.md" "e"]].

Definition fs_B : FS.entry := EDir "" [EDir "r" tree_B; EDir "out" []].

Definition world_of (fs : FS.entry) : world := mkWorld fs [] [] 0 [].

Definition local_config (dir : string) : Config.config :=
  Config.mkConfig (Some dir) "llms.txt" "llms-full.txt" "txt" [] [] DEFAULT_BRANCH
    "out" None None false false false JPosInf false.

(** [files[i]] is [fullPaths[i]] made relative to the root, for every
    index, and the two arrays have the same length. *)
Definition aligned (root : path) (files : list string) (fullPaths : list path) : Prop :=
  List.length files = List.length fullPaths /\
  forall i, (i < List.length fullPaths)%nat ->
    nth i files "" = relative root (nth i fullPaths []).

(** The elements of [l] at the positions where [mask] is [true]. *)
Fixpoint select {A} (mask : list bool) (l : list A) : list A :=
  match mask, l with
  | b :: mask', x :: l' => if b then x :: select mask' l' else select mask' l'
  | _, _ => []
  end.

(** A one-byte file in the tree and [maxSize = 1/1048576] MB. *)
Definition tree_size : list FS.entry := [EFile "one.md" "x"; EFile "two.md" "xy"].

(** [k] words separated by single spaces, ending with a newline, as a
    text file usually does. *)
Definition words_text (k : nat) : string :=
  (String.concat " " (List.repeat "w" k) ++ nl)%string.

(** Spec scenario D: two files of 10 and 20 words. *)
Definition fs_D : FS.entry :=
  EDir "" [EDir "r" [EFile "ten.md" (words_text 10); EFile "twenty.md" (words_text 20)];
           EDir "out" []].

Definition analyze_config (dir : string) : Config.config :=
  Config.mkConfig (Some dir) "llms.txt" "llms-full.txt" "txt" [] [] DEFAULT_BRANCH
    "out" None None false true false JPosInf false.

Definition preview_config (dir : string) : Config.config :=
  Config.mkConfig (Some dir) "llms.txt" "llms-full.txt" "txt" [] [] DEFAULT_BRANCH
    "out" None None true false false JPosInf false.

(** The number of whitespace-delimited words of a text, as the spec
    counts them: the non-empty pieces between runs of whitespace. *)
Definition spec_word_count (s : string) : nat :=
  List.length (filter (fun x => negb (String.eqb x "")) (Str.split_ws s)).

(** The operator's next answer to the preview prompt is not [y] or [Y]
    (end of input is [null]). *)
Definition declines (stdin : list (option string)) : bool :=
  match stdin with
  | Some a :: _ => negb (String.eqb (Str.to_lower a) "y")
  | _ => true
  end.

(** A directory entry name as a file system gives it: not empty, not
    [.] or [..], without a separator. *)
Definition valid_segment (n : string) : bool :=
  negb (String.eqb n "") && negb (String.eqb n ".") && negb (String.eqb n "..") &&
  negb (existsb (fun a => Ascii.eqb a "/"%char) (list_ascii_of_string n)).

(** Every name of the tree is a valid segment. *)
Fixpoint names_valid (e : FS.entry) : bool :=
  valid_segment (ename e) &&
  match e with
  | EFile _ _ => true
  | EDir _ ch =>
      (fix loop (l : list FS.entry) : bool :=
         match l with
         | [] => true
         | x :: l' => names_valid x && loop l'
         end) ch
  end.

(** [xs.join(c)] on character lists. *)
Fixpoint join_chars (c : ascii) (ls : list (list ascii)) : list ascii :=
  match ls with
  | [] => []
  | [x] => x
  | x :: xs => x ++ c :: join_chars c xs
  end.

(** The number of whitespace runs of [l] that begin a new piece of
    [split(/\s+/)]: every maximal run, including a leading one unless
    the text before it already ended in whitespace ([prev_ws]). *)
Fixpoint ws_run_starts (l : list ascii) (prev_ws : bool) : nat :=
  match l with
  | [] => 0
  | a :: l' =>
      if Str.is_ws a then (if prev_ws then 0 else 1) + ws_run_starts l' true
      else ws_run_starts l' false
  end.

(** The number of words of [l] (maximal runs of non-whitespace), the
    text before it ending inside a word when [in_word]. *)
Fixpoint word_ends (l : list ascii) (in_word : bool) : nat :=
  match l with
  | [] => if in_word then 1 else 0
  | a :: l' =>
      if Str.is_ws a then (if in_word then 1 else 0) + word_ends l' false
      else word_ends l' true
  end.

(** A computation that leaves the file system as it found it and, if
    it exits, exits with code 0. *)
Definition keeps_fs {A} (m : M A) : Prop :=
  forall w o w', m w = (o, w') ->
    w_fs w' = w_fs w /\ match o with Exited c => c = 0%Z | _ => True end.

(** A computation that leaves the file system as it found it and never
    returns normally: it throws, or it exits with code 0. *)
Definition halts_readonly {A} (m : M A) : Prop :=
  forall w o w', m w = (o, w') ->
    w_fs w' = w_fs w /\
    match o with Ret _ => False | Thrown _ => True | Exited c => c = 0%Z end.

(** A [--github] run on a URL with the sub-path [docs]. *)
Definition remote_config : Config.config :=
  set_outputDir "out" (set_githubUrl (Some "https://github.com/o/r/tree/main/docs") default_config).

(** The same repository named without a sub-path. *)
Definition remote_config_root : Config.config :=
  set_outputDir "out" (set_githubUrl (Some "https://github.com/o/r") default_config).

Definition world_R : world :=
  mkWorld (EDir "" [EDir "out" []]) [] [] 0
    [("https://github.com/o/r.git", "main", [EDir "docs" [EFile "a.md" "x"]; EFile "README.md" "y"])].

Definition world_R_after : world :=
  mkWorld (EDir "" [EDir "out" [EFile "llms.txt" ("# llms" ++ nl ++ nl ++ "- [a.md](a.md)");
                                EFile "llms-full.txt" "x"];
                    EDir "tmp" [EFile "README.md" "y"]])
    [LWritten "out/llms.txt" "out/llms-full.txt"] [] 1 (w_remote world_R).

(** How many top-level entries are named [n]. *)
Definition root_count (n : string) (fs : FS.entry) : nat :=
  match fs with
  | EDir _ ch => List.length (filter (fun e => String.eqb (ename e) n) ch)
  | EFile _ _ => 0
  end.

(** The tree has a top-level directory named [n]. *)
Definition top_dir (n : string) (fs : FS.entry) : Prop :=
  exists ch, lookup fs [n] = inl (EDir n ch).

(** A computation that keeps a property of the file system. *)
Definition preserves {A} (P : FS.entry -> Prop) (m : M A) : Prop :=
  forall w o w', m w = (o, w') -> P (w_fs w) -> P (w_fs w').

(** The path [p] is [dir] or lies under it. *)
Definition under (dir p : path) : bool :=
  if list_eq_dec String.string_dec (firstn (List.length dir) p) dir then true else false.

(** A [--github] or [--gitlab] source, which [main] clones and whose
    [dirPath] it removes at the end. *)
Definition remote_source (config : Config.config) : bool :=
  truthy (githubUrl config) || truthy (gitlabUrl config).

(** Two worlds alike but for the console and the standard input. *)
Definition same_state (w1 w2 : world) : Prop :=
  w_fs w1 = w_fs w2 /\ w_tmp w1 = w_tmp w2 /\ w_remote w1 = w_remote w2.

(** A computation that reads no input: its outcome and the state it
    leaves depend on the file system, the temporary names and the remote
    repositories only, and it leaves the standard input alone. *)
Definition no_input {A} (m : M A) : Prop :=
  forall w1 w2, same_state w1 w2 ->
    fst (m w1) = fst (m w2) /\ same_state (snd (m w1)) (snd (m w2)) /\
    w_stdin (snd (m w1)) = w_stdin w1.

(** The steps of [pipeline] after the preview. *)
Definition pipeline_tail (config : Config.config) (dirPath : path) (files : list string)
    (fullPaths : list path) : M unit :=
  (if analyze config then analyzeOption files fullPaths ;;; exit 0 else ret tt) ;;;
  (if summary config then log (LSummary files) ;;; exit 0 else ret tt) ;;;
  writeFiles (llmsFile config) (llmsFullFile config) files fullPaths
    (outputDir config) (Config.backup config) ;;;
  (if truthy (githubUrl config) || truthy (gitlabUrl config)
   then removeRecursive dirPath else ret tt).

(** * Lemmas *)

Section entry_ind'.
Variable P : FS.entry -> Prop.
Hypothesis HF : forall n c, P (EFile n c).
Hypothesis HD : forall n ch, Forall P ch -> P (EDir n ch).

Fixpoint entry_ind' (e : FS.entry) : P e :=
  match e with
  | EFile n c => HF n c
  | EDir n ch =>
      HD n ch
        ((fix go (l : list FS.entry) : Forall P l :=
            match l with
            | [] => Forall_nil P
            | x :: l' => Forall_cons x (entry_ind' x) (go l')
            end) ch)
  end.
End entry_ind'.

Lemma processEntry_dir base skip exclude maxSize cur n ch st :
  processEntry base skip exclude maxSize cur (EDir n ch) st =
  if negb (skipDirectory n skip)
  then processDirectory base skip exclude maxSize (cur ++ [n]) ch st
  else st.
Proof.
  simpl. destruct (negb (skipDirectory n skip)); [|reflexivity].
  unfold processDirectory. revert st.
  induction ch as [|x ch IH]; intros st; simpl; [reflexivity|].
  apply IH.
Qed.

Lemma files_of_dir cur dirs n ch :
  files_of cur dirs (EDir n ch) = flat_map (files_of (cur ++ [n]) (dirs ++ [n])) ch.
Proof.
  simpl. induction ch as [|x ch IH]; simpl; [reflexivity|]. now rewrite IH.
Qed.

(** The arrays after pushing the found files [l], in order. *)
Definition push_all (base : path) (st : list string * list path) (l : list found)
  : list string * list path :=
  (fst st ++ map (relative base) (map found_path l), snd st ++ map found_path l).

Lemma push_all_app base st l1 l2 :
  push_all base (push_all base st l1) l2 = push_all base st (l1 ++ l2).
Proof.
  unfold push_all; simpl. now rewrite !map_app, !app_assoc.
Qed.

Lemma push_all_nil base st : push_all base st [] = st.
Proof. destruct st; unfold push_all; simpl; now rewrite !app_nil_r. Qed.

Lemma files_of_dirs e : forall cur dirs f,
  In f (files_of cur dirs e) -> exists r, found_dirs f = dirs ++ r.
Proof.
  induction e as [n c|n ch IH] using entry_ind'; intros cur dirs f Hin.
  - simpl in Hin. destruct Hin as [<-|[]]. exists []. simpl. now rewrite app_nil_r.
  - rewrite files_of_dir in Hin. apply in_flat_map in Hin as [x [Hx Hf]].
    rewrite Forall_forall in IH.
    destruct (IH x Hx _ _ _ Hf) as [r Hr]. exists (n :: r).
    rewrite Hr, <- app_assoc. reflexivity.
Qed.

Lemma files_of_path e : forall cur dirs f,
  In f (files_of cur dirs e) -> exists r, found_path f = cur ++ ename e :: r.
Proof.
  induction e as [n c|n ch IH] using entry_ind'; intros cur dirs f Hin.
  - simpl in Hin. destruct Hin as [<-|[]]. exists []. reflexivity.
  - rewrite files_of_dir in Hin. apply in_flat_map in Hin as [x [Hx Hf]].
    rewrite Forall_forall in IH.
    destruct (IH x Hx _ _ _ Hf) as [r Hr]. exists (ename x :: r).
    rewrite Hr, <- app_assoc. reflexivity.
Qed.

Lemma filter_none {A} (p : A -> bool) l :
  (forall x, In x l -> p x = false) -> filter p l = [].
Proof.
  induction l as [|x l IH]; intros H; simpl; [reflexivity|].
  rewrite (H x (or_introl eq_refl)). apply IH. intros y Hy. apply H. now right.
Qed.

Section WalkSpec.

Variables (base : path) (skip exclude : list string) (maxSize : jsnum).

Let ok (d : string) := negb (skipDirectory d skip).
Let keep := spec_keep skip exclude maxSize.

Lemma processDirectory_spec ch :
  Forall (fun e => forall cur dirs st, forallb ok dirs = true ->
            processEntry base skip exclude maxSize cur e st =
            push_all base st (filter keep (files_of cur dirs e))) ch ->
  forall cur dirs st, forallb ok dirs = true ->
  processDirectory base skip exclude maxSize cur ch st =
  push_all base st (filter keep (flat_map (files_of cur dirs) ch)).
Proof.
  induction ch as [|x ch IH]; intros HF cur dirs st Hd.
  - simpl. now rewrite push_all_nil.
  - inversion HF as [|? ? Hx Hch]; subst.
    unfold processDirectory in *. simpl.
    rewrite (Hx cur dirs st Hd), (IH Hch cur dirs _ Hd).
    now rewrite push_all_app, filter_app.
Qed.

(** The recursion of [processDirectory] lists exactly the files the spec
    keeps, in the same order. *)
Lemma processEntry_spec e : forall cur dirs st,
  forallb ok dirs = true ->
  processEntry base skip exclude maxSize cur e st =
  push_all base st (filter keep (files_of cur dirs e)).
Proof.
  induction e as [n c|n ch IH] using entry_ind'; intros cur dirs st Hd.
  - cbn [processEntry files_of]. unfold keep, spec_keep, file_selected.
    cbn [filter found_dirs found_name found_size].
    unfold ok in Hd. rewrite Hd, andb_true_l.
    destruct (existsb (Str.ends_with n) SUPPORTED_EXTENSIONS &&
              negb (existsb (Str.ends_with n) exclude)); cbn [andb].
    + destruct (size_le _ _); [reflexivity|].
      destruct st; unfold push_all; simpl; now rewrite !app_nil_r.
    + destruct st; unfold push_all; simpl; now rewrite !app_nil_r.
  - rewrite processEntry_dir, files_of_dir.
    destruct (skipDirectory n skip) eqn:Hs; simpl.
    + rewrite filter_none; [now rewrite push_all_nil|].
      intros f Hf. apply in_flat_map in Hf as [x [_ Hf]].
      destruct (files_of_dirs x _ _ _ Hf) as [r Hr].
      unfold keep, spec_keep. rewrite Hr, !forallb_app. cbn [forallb].
      rewrite Hs. cbn [negb andb]. now rewrite andb_false_r.
    + apply processDirectory_spec; [exact IH|].
      rewrite forallb_app, Hd. simpl. unfold ok. now rewrite Hs.
Qed.

(** [processDirectory(root)] from empty arrays. *)
Lemma walk_spec root es :
  processDirectory base skip exclude maxSize root es ([], []) =
  (map (relative base) (spec_matched skip exclude maxSize root es),
   spec_matched skip exclude maxSize root es).
Proof.
  rewrite (processDirectory_spec es) with (dirs := []); [|apply Forall_forall;
    intros e _ cur dirs st Hd; now apply processEntry_spec|reflexivity].
  reflexivity.
Qed.

End WalkSpec.

Lemma getDirectory_spec root skip exclude maxSize w n es :
  lookup (w_fs w) root = inl (EDir n es) ->
  getDirectory root root skip exclude maxSize w =
  (Ret (map (relative root) (spec_matched skip exclude maxSize root es),
        spec_matched skip exclude maxSize root es), w).
Proof.
  intros Hl. unfold getDirectory, bind, readDir, fs_read, ret.
  rewrite Hl. now rewrite walk_spec.
Qed.

Lemma NoDup_map_filter {A B} (g : A -> B) (p : A -> bool) l :
  NoDup (map g l) -> NoDup (map g (filter p l)).
Proof.
  induction l as [|x l IH]; simpl; intros H; [constructor|].
  inversion H as [|? ? Hx Hl]; subst.
  destruct (p x); simpl; [|now apply IH].
  constructor; [|now apply IH].
  intros Hin. apply Hx. apply in_map_iff in Hin as [y [Hy Hin]].
  apply filter_In in Hin as [Hin _]. rewrite <- Hy. now apply in_map.
Qed.

Lemma NoDup_flat_map_files cur dirs es :
  NoDup (map ename es) ->
  Forall (fun e => NoDup (map found_path (files_of cur dirs e))) es ->
  NoDup (map found_path (flat_map (files_of cur dirs) es)).
Proof.
  induction es as [|x es IH]; simpl; intros Hn Hf; [constructor|].
  inversion Hn as [|? ? Hx Hn']; subst. inversion Hf as [|? ? Hfx Hf']; subst.
  rewrite map_app. apply NoDup_app; [exact Hfx|now apply IH|].
  intros a Ha Hb.
  apply in_map_iff in Ha as [f [<- Hf1]]. apply in_map_iff in Hb as [g [Hg Hg1]].
  apply in_flat_map in Hg1 as [y [Hy Hg1]].
  destruct (files_of_path x _ _ _ Hf1) as [r1 Hr1].
  destruct (files_of_path y _ _ _ Hg1) as [r2 Hr2].
  rewrite Hr1, Hr2 in Hg. apply app_inv_head in Hg. injection Hg as Hxy _.
  apply Hx. rewrite <- Hxy. now apply in_map.
Qed.

Lemma NoDup_files_of e : wf_entry e -> forall cur dirs,
  NoDup (map found_path (files_of cur dirs e)).
Proof.
  induction e as [n c|n ch IH] using entry_ind'; intros Hwf cur dirs.
  - simpl. repeat constructor. intros [].
  - inversion Hwf as [|? ? Hn Hch]; subst. rewrite files_of_dir.
    apply NoDup_flat_map_files; [exact Hn|].
    rewrite Forall_forall in *. intros x Hx. apply IH; [exact Hx|now apply Hch].
Qed.

(** * Claims *)

(** ** C1 *)

(** Claim C1: for every directory tree, [getDirectory] on a directory
    [root] returns as [fullPaths] exactly the regular files of the tree,
    in directory-entries depth-first order, that are under no directory
    in the skip set, starting with ["."] or in the ignore list, whose
    name ends with [.md], [.mdx], [.txt] or [.rst] and with no excluded
    extension, and whose size is within the limit; [files] holds their
    paths relative to [root].  In a real tree (names unique per
    directory) each of them appears exactly once. *)
Theorem getDirectory_exact (root : path) (skip exclude : list string)
    (maxSize : jsnum) (w : world) (n : string) (es : list FS.entry) :
  lookup (w_fs w) root = inl (EDir n es) ->
  getDirectory root root skip exclude maxSize w =
    (Ret (map (relative root) (spec_matched skip exclude maxSize root es),
          spec_matched skip exclude maxSize root es), w) /\
  (wf_entry (EDir n es) -> NoDup (spec_matched skip exclude maxSize root es)).
Proof.
  intros Hl. split; [now apply getDirectory_spec with (n := n)|].
  intros Hwf. unfold spec_matched, all_files.
  apply NoDup_map_filter.
  inversion Hwf as [|? ? Hn Hch]; subst.
  apply NoDup_flat_map_files; [exact Hn|].
  rewrite Forall_forall in *. intros x Hx. apply NoDup_files_of. now apply Hch.
Qed.

Lemma getDirectory_exact_witness :
  lookup (w_fs (world_of fs_B)) ["r"] = inl (EDir "r" tree_B) /\
  getDirectory ["r"] ["r"] ["skip"] [] JPosInf (world_of fs_B) =
    (Ret (map (relative ["r"]) (spec_matched ["skip"] [] JPosInf ["r"] tree_B),
          spec_matched ["skip"] [] JPosInf ["r"] tree_B), world_of fs_B) /\
  (wf_entry (EDir "r" tree_B) ->
   NoDup (spec_matched ["skip"] [] JPosInf ["r"] tree_B)).
Proof.
  split; [reflexivity|].
  apply (getDirectory_exact ["r"] ["skip"] [] JPosInf (world_of fs_B) "r" tree_B).
  reflexivity.
Defined.

(** Spec scenario B: with [skip = ["skip"]] the matched list is
    [a.md; b.txt]. *)
Example scenario_B :
  getDirectory ["r"] ["r"] ["skip"] [] JPosInf (world_of fs_B) =
  (Ret (["a.md"; "b.txt"], [["r"; "a.md"]; ["r"; "b.txt"]]), world_of fs_B).
Proof. reflexivity. Qed.

(** Spec scenario C: with [exclude = ["txt"]] it is [a.md] only. *)
Example scenario_C :
  getDirectory ["r"] ["r"] ["skip"] ["txt"] JPosInf (world_of fs_B) =
  (Ret (["a.md"], [["r"; "a.md"]]), world_of fs_B).
Proof. reflexivity. Qed.

(** ** C4 *)

Lemma spec_keep_found skip exclude maxSize p dirs name sz :
  filter (spec_keep skip exclude maxSize) [mkFound p dirs name sz] =
  if forallb (fun d => negb (skipDirectory d skip)) dirs &&
     file_selected exclude name && size_le sz (js_mul_1024 (js_mul_1024 maxSize))
  then [mkFound p dirs name sz] else [].
Proof.
  unfold file_selected. cbn [filter]. unfold spec_keep; cbn [found_dirs found_name found_size].
  now rewrite !andb_assoc.
Qed.

Lemma size_le_at_limit (q : Q) (sz : Z) :
  (inject_Z sz == q * 1024 * 1024)%Q ->
  size_le sz (js_mul_1024 (js_mul_1024 (JFin q))) = true.
Proof. intros H. simpl. apply Qle_bool_iff. rewrite H. apply Qle_refl. Qed.

Lemma size_le_over_limit (q : Q) (sz : Z) :
  (inject_Z sz == q * 1024 * 1024 + 1)%Q ->
  size_le sz (js_mul_1024 (js_mul_1024 (JFin q))) = false.
Proof.
  intros H. simpl. apply not_true_iff_false. rewrite Qle_bool_iff, H.
  intros Hle. apply (Qlt_not_le (q * 1024 * 1024) (q * 1024 * 1024 + 1)).
  - rewrite <- (Qplus_0_r (q * 1024 * 1024)) at 1. apply Qplus_lt_r. reflexivity.
  - exact Hle.
Qed.

(** Claim C4: for every [maxSize] of [M] MB and every file of the tree
    that passes the other filters (extensions, directories), the file is
    in the matched list, at its place in traversal order, when its size
    is exactly [M * 1024 * 1024] bytes, and left out when its size is
    one byte more; with the default [maxSize] ([Infinity]) it is in the
    list whatever its size.  The matched list is what [getDirectory]
    returns. *)
Theorem getDirectory_size_boundary (root : path) (skip exclude : list string)
    (M : Q) (w : world) (n : string) (es : list FS.entry)
    (l1 l2 : list found) (p : path) (dirs : list string) (name : string) (sz : Z) :
  lookup (w_fs w) root = inl (EDir n es) ->
  all_files root es = l1 ++ [mkFound p dirs name sz] ++ l2 ->
  forallb (fun d => negb (skipDirectory d skip)) dirs = true ->
  file_selected exclude name = true ->
  getDirectory root root skip exclude (JFin M) w =
    (Ret (map (relative root) (spec_matched skip exclude (JFin M) root es),
          spec_matched skip exclude (JFin M) root es), w) /\
  ((inject_Z sz == M * 1024 * 1024)%Q ->
   spec_matched skip exclude (JFin M) root es =
     map found_path (filter (spec_keep skip exclude (JFin M)) l1) ++ [p] ++
     map found_path (filter (spec_keep skip exclude (JFin M)) l2)) /\
  ((inject_Z sz == M * 1024 * 1024 + 1)%Q ->
   spec_matched skip exclude (JFin M) root es =
     map found_path (filter (spec_keep skip exclude (JFin M)) l1) ++
     map found_path (filter (spec_keep skip exclude (JFin M)) l2)) /\
  spec_matched skip exclude JPosInf root es =
    map found_path (filter (spec_keep skip exclude JPosInf) l1) ++ [p] ++
    map found_path (filter (spec_keep skip exclude JPosInf) l2).
Proof.
  intros Hl Hall Hd Hsel.
  split; [now apply getDirectory_spec with (n := n)|].
  unfold spec_matched. rewrite Hall, !filter_app, !map_app, !spec_keep_found, Hd, Hsel.
  split; [|split].
  - intros Hsz. rewrite (size_le_at_limit M sz Hsz). reflexivity.
  - intros Hsz. rewrite (size_le_over_limit M sz Hsz). reflexivity.
  - reflexivity.
Qed.

(** Both sides of the limit on the tree [r] holding [one.md] (1 byte)
    and [two.md] (2 bytes), with a limit of 1 byte: [one.md] is at the
    limit and kept, [two.md] is one byte over and left out. *)
Lemma getDirectory_size_boundary_witness :
  lookup (w_fs (world_of (EDir "" [EDir "r" tree_size]))) ["r"] =
    inl (EDir "r" tree_size) /\
  all_files ["r"] tree_size =
    [] ++ [mkFound ["r"; "one.md"] [] "one.md" 1] ++ [mkFound ["r"; "two.md"] [] "two.md" 2] /\
  all_files ["r"] tree_size =
    [mkFound ["r"; "one.md"] [] "one.md" 1] ++ [mkFound ["r"; "two.md"] [] "two.md" 2] ++ [] /\
  spec_matched [] [] (JFin (1 # 1048576)) ["r"] tree_size =
    map found_path (filter (spec_keep [] [] (JFin (1 # 1048576))) []) ++ [["r"; "one.md"]] ++
    map found_path (filter (spec_keep [] [] (JFin (1 # 1048576)))
                      [mkFound ["r"; "two.md"] [] "two.md" 2]) /\
  spec_matched [] [] (JFin (1 # 1048576)) ["r"] tree_size =
    map found_path (filter (spec_keep [] [] (JFin (1 # 1048576)))
                      [mkFound ["r"; "one.md"] [] "one.md" 1]) ++
    map found_path (filter (spec_keep [] [] (JFin (1 # 1048576))) []).
Proof.
  split; [reflexivity|]. split; [reflexivity|]. split; [reflexivity|]. split.
  - refine (proj1 (proj2 (getDirectory_size_boundary ["r"] [] [] (1 # 1048576)
      (world_of (EDir "" [EDir "r" tree_size])) "r" tree_size []
      [mkFound ["r"; "two.md"] [] "two.md" 2] ["r"; "one.md"] [] "one.md" 1
      eq_refl eq_refl eq_refl eq_refl)) _).
    reflexivity.
  - refine (proj1 (proj2 (proj2 (getDirectory_size_boundary ["r"] [] [] (1 # 1048576)
      (world_of (EDir "" [EDir "r" tree_size])) "r" tree_size
      [mkFound ["r"; "one.md"] [] "one.md" 1] [] ["r"; "two.md"] [] "two.md" 2
      eq_refl eq_refl eq_refl eq_refl))) _).
    reflexivity.
Defined.

Example size_boundary_values :
  getDirectory ["r"] ["r"] [] [] (JFin (1 # 1048576)) (world_of (EDir "" [EDir "r" tree_size]))
  = (Ret (["one.md"], [["r"; "one.md"]]), world_of (EDir "" [EDir "r" tree_size])).
Proof. reflexivity. Qed.

(** ** C9 *)

Lemma aligned_map root ps : aligned root (map (relative root) ps) ps.
Proof.
  split; [apply length_map|]. intros i Hi.
  rewrite nth_indep with (d' := relative root []) by now rewrite length_map.
  apply map_nth.
Qed.

Lemma select_map {A B} (g : A -> B) mask l :
  select mask (map g l) = map g (select mask l).
Proof.
  revert l; induction mask as [|b mask IH]; intros [|x l]; simpl; try reflexivity.
  destruct b; simpl; now rewrite IH.
Qed.

Lemma confirmLoop_spec files : forall i fullPaths acc w,
  List.length fullPaths = (i + List.length files)%nat ->
  exists mask w', List.length mask = List.length files /\
    confirmLoop i files fullPaths acc w =
    (Ret (fst acc ++ select mask files, snd acc ++ select mask (skipn i fullPaths)), w').
Proof.
  induction files as [|file rest IH]; intros i fullPaths acc w Hlen.
  - exists [], w. split; [reflexivity|]. destruct acc; simpl. now rewrite !app_nil_r.
  - assert (Hsk : skipn i fullPaths = nth i fullPaths [] :: skipn (S i) fullPaths).
    { revert fullPaths Hlen. induction i as [|i IHi]; intros [|x ps] Hlen;
        simpl in *; try lia; [reflexivity|]. apply IHi. lia. }
    simpl. unfold bind, prompt.
    set (w1 := match w_stdin w with
               | [] => (Ret None, w)
               | a :: r => (Ret a, mkWorld (w_fs w) (w_log w) r (w_tmp w) (w_remote w))
               end).
    assert (Hw1 : exists a w2, w1 = (Ret a, w2)).
    { unfold w1. destruct (w_stdin w); eauto. }
    destruct Hw1 as [a [w2 Hw1]]. rewrite Hw1.
    set (yes := match a with
                | Some a0 => String.eqb (Str.to_lower a0) "y"
                | None => false
                end).
    destruct (IH (S i) fullPaths
      (if yes then (fst acc ++ [file], snd acc ++ [nth i fullPaths []]) else acc) w2)
      as [mask [w' [Hm Hrun]]]; [simpl in Hlen; lia|].
    exists (yes :: mask), w'. split; [simpl; now rewrite Hm|].
    replace (match a with
             | Some a0 => if String.eqb (Str.to_lower a0) "y"
                          then (fst acc ++ [file], snd acc ++ [nth i fullPaths []])
                          else acc
             | None => acc
             end)
      with (if yes then (fst acc ++ [file], snd acc ++ [nth i fullPaths []]) else acc)
      by (unfold yes; destruct a as [a0|]; [destruct (String.eqb _ _)|]; reflexivity).
    rewrite Hrun, Hsk. destruct yes; simpl; [now rewrite <- !app_assoc|reflexivity].
Qed.

(** Claim C9: the walk returns two arrays of equal length with
    [files[i] = relative(root, fullPaths[i])] at every index; the
    interactive confirmation of [src/index.ts] keeps a subsequence of the
    pairs, chosen by one answer per index, so the kept arrays are again
    aligned.  ([writeFiles] and [analyzeOption] only read the arrays.) *)
Theorem pipeline_aligned (root : path) (skip exclude : list string)
    (maxSize : jsnum) (w : world) (n : string) (es : list FS.entry) :
  lookup (w_fs w) root = inl (EDir n es) ->
  (exists files fullPaths,
     getDirectory root root skip exclude maxSize w = (Ret (files, fullPaths), w) /\
     aligned root files fullPaths) /\
  (forall files fullPaths w1, aligned root files fullPaths ->
   exists mask w2,
     List.length mask = List.length files /\
     interactiveSelect files fullPaths w1 =
       (Ret (select mask files, select mask fullPaths), w2) /\
     aligned root (select mask files) (select mask fullPaths)).
Proof.
  intros Hl. split.
  - exists (map (relative root) (spec_matched skip exclude maxSize root es)),
      (spec_matched skip exclude maxSize root es).
    split; [now apply getDirectory_spec with (n := n)|]. apply aligned_map.
  - intros files fullPaths w1 [Hlen Hnth].
    destruct (confirmLoop_spec files 0 fullPaths ([], []) w1) as [mask [w2 [Hm Hrun]]];
      [simpl; lia|].
    exists mask, w2. split; [exact Hm|]. split; [exact Hrun|].
    assert (Hf : files = map (relative root) fullPaths).
    { apply nth_ext with (d := "") (d' := ""); [now rewrite length_map|].
      intros i Hi. rewrite Hnth by lia.
      rewrite nth_indep with (d' := relative root []) by (rewrite length_map; lia).
      now rewrite map_nth. }
    rewrite Hf, select_map. apply aligned_map.
Qed.

Lemma pipeline_aligned_witness :
  lookup (w_fs (world_of fs_B)) ["r"] = inl (EDir "r" tree_B) /\
  ((exists files fullPaths,
     getDirectory ["r"] ["r"] [] [] JPosInf (world_of fs_B) =
       (Ret (files, fullPaths), world_of fs_B) /\
     aligned ["r"] files fullPaths) /\
  (forall files fullPaths w1, aligned ["r"] files fullPaths ->
   exists mask w2,
     List.length mask = List.length files /\
     interactiveSelect files fullPaths w1 =
       (Ret (select mask files, select mask fullPaths), w2) /\
     aligned ["r"] (select mask files) (select mask fullPaths))).
Proof.
  split; [reflexivity|].
  apply (pipeline_aligned ["r"] [] [] JPosInf (world_of fs_B) "r" tree_B).
  reflexivity.
Defined.

Example interactive_example :
  interactiveSelect ["a.md"; "b.txt"; "skip/c.md"]
    [["r"; "a.md"]; ["r"; "b.txt"]; ["r"; "skip"; "c.md"]]
    (mkWorld fs_B [] [Some "Y"; Some "n"; Some "y"] 0 []) =
  (Ret (["a.md"; "skip/c.md"], [["r"; "a.md"]; ["r"; "skip"; "c.md"]]),
   mkWorld fs_B [] [] 0 []).
Proof. reflexivity. Qed.

(** ** C10 *)

Lemma files_of_name e : forall cur dirs f,
  In f (files_of cur dirs e) -> exists d, found_path f = d ++ [found_name f].
Proof.
  induction e as [n c|n ch IH] using entry_ind'; intros cur dirs f Hin.
  - simpl in Hin. destruct Hin as [<-|[]]. now exists cur.
  - rewrite files_of_dir in Hin. apply in_flat_map in Hin as [x [Hx Hf]].
    rewrite Forall_forall in IH. exact (IH x Hx _ _ _ Hf).
Qed.

Lemma file_selected_excluded exclude name e :
  In e exclude -> Str.ends_with name e = true -> file_selected exclude name = false.
Proof.
  intros He Hend. unfold file_selected.
  assert (Hex : existsb (Str.ends_with name) exclude = true)
    by (apply existsb_exists; now exists e).
  rewrite Hex. apply andb_false_r.
Qed.

(** Claim C10: both extension tests are raw suffix tests on the whole
    entry name.  A name that ends with the characters of an entry [e] of
    [exclude] is never selected, whether or not [e] follows a dot in it,
    so no file of the matched list has a name ending with [e]; every
    file of the list has a name ending with [.md], [.mdx], [.txt] or
    [.rst]. *)
Theorem extension_tests_raw_suffix (root : path) (skip exclude : list string)
    (maxSize : jsnum) (w : world) (n : string) (es : list FS.entry) :
  lookup (w_fs w) root = inl (EDir n es) ->
  (forall name e, In e exclude -> Str.ends_with name e = true ->
     file_selected exclude name = false) /\
  getDirectory root root skip exclude maxSize w =
    (Ret (map (relative root) (spec_matched skip exclude maxSize root es),
          spec_matched skip exclude maxSize root es), w) /\
  (forall p, In p (spec_matched skip exclude maxSize root es) ->
   exists d name, p = d ++ [name] /\
     existsb (Str.ends_with name) SUPPORTED_EXTENSIONS = true /\
     forall e, In e exclude -> Str.ends_with name e = false).
Proof.
  intros Hl. split; [exact (file_selected_excluded exclude)|].
  split; [now apply getDirectory_spec with (n := n)|].
  intros p Hp. unfold spec_matched, all_files in Hp.
  apply in_map_iff in Hp as [f [<- Hf]]. apply filter_In in Hf as [Hf Hk].
  apply in_flat_map in Hf as [x [_ Hf]].
  destruct (files_of_name x _ _ _ Hf) as [d Hd].
  exists d, (found_name f). split; [exact Hd|].
  unfold spec_keep in Hk. apply andb_prop in Hk as [Hk _].
  apply andb_prop in Hk as [Hk Hnex]. apply andb_prop in Hk as [_ Hsup].
  split; [exact Hsup|].
  intros e He. destruct (Str.ends_with (found_name f) e) eqn:E; [|reflexivity].
  exfalso. apply negb_true_iff in Hnex.
  assert (existsb (Str.ends_with (found_name f)) exclude = true)
    by (apply existsb_exists; now exists e).
  congruence.
Qed.

Lemma extension_tests_raw_suffix_witness :
  lookup (w_fs (world_of fs_B)) ["r"] = inl (EDir "r" tree_B) /\
  ((forall name e, In e ["d"] -> Str.ends_with name e = true ->
     file_selected ["d"] name = false) /\
  getDirectory ["r"] ["r"] [] ["d"] JPosInf (world_of fs_B) =
    (Ret (map (relative ["r"]) (spec_matched [] ["d"] JPosInf ["r"] tree_B),
          spec_matched [] ["d"] JPosInf ["r"] tree_B), world_of fs_B) /\
  (forall p, In p (spec_matched [] ["d"] JPosInf ["r"] tree_B) ->
   exists d name, p = d ++ [name] /\
     existsb (Str.ends_with name) SUPPORTED_EXTENSIONS = true /\
     forall e, In e ["d"] -> Str.ends_with name e = false)).
Proof.
  split; [reflexivity|].
  apply (extension_tests_raw_suffix ["r"] [] ["d"] JPosInf (world_of fs_B) "r" tree_B).
  reflexivity.
Defined.

(** An exclude entry without a dot: ["d"] drops [a.md], ["txt"] drops
    [notes.mytxt] (which [.txt] does not select in the first place). *)
Example raw_suffix_examples :
  file_selected ["d"] "a.md" = false /\ file_selected [] "a.md" = true /\
  file_selected ["txt"] "notes.mytxt" = false /\
  getDirectory ["r"] ["r"] [] ["d"] JPosInf (world_of fs_B) =
    (Ret (["b.txt"], [["r"; "b.txt"]]), world_of fs_B).
Proof. repeat split; reflexivity. Qed.

(** ** Reading after writing *)

Lemma find_child_replace_same m c0 c' ch :
  ename c' = m ->
  find_child m ch = Some c0 -> find_child m (replace_child m c' ch) = Some c'.
Proof.
  intros Hn. induction ch as [|x ch IH]; cbn [find_child replace_child];
    [discriminate|].
  destruct (String.eqb (ename x) m) eqn:E; cbn [find_child];
    [now rewrite Hn, String.eqb_refl|].
  rewrite E. exact IH.
Qed.

Lemma find_child_replace_other m m2 c' ch :
  find_child m ch <> None -> ename c' = m -> m2 <> m ->
  find_child m2 (replace_child m c' ch) = find_child m2 ch.
Proof.
  intros Hsome Hn Hne. induction ch as [|x ch IH]; simpl; [reflexivity|].
  simpl in Hsome.
  destruct (String.eqb (ename x) m) eqn:E; simpl.
  - apply String.eqb_eq in E.
    rewrite Hn. destruct (String.eqb m m2) eqn:E2.
    + apply String.eqb_eq in E2. congruence.
    + rewrite E. destruct (String.eqb m m2); [discriminate|reflexivity].
  - destruct (String.eqb (ename x) m2); [reflexivity|]. now apply IH.
Qed.

Lemma find_child_app_some m x ch l :
  find_child m ch = Some x -> find_child m (ch ++ l) = Some x.
Proof.
  induction ch as [|y ch IH]; simpl; [discriminate|].
  destruct (String.eqb (ename y) m); [trivial|exact IH].
Qed.

Lemma find_child_app_new m s ch :
  find_child m ch = None -> find_child m (ch ++ [EFile m s]) = Some (EFile m s).
Proof.
  induction ch as [|y ch IH]; simpl; [now rewrite String.eqb_refl|].
  destruct (String.eqb (ename y) m); [discriminate|exact IH].
Qed.

Lemma write_text_name e p s e' : write_text e p s = inl e' -> ename e' = ename e.
Proof.
  destruct p as [|m p], e as [n c|n ch]; simpl; try discriminate.
  - now intros [= <-].
  - destruct (find_child m ch); [destruct (write_text _ p s)|destruct p];
      try discriminate; now intros [= <-].
Qed.

Lemma find_child_name m ch c : find_child m ch = Some c -> ename c = m.
Proof.
  induction ch as [|x ch IH]; simpl; [discriminate|].
  destruct (String.eqb (ename x) m) eqn:E; [|exact IH].
  intros [= <-]. now apply String.eqb_eq.
Qed.

(** [writeTextFile(p, s)] followed by [readTextFile(p)] gives [s]. *)
Lemma write_read_same p : forall e s e',
  write_text e p s = inl e' -> read_text e' p = inl s.
Proof.
  induction p as [|m p IH]; intros e s e' Hw.
  - destruct e; simpl in Hw; [|discriminate]. injection Hw as <-. reflexivity.
  - destruct e as [n c|n ch]; simpl in Hw; [discriminate|].
    destruct (find_child m ch) as [c0|] eqn:Hf.
    + destruct (write_text c0 p s) as [c0'|] eqn:Hw0; [|discriminate].
      injection Hw as <-. unfold read_text; simpl.
      rewrite (find_child_replace_same m c0 c0' ch) by
        (try exact Hf; rewrite (write_text_name _ _ _ _ Hw0);
         now apply find_child_name in Hf).
      exact (IH c0 s c0' Hw0).
    + destruct p as [|? ?]; [|discriminate]. injection Hw as <-.
      unfold read_text; simpl. now rewrite find_child_app_new.
Qed.

(** Writing [q] leaves every other readable file as it was. *)
Lemma write_read_other q : forall e s e' p c,
  write_text e q s = inl e' -> read_text e p = inl c -> p <> q ->
  read_text e' p = inl c.
Proof.
  induction q as [|m q IH]; intros e s e' p c Hw Hr Hne.
  - destruct e; simpl in Hw; [|discriminate].
    destruct p; [congruence|]. unfold read_text in Hr; simpl in Hr. discriminate.
  - destruct e as [n ch0|n ch]; simpl in Hw; [discriminate|].
    destruct p as [|m2 p]; [unfold read_text in Hr; simpl in Hr; discriminate|].
    unfold read_text in Hr |- *; simpl in Hr.
    destruct (find_child m ch) as [c0|] eqn:Hf.
    + destruct (write_text c0 q s) as [c0'|] eqn:Hw0; [|discriminate].
      injection Hw as <-. simpl.
      destruct (String.eqb m2 m) eqn:Em.
      * apply String.eqb_eq in Em; subst m2.
        rewrite (find_child_replace_same m c0 c0' ch) by
          (try exact Hf; rewrite (write_text_name _ _ _ _ Hw0);
           now apply find_child_name in Hf).
        rewrite Hf in Hr.
        apply (IH c0 s c0' p c Hw0); [exact Hr|congruence].
      * apply String.eqb_neq in Em.
        rewrite find_child_replace_other; [exact Hr|congruence| |exact Em].
        rewrite (write_text_name _ _ _ _ Hw0). now apply find_child_name in Hf.
    + destruct q as [|? ?]; [|discriminate]. injection Hw as <-. simpl.
      destruct (find_child m2 ch) as [x|] eqn:Hx; [|discriminate].
      now rewrite (find_child_app_some m2 x ch _ Hx).
Qed.

Lemma bind_ret_inv {A B} (m : M A) (k : A -> M B) w b w' :
  bind m k w = (Ret b, w') ->
  exists a w1, m w = (Ret a, w1) /\ k a w1 = (Ret b, w').
Proof.
  unfold bind. destruct (m w) as [[a|e|c] w1]; try discriminate.
  intros H. now exists a, w1.
Qed.

Lemma mapM_readTextFile ps : forall w cs w',
  mapM readTextFile ps w = (Ret cs, w') ->
  w' = w /\ Forall2 (fun p c => read_text (w_fs w) p = inl c) ps cs.
Proof.
  induction ps as [|p ps IH]; intros w cs w' H.
  - cbv [mapM ret] in H. injection H as <- <-. split; [reflexivity|constructor].
  - cbn [mapM] in H.
    apply bind_ret_inv in H as [c [w1 [Hr H]]].
    apply bind_ret_inv in H as [cs' [w2 [Hm H]]].
    cbv [ret] in H. injection H as <- <-.
    unfold readTextFile, fs_read in Hr.
    destruct (read_text (w_fs w) p) as [c'|e] eqn:Hrt; [|discriminate].
    injection Hr as <- <-.
    destruct (IH w cs' w2 Hm) as [-> HF]. split; [reflexivity|]. now constructor.
Qed.

Lemma copy_read_other root src dst root' p c :
  copy_file root src dst = inl root' -> read_text root p = inl c -> p <> dst ->
  read_text root' p = inl c.
Proof.
  unfold copy_file. destruct (read_text root src) as [c0|e]; [|discriminate].
  intros Hw Hr Hne. exact (write_read_other dst root c0 root' p c Hw Hr Hne).
Qed.

(** A backup block that completes leaves the tree as it was (no
    previous output) or copies the output to its [.bak] path. *)
Lemma backupOne_ok p w w' :
  backupOne p w = (Ret tt, w') ->
  w_fs w' = w_fs w \/ copy_file (w_fs w) p (backup_path p) = inl (w_fs w').
Proof.
  unfold backupOne, catch.
  destruct (bind (stat p) _ w) as [[[]|e|k] w1] eqn:Hb.
  - intros [= <-]. right.
    apply bind_ret_inv in Hb as [st [w2 [Hs Hb]]].
    unfold stat, fs_read in Hs. destruct (lookup (w_fs w) p); [|discriminate].
    injection Hs as <- <-.
    apply bind_ret_inv in Hb as [[] [w3 [Hc Hl]]].
    unfold copyFile, fs_update in Hc.
    destruct (copy_file (w_fs w) p (backup_path p)) as [fs'|err] eqn:Hcp; [|discriminate].
    injection Hc as <-. unfold log in Hl. injection Hl as <-. reflexivity.
  - destruct e; try (unfold throw; discriminate).
    unfold ret. intros [= <-]. left.
    (* the tree is unchanged when [stat] or [copyFile] fails *)
    unfold bind, stat, fs_read in Hb. destruct (lookup (w_fs w) p) as [st|e].
    + unfold copyFile, fs_update in Hb.
      destruct (copy_file (w_fs w) p (backup_path p)); [discriminate|].
      now injection Hb as _ <-.
    + now injection Hb as _ <-.
  - discriminate.
Qed.

(** The steps of a completed [writeFiles]. *)
Lemma writeFiles_ok llmsFile llmsFullFile files ps outputDir backup w w' :
  writeFiles llmsFile llmsFullFile files ps outputDir backup w = (Ret tt, w') ->
  let lp := output_path outputDir llmsFile in
  let fp := output_path outputDir llmsFullFile in
  exists w0 fs1 cs,
    (if backup then backupOne lp ;;; backupOne fp else ret tt) w = (Ret tt, w0) /\
    write_text (w_fs w0) lp (llms_text lp files) = inl fs1 /\
    Forall2 (fun p c => read_text fs1 p = inl c) ps cs /\
    write_text fs1 fp (llms_full_text cs) = inl (w_fs w').
Proof.
  intros H lp fp. unfold writeFiles in H.
  apply bind_ret_inv in H as [[] [w0 [Hb H]]].
  apply bind_ret_inv in H as [[] [w1 [Hl H]]].
  apply bind_ret_inv in H as [cs [w2 [Hm H]]].
  apply bind_ret_inv in H as [[] [w3 [Hf H]]].
  unfold log in H. injection H as <-.
  unfold writeTextFile, fs_update in Hl, Hf.
  destruct (write_text (w_fs w0) _ _) as [fs1|e] eqn:Hw1; [|discriminate].
  injection Hl as <-.
  apply mapM_readTextFile in Hm as [-> HF].
  destruct (write_text _ _ (llms_full_text cs)) as [fs2|e] eqn:Hw2; [|discriminate].
  injection Hf as <-.
  exists w0, fs1, cs. split; [exact Hb|]. split; [exact Hw1|]. split; [exact HF|].
  exact Hw2.
Qed.

Lemma backupOne_read p w w' q c :
  backupOne p w = (Ret tt, w') -> read_text (w_fs w) q = inl c ->
  q <> backup_path p -> read_text (w_fs w') q = inl c.
Proof.
  intros Hb Hr Hne. destruct (backupOne_ok p w w' Hb) as [-> | Hc]; [exact Hr|].
  exact (copy_read_other _ _ _ _ _ _ Hc Hr Hne).
Qed.

Lemma backup_step_read (backup : bool) lp fp w w0 q c :
  (if backup then backupOne lp ;;; backupOne fp else ret tt) w = (Ret tt, w0) ->
  read_text (w_fs w) q = inl c -> q <> backup_path lp -> q <> backup_path fp ->
  read_text (w_fs w0) q = inl c.
Proof.
  intros Hb Hr H1 H2. destruct backup.
  - apply bind_ret_inv in Hb as [[] [w1 [Hb1 Hb2]]].
    exact (backupOne_read _ _ _ _ _ Hb2 (backupOne_read _ _ _ _ _ Hb1 Hr H1) H2).
  - cbv [ret] in Hb. injection Hb as <-. exact Hr.
Qed.

(** ** C3 *)

(** Claim C3: when [writeFiles] completes, the full-content file holds
    exactly the contents read from the matched files, in the order of
    [fullPaths], joined by ["\n\n"] (a blank line), whatever it held
    before: the file is truncated and rewritten.  Each content is the
    text the file had when [writeFiles] started, except for the
    link-index file itself, which has just been rewritten (and for the
    [.bak] paths of the backup step).  The link-index file, when it is
    a different path, likewise holds exactly the new link index. *)
Theorem writeFiles_full_content (llmsFile llmsFullFile : string)
    (files : list string) (fullPaths : list path) (outputDir : string)
    (backup : bool) (w w' : world) :
  writeFiles llmsFile llmsFullFile files fullPaths outputDir backup w = (Ret tt, w') ->
  exists contents,
    read_text (w_fs w') (output_path outputDir llmsFullFile) =
      inl (String.concat (nl ++ nl) contents) /\
    Forall2 (fun p c =>
      (p = output_path outputDir llmsFile ->
         c = llms_text (output_path outputDir llmsFile) files) /\
      (forall c0, read_text (w_fs w) p = inl c0 ->
         p <> output_path outputDir llmsFile ->
         p <> backup_path (output_path outputDir llmsFile) ->
         p <> backup_path (output_path outputDir llmsFullFile) -> c = c0))
      fullPaths contents /\
    (output_path outputDir llmsFile <> output_path outputDir llmsFullFile ->
     read_text (w_fs w') (output_path outputDir llmsFile) =
       inl (llms_text (output_path outputDir llmsFile) files)).
Proof.
  intros H.
  destruct (writeFiles_ok _ _ _ _ _ _ _ _ H) as [w0 [fs1 [cs [Hb [Hw1 [HF Hw2]]]]]].
  exists cs. split; [exact (write_read_same _ _ _ _ Hw2)|]. split.
  - refine (Forall2_impl _ _ HF). intros p c Hpc. split.
    + intros ->. rewrite (write_read_same _ _ _ _ Hw1) in Hpc. now injection Hpc.
    + intros c0 H0 Hnl Hb1 Hb2.
      pose proof (backup_step_read _ _ _ _ _ _ _ Hb H0 Hb1 Hb2) as H0'.
      rewrite (write_read_other _ _ _ _ _ _ Hw1 H0' Hnl) in Hpc. now injection Hpc.
  - intros Hne. apply (write_read_other _ _ _ _ _ _ Hw2); [|exact Hne].
    exact (write_read_same _ _ _ _ Hw1).
Qed.

Lemma writeFiles_full_content_witness :
  writeFiles "llms.txt" "llms-full.txt" ["a.md"; "b.txt"] [["r"; "a.md"]; ["r"; "b.txt"]]
    "out" false (world_of fs_B) =
    (Ret tt, snd (writeFiles "llms.txt" "llms-full.txt" ["a.md"; "b.txt"]
                   [["r"; "a.md"]; ["r"; "b.txt"]] "out" false (world_of fs_B))) /\
  exists contents,
    read_text (w_fs (snd (writeFiles "llms.txt" "llms-full.txt" ["a.md"; "b.txt"]
                   [["r"; "a.md"]; ["r"; "b.txt"]] "out" false (world_of fs_B))))
      (output_path "out" "llms-full.txt") = inl (String.concat (nl ++ nl) contents) /\
    Forall2 (fun p c =>
      (p = output_path "out" "llms.txt" ->
         c = llms_text (output_path "out" "llms.txt") ["a.md"; "b.txt"]) /\
      (forall c0, read_text (w_fs (world_of fs_B)) p = inl c0 ->
         p <> output_path "out" "llms.txt" ->
         p <> backup_path (output_path "out" "llms.txt") ->
         p <> backup_path (output_path "out" "llms-full.txt") -> c = c0))
      [["r"; "a.md"]; ["r"; "b.txt"]] contents /\
    (output_path "out" "llms.txt" <> output_path "out" "llms-full.txt" ->
     read_text (w_fs (snd (writeFiles "llms.txt" "llms-full.txt" ["a.md"; "b.txt"]
                   [["r"; "a.md"]; ["r"; "b.txt"]] "out" false (world_of fs_B))))
       (output_path "out" "llms.txt") =
       inl (llms_text (output_path "out" "llms.txt") ["a.md"; "b.txt"])).
Proof.
  split; [reflexivity|].
  apply (writeFiles_full_content "llms.txt" "llms-full.txt" ["a.md"; "b.txt"]
           [["r"; "a.md"]; ["r"; "b.txt"]] "out" false (world_of fs_B)).
  reflexivity.
Defined.

(** Spec scenario A: one 20-byte [docs/guide.md] and a picture; the
    full-content file is exactly the 20 bytes, whatever it held before. *)
Example scenario_A :
  let fs := EDir "" [EDir "r" [EDir "docs" [EFile "guide.md" "twenty bytes of text";
                                           EDir "img" [EFile "diagram.png" "PNG"]]];
                     EDir "out" [EFile "llms-full.txt" "stale content"]] in
  exists w',
    main (local_config "r") (world_of fs) = (Ret tt, w') /\
    read_text (w_fs w') ["out"; "llms-full.txt"] = inl "twenty bytes of text" /\
    read_text (w_fs w') ["out"; "llms.txt"] =
      inl ("# llms" ++ nl ++ nl ++ "- [guide.md](docs/guide.md)")%string.
Proof. eexists. split; [reflexivity|]. split; reflexivity. Qed.

(** ** A run from a local directory *)

Lemma string_app_assoc (a b c : string) : ((a ++ b) ++ c = a ++ (b ++ c))%string.
Proof. induction a as [|x a IH]; simpl; [reflexivity|now rewrite IH]. Qed.

Lemma catch_ret_inv {A} (m : M A) h w a w' :
  catch m h w = (Ret a, w') ->
  m w = (Ret a, w') \/ exists e w1, m w = (Thrown e, w1) /\ h e w1 = (Ret a, w').
Proof.
  unfold catch. destruct (m w) as [[b|e|c] w1]; intros H.
  - left. exact H.
  - right. now exists e, w1.
  - discriminate.
Qed.

(** ** C2 *)

(** Counterexample to C2 as stated: over the local directory [myrepo]
    the heading is [# llms], taken from the name [llms.txt], not from
    the directory. *)
Lemma link_index_heading_not_repo_name :
  exists w',
    main (local_config "myrepo")
      (world_of (EDir "" [EDir "myrepo" [EFile "a.md" "x"]; EDir "out" []])) =
      (Ret tt, w') /\
    read_text (w_fs w') ["out"; "llms.txt"] =
      inl ("# llms" ++ nl ++ nl ++ "- [a.md](a.md)")%string.
Proof. eexists. split; reflexivity. Qed.

(** ** C5 *)

(** Claim C5 (code bug): [analyzeOption] counts words as
    [content.split(/\s+/).length], and a file that ends with a newline
    gives one more, empty, piece.  Over the two files of 10 and 20 words
    of spec scenario D, each ending with a newline, the run reports 32
    words instead of 30; it reports 2 files, 1 folder and an average
    size of 0.03 KB (30 bytes), and exits with code 0 having written
    nothing. *)
Theorem analyze_word_count_trailing_newline :
  main (analyze_config "r") (world_of fs_D) =
    (Exited 0, mkWorld fs_D [LAnalysis 1%Z 2%Z 32%Z (FixedDigits 3%Z)] [] 0 []) /\
  (spec_word_count (words_text 10) + spec_word_count (words_text 20) = 30)%nat.
Proof. split; vm_compute; reflexivity. Qed.

(** ** C6 *)

Lemma bind_ret_eq {A B} (m : M A) (k : A -> M B) w a w1 :
  m w = (Ret a, w1) -> bind m k w = k a w1.
Proof. intros H. unfold bind. now rewrite H. Qed.

Lemma bind_exited_eq {A B} (m : M A) (k : A -> M B) w c w1 :
  m w = (Exited c, w1) -> bind m k w = (Exited c, w1).
Proof. intros H. unfold bind. now rewrite H. Qed.

Lemma previewStep_declined config files w :
  preview config = true -> declines (w_stdin w) = true ->
  exists w', previewStep config files w = (Exited 0, w') /\ w_fs w' = w_fs w.
Proof.
  intros Hp Hd. unfold previewStep. rewrite Hp.
  unfold previewOption, bind, log, prompt. cbn [w_stdin w_fs].
  destruct (w_stdin w) as [|[a|] rest]; cbn [declines] in Hd.
  - eexists. split; reflexivity.
  - apply negb_true_iff in Hd. rewrite Hd. eexists. split; reflexivity.
  - eexists. split; reflexivity.
Qed.

Lemma locateSource_local config w root w1 :
  githubUrl config = None -> gitlabUrl config = None ->
  locateSource config w = (Ret root, w1) -> w1 = w.
Proof.
  intros Hgh Hgl H. unfold locateSource in H. rewrite Hgh, Hgl in H.
  cbn [truthy] in H. now injection H as _ <-.
Qed.

(** A declined preview: when the operator does not answer [y] or [Y]
    (or there is no answer), the run exits with code 0 and the file
    system is as it was once the source was located: unchanged for a
    local directory; for a GitHub or GitLab source the clone's temporary
    directory is left in place. *)
Lemma preview_declined_run (config : Config.config) (w w1 : world)
    (root : path) (n : string) (es : list FS.entry) :
  (truthy (localDir config) || truthy (githubUrl config) ||
   truthy (gitlabUrl config)) = true ->
  preview config = true ->
  locateSource config w = (Ret root, w1) ->
  lookup (w_fs w1) root = inl (EDir n es) ->
  declines (w_stdin w1) = true ->
  exists w',
    main config w = (Exited 0, w') /\ w_fs w' = w_fs w1 /\
    (githubUrl config = None -> gitlabUrl config = None -> w_fs w' = w_fs w).
Proof.
  intros Hor Hp Hsrc Hl Hd.
  destruct (previewStep_declined config
              (map (relative root) (spec_matched (skip config) (exclude config)
                                      (maxSize config) root es)) w1 Hp Hd)
    as [w' [Hps Hfs]].
  exists w'. split; [|split; [exact Hfs|]].
  - unfold main. rewrite Hor. cbn [negb]. unfold catch, pipeline.
    rewrite (bind_ret_eq _ _ _ _ _ Hsrc).
    rewrite (bind_ret_eq _ _ _ _ _ (getDirectory_spec _ _ _ _ _ _ _ Hl)).
    cbv beta iota. now rewrite (bind_exited_eq _ _ _ _ _ Hps).
  - intros Hgh Hgl. rewrite Hfs. now rewrite (locateSource_local _ _ _ _ Hgh Hgl Hsrc).
Qed.

(** Counterexample to C6 as stated: in preview mode, on the answer [y]
    the run writes [out/llms.txt], which did not exist. *)
Lemma preview_confirmed_writes :
  read_text fs_B ["out"; "llms.txt"] = inr NotFound /\
  exists w',
    main (preview_config "r") (mkWorld fs_B [] [Some "y"] 0 []) = (Ret tt, w') /\
    read_text (w_fs w') ["out"; "llms.txt"] =
      inl ("# llms" ++ nl ++ nl ++ "- [a.md](a.md)" ++ nl ++ "- [b.txt](b.txt)" ++ nl ++
           "- [c.md](skip/c.md)")%string.
Proof. split; [reflexivity|]. eexists. split; reflexivity. Qed.

(** ** C8 *)

(** Claim C8: with [backup], [writeFiles] first runs the backup block of
    the link-index path, then that of the full-content path, and only
    then does what it does without [backup].  A backup block
    - does nothing when there is no output file yet ([NotFound]);
    - otherwise copies the output file to its [.bak] sibling, leaving
      every other file as it was;
    - and raises any other error of [stat] or [copyFile], with nothing
      changed; [main] turns a raised error into exit code 1. *)
Theorem backup_then_write (llmsFile llmsFullFile : string) (files : list string)
    (fullPaths : list path) (outputDir : string) :
  (forall w,
     writeFiles llmsFile llmsFullFile files fullPaths outputDir true w =
     (backupOne (output_path outputDir llmsFile) ;;;
      backupOne (output_path outputDir llmsFullFile) ;;;
      writeFiles llmsFile llmsFullFile files fullPaths outputDir false) w) /\
  (forall p w, lookup (w_fs w) p = inr NotFound -> backupOne p w = (Ret tt, w)) /\
  (forall p w c fs',
     read_text (w_fs w) p = inl c -> copy_file (w_fs w) p (backup_path p) = inl fs' ->
     exists w1, backupOne p w = (Ret tt, w1) /\ w_fs w1 = fs' /\
       read_text fs' (backup_path p) = inl c /\
       (forall q c', q <> backup_path p -> read_text (w_fs w) q = inl c' ->
          read_text fs' q = inl c')) /\
  (forall p w e, lookup (w_fs w) p = inr e -> e <> NotFound ->
     backupOne p w = (Thrown e, w)) /\
  (forall p w st e, lookup (w_fs w) p = inl st ->
     copy_file (w_fs w) p (backup_path p) = inr e -> e <> NotFound ->
     backupOne p w = (Thrown e, w)) /\
  (forall config w e w1,
     (truthy (localDir config) || truthy (githubUrl config) ||
      truthy (gitlabUrl config)) = true ->
     pipeline config w = (Thrown e, w1) ->
     main config w = (Exited 1, mkWorld (w_fs w1) (w_log w1 ++ [LError e])
                                  (w_stdin w1) (w_tmp w1) (w_remote w1))).
Proof.
  split; [|split; [|split; [|split; [|split]]]].
  - intros w. unfold writeFiles at 1. cbv [bind].
    destruct (backupOne (output_path outputDir llmsFile) w) as [[[]|e|c] w1];
      [destruct (backupOne (output_path outputDir llmsFullFile) w1) as [[[]|e|c] w2]|..];
      reflexivity.
  - intros p w Hl. unfold backupOne, catch, bind, stat, fs_read. now rewrite Hl.
  - intros p w c fs' Hr Hc.
    assert (Hl : exists st, lookup (w_fs w) p = inl st).
    { unfold read_text in Hr. destruct (lookup (w_fs w) p) as [st|]; [now exists st|].
      discriminate. }
    destruct Hl as [st Hl].
    eexists. split.
    + unfold backupOne, catch, bind, stat, fs_read, copyFile, fs_update, log.
      rewrite Hl, Hc. reflexivity.
    + split; [reflexivity|]. unfold copy_file in Hc. rewrite Hr in Hc. split.
      * exact (write_read_same _ _ _ _ Hc).
      * intros q c' Hne Hq. exact (write_read_other _ _ _ _ _ _ Hc Hq Hne).
  - intros p w e Hl Hne. unfold backupOne, catch, bind, stat, fs_read. rewrite Hl.
    destruct e; try reflexivity. contradiction.
  - intros p w st e Hl Hc Hne.
    unfold backupOne, catch, bind, stat, fs_read, copyFile, fs_update. rewrite Hl, Hc.
    destruct e; try reflexivity. contradiction.
  - intros config w e w1 Hor Hp. unfold main. rewrite Hor. cbn [negb].
    unfold catch. rewrite Hp. reflexivity.
Qed.

Lemma backup_then_write_witness :
  (forall w,
     writeFiles "llms.txt" "llms-full.txt" ["a.md"] [["r"; "a.md"]] "out" true w =
     (backupOne (output_path "out" "llms.txt") ;;;
      backupOne (output_path "out" "llms-full.txt") ;;;
      writeFiles "llms.txt" "llms-full.txt" ["a.md"] [["r"; "a.md"]] "out" false) w) /\
  (forall p w, lookup (w_fs w) p = inr NotFound -> backupOne p w = (Ret tt, w)) /\
  (forall p w c fs',
     read_text (w_fs w) p = inl c -> copy_file (w_fs w) p (backup_path p) = inl fs' ->
     exists w1, backupOne p w = (Ret tt, w1) /\ w_fs w1 = fs' /\
       read_text fs' (backup_path p) = inl c /\
       (forall q c', q <> backup_path p -> read_text (w_fs w) q = inl c' ->
          read_text fs' q = inl c')) /\
  (forall p w e, lookup (w_fs w) p = inr e -> e <> NotFound ->
     backupOne p w = (Thrown e, w)) /\
  (forall p w st e, lookup (w_fs w) p = inl st ->
     copy_file (w_fs w) p (backup_path p) = inr e -> e <> NotFound ->
     backupOne p w = (Thrown e, w)) /\
  (forall config w e w1,
     (truthy (localDir config) || truthy (githubUrl config) ||
      truthy (gitlabUrl config)) = true ->
     pipeline config w = (Thrown e, w1) ->
     main config w = (Exited 1, mkWorld (w_fs w1) (w_log w1 ++ [LError e])
                                  (w_stdin w1) (w_tmp w1) (w_remote w1))).
Proof.
  exact (backup_then_write "llms.txt" "llms-full.txt" ["a.md"] [["r"; "a.md"]] "out").
Defined.

(** The backups at work: an existing [llms.txt] is saved to
    [llms.txt.bak]; a missing [llms-full.txt] is not backed up. *)
Example backup_example :
  exists w',
    writeFiles "llms.txt" "llms-full.txt" ["a.md"] [["r"; "a.md"]] "out" true
      (world_of (EDir "" [EDir "r" [EFile "a.md" "A"]; EDir "out" [EFile "llms.txt" "old"]]))
    = (Ret tt, w') /\
    read_text (w_fs w') ["out"; "llms.txt.bak"] = inl "old" /\
    read_text (w_fs w') ["out"; "llms-full.txt.bak"] = inr NotFound /\
    read_text (w_fs w') ["out"; "llms-full.txt"] = inl "A".
Proof. eexists. split; [reflexivity|]. split; [reflexivity|]. split; reflexivity. Qed.

(** A backup error other than [NotFound] ends the run with code 1 before
    anything is written: here the output directory is a file. *)
Example backup_error_example :
  let fs := EDir "" [EDir "r" [EFile "a.md" "A"]] in
  main (Config.mkConfig (Some "r") "llms.txt" "llms-full.txt" "txt" [] [] DEFAULT_BRANCH
          "r/a.md" None None false false false JPosInf true) (world_of fs) =
  (Exited 1, mkWorld fs [LError NotADirectory] [] 0 []).
Proof. reflexivity. Qed.

(** ** Paths of matched files and of backups *)

Lemma list_ascii_of_string_app (s t : string) :
  list_ascii_of_string (s ++ t) = list_ascii_of_string s ++ list_ascii_of_string t.
Proof. induction s as [|a s IH]; simpl; [reflexivity|now rewrite IH]. Qed.

Lemma split_chars_nosep c t :
  (forall a, In a t -> Ascii.eqb a c = false) -> Str.split_chars c t = [t].
Proof.
  induction t as [|a t IH]; intros H; [reflexivity|].
  cbn [Str.split_chars]. rewrite (H a (or_introl eq_refl)).
  rewrite IH; [reflexivity|]. intros b Hb. apply H. now right.
Qed.

Lemma split_chars_last c l t :
  (forall a, In a t -> Ascii.eqb a c = false) ->
  exists pre x, Str.split_chars c (l ++ t) = pre ++ [x ++ t].
Proof.
  intros Ht. induction l as [|a l IH].
  - exists [], []. simpl. now apply split_chars_nosep.
  - destruct IH as [pre [x IH]]. cbn [app Str.split_chars]. rewrite IH.
    destruct (Ascii.eqb a c).
    + now exists ([] :: pre), x.
    + destruct pre as [|p0 pre].
      * now exists [], (a :: x).
      * now exists ((a :: p0) :: pre), x.
Qed.

Lemma norm_acc_last l : forall acc y,
  String.eqb y "" = false -> String.eqb y "." = false -> String.eqb y ".." = false ->
  exists acc', norm_acc acc (l ++ [y]) = rev acc' ++ [y].
Proof.
  induction l as [|z l IH]; intros acc y H1 H2 H3.
  - cbn [app norm_acc]. rewrite H1, H2, H3. cbn [orb]. now exists acc.
  - cbn [app norm_acc].
    destruct (String.eqb z "" || String.eqb z "."); [now apply IH|].
    destruct (String.eqb z ".."); [|now apply IH].
    destruct acc as [|a acc]; [now apply IH|].
    destruct (String.eqb a ".."); now apply IH.
Qed.

Lemma ends_with_bak_regular y :
  Str.ends_with y ".bak" = true ->
  String.eqb y "" = false /\ String.eqb y "." = false /\ String.eqb y ".." = false.
Proof.
  intros H. repeat split; apply String.eqb_neq; intros ->; discriminate H.
Qed.

(** A backup path ends with a segment that ends with [.bak]. *)
Lemma backup_path_last q :
  exists pre y, backup_path q = pre ++ [y] /\ Str.ends_with y ".bak" = true.
Proof.
  unfold backup_path, of_string, Str.split.
  rewrite list_ascii_of_string_app.
  destruct (split_chars_last "/"%char (list_ascii_of_string (render q))
              (list_ascii_of_string ".bak")) as [pre [x Hs]];
    [intros a Ha; simpl in Ha; intuition (subst; reflexivity)|].
  rewrite Hs, map_app. cbn [map].
  set (y := string_of_list_ascii (x ++ list_ascii_of_string ".bak")).
  assert (Hy : Str.ends_with y ".bak" = true).
  { unfold y, Str.ends_with. rewrite list_ascii_of_string_of_list_ascii, rev_app_distr.
    cbn. reflexivity. }
  destruct (ends_with_bak_regular y Hy) as [H1 [H2 H3]].
  destruct (norm_acc_last (map string_of_list_ascii pre) [] y H1 H2 H3) as [acc' ->].
  now exists (rev acc'), y.
Qed.

Lemma bak_not_supported y :
  Str.ends_with y ".bak" = true ->
  existsb (Str.ends_with y) SUPPORTED_EXTENSIONS = false.
Proof.
  unfold Str.ends_with. destruct (rev (list_ascii_of_string y)) as [|a r]; [discriminate|].
  cbn [rev list_ascii_of_string app Str.prefixb]. intros H.
  apply andb_prop in H as [Ha _]. apply Ascii.eqb_eq in Ha. subst a. reflexivity.
Qed.

Lemma matched_last skip exclude maxSize root es p :
  In p (spec_matched skip exclude maxSize root es) ->
  exists d name, p = d ++ [name] /\
    existsb (Str.ends_with name) SUPPORTED_EXTENSIONS = true.
Proof.
  unfold spec_matched. intros Hin. apply in_map_iff in Hin as [f [<- Hf]].
  apply filter_In in Hf as [Hf Hk]. unfold all_files in Hf.
  apply in_flat_map in Hf as [x [_ Hx]].
  destruct (files_of_name _ _ _ _ Hx) as [d Hd].
  exists d, (found_name f). split; [exact Hd|].
  unfold spec_keep in Hk.
  apply andb_prop in Hk as [Hk _]. apply andb_prop in Hk as [Hk _].
  apply andb_prop in Hk as [_ Hk]. exact Hk.
Qed.

(** A matched file is never a backup path. *)
Lemma matched_not_backup skip exclude maxSize root es p q :
  In p (spec_matched skip exclude maxSize root es) -> p <> backup_path q.
Proof.
  intros Hin Heq.
  destruct (matched_last _ _ _ _ _ _ Hin) as [d [name [-> Hname]]].
  destruct (backup_path_last q) as [pre [y [Hq Hy]]]. rewrite Hq in Heq.
  apply app_inj_tail in Heq as [_ ->].
  now rewrite (bak_not_supported _ Hy) in Hname.
Qed.

Lemma lookup_app e p : forall q,
  lookup e (p ++ q) =
  match lookup e p with inl e' => lookup e' q | inr err => inr err end.
Proof.
  revert e. induction p as [|a p IH]; intros e q; [reflexivity|].
  destruct e as [m c|m ch]; [reflexivity|].
  cbn [app lookup]. destruct (find_child a ch); [apply IH|reflexivity].
Qed.

Lemma find_child_in x ch :
  NoDup (map ename ch) -> In x ch -> find_child (ename x) ch = Some x.
Proof.
  induction ch as [|a ch IH]; intros Hnd Hin; [destruct Hin|].
  inversion Hnd as [|? ? Hna Hnd']; subst. cbn [find_child].
  destruct Hin as [<-|Hin]; [now rewrite String.eqb_refl|].
  destruct (String.eqb (ename a) (ename x)) eqn:E.
  - apply String.eqb_eq in E. exfalso. apply Hna. rewrite E. now apply in_map.
  - now apply IH.
Qed.

Lemma files_of_lookup e : wf_entry e -> forall cur dirs f,
  In f (files_of cur dirs e) ->
  exists q nf c, found_path f = cur ++ ename e :: q /\ lookup e q = inl (EFile nf c).
Proof.
  induction e as [n c|n ch IH] using entry_ind'; intros Hwf cur dirs f Hin.
  - simpl in Hin. destruct Hin as [<-|[]]. now exists [], n, c.
  - inversion Hwf as [|? ? Hnd Hch]; subst.
    rewrite files_of_dir in Hin. apply in_flat_map in Hin as [x [Hx Hf]].
    rewrite Forall_forall in IH, Hch.
    destruct (IH x Hx (Hch x Hx) _ _ _ Hf) as [q [nf [c [Hp Hl]]]].
    exists (ename x :: q), nf, c. split.
    + rewrite Hp, <- app_assoc. reflexivity.
    + cbn [lookup]. now rewrite (find_child_in x ch Hnd Hx).
Qed.

(** A matched file of a real tree is a regular file of the tree under
    the root. *)
Lemma matched_read skip exclude maxSize root n es p :
  wf_entry (EDir n es) -> In p (spec_matched skip exclude maxSize root es) ->
  exists c, forall fs, lookup fs root = inl (EDir n es) -> read_text fs p = inl c.
Proof.
  intros Hwf Hin. inversion Hwf as [|? ? Hnd Hch]; subst.
  unfold spec_matched in Hin. apply in_map_iff in Hin as [f [<- Hf]].
  apply filter_In in Hf as [Hf _]. unfold all_files in Hf.
  apply in_flat_map in Hf as [x [Hx Hfx]].
  rewrite Forall_forall in Hch.
  destruct (files_of_lookup x (Hch x Hx) _ _ _ Hfx) as [q [nf [c [Hp Hl]]]].
  exists c. intros fs Hroot. unfold read_text. rewrite Hp, lookup_app, Hroot.
  cbn [lookup]. now rewrite (find_child_in x es Hnd Hx), Hl.
Qed.

Lemma Forall2_det {A B} (P1 P2 : A -> B -> Prop) l : forall l1 l2,
  Forall2 P1 l l1 -> Forall2 P2 l l2 ->
  (forall a b1 b2, In a l -> P1 a b1 -> P2 a b2 -> b1 = b2) -> l1 = l2.
Proof.
  induction l as [|a l IH]; intros l1 l2 H1 H2 Hd.
  - inversion H1; inversion H2; reflexivity.
  - inversion H1 as [|? b1 ? l1' Hp1 Hr1]; inversion H2 as [|? b2 ? l2' Hp2 Hr2]; subst.
    f_equal; [exact (Hd a b1 b2 (or_introl eq_refl) Hp1 Hp2)|].
    apply (IH l1' l2' Hr1 Hr2). intros a' c1 c2 Ha'. apply Hd. now right.
Qed.

(** ** C7 *)

(** The condition of C7 matters: with the outputs written inside the
    source directory, the first run changes the source tree, and the
    second run also lists [llms.txt] and [llms-full.txt]. *)
Example rerun_outputs_inside_source :
  let config := Config.mkConfig (Some "r") "llms.txt" "llms-full.txt" "txt" [] []
                  DEFAULT_BRANCH "r" None None false false false JPosInf false in
  let fs := EDir "" [EDir "r" [EFile "a.md" "A"]] in
  read_text (w_fs (snd (main config (world_of fs)))) ["r"; "llms.txt"] <>
  read_text (w_fs (snd (main config (snd (main config (world_of fs)))))) ["r"; "llms.txt"].
Proof. vm_compute. discriminate. Qed.

(** * Further properties of the code *)

(** ** Strings and paths *)

Lemma string_of_list_ascii_app (x y : list ascii) :
  string_of_list_ascii (x ++ y) = (string_of_list_ascii x ++ string_of_list_ascii y)%string.
Proof. induction x as [|a x IH]; simpl; [reflexivity|now rewrite IH]. Qed.

Lemma split_chars_nonempty c l : Str.split_chars c l <> [].
Proof.
  destruct l as [|a l]; [discriminate|]. cbn [Str.split_chars].
  destruct (Ascii.eqb a c); [discriminate|]. destruct (Str.split_chars c l); discriminate.
Qed.

Lemma split_chars_app_sep c x l :
  (forall a, In a x -> Ascii.eqb a c = false) ->
  Str.split_chars c (x ++ c :: l) = x :: Str.split_chars c l.
Proof.
  induction x as [|a x IH]; intros H.
  - cbn [app Str.split_chars]. now rewrite Ascii.eqb_refl.
  - cbn [app Str.split_chars]. rewrite (H a (or_introl eq_refl)).
    rewrite IH; [reflexivity|]. intros b Hb. apply H. now right.
Qed.

Lemma join_split_chars c l : join_chars c (Str.split_chars c l) = l.
Proof.
  induction l as [|a l IH]; [reflexivity|]. cbn [Str.split_chars].
  destruct (Ascii.eqb a c) eqn:E.
  - apply Ascii.eqb_eq in E. subst a.
    destruct (Str.split_chars c l) as [|w ws] eqn:Hs;
      [now apply split_chars_nonempty in Hs|].
    cbn [join_chars]. now rewrite <- IH.
  - destruct (Str.split_chars c l) as [|w ws] eqn:Hs;
      [now apply split_chars_nonempty in Hs|].
    rewrite <- IH. destruct ws; reflexivity.
Qed.

Lemma split_join_chars c ls :
  ls <> [] -> Forall (fun x => forall a, In a x -> Ascii.eqb a c = false) ls ->
  Str.split_chars c (join_chars c ls) = ls.
Proof.
  induction ls as [|x ls IH]; intros Hne H; [contradiction|].
  inversion H as [|? ? Hx Hls]; subst.
  destruct ls as [|y ls].
  - cbn [join_chars]. now apply split_chars_nosep.
  - change (join_chars c (x :: y :: ls)) with (x ++ c :: join_chars c (y :: ls)).
    rewrite split_chars_app_sep by exact Hx. rewrite IH; [reflexivity|discriminate|exact Hls].
Qed.

Lemma concat_join_chars c (ls : list (list ascii)) :
  String.concat (String c EmptyString) (map string_of_list_ascii ls) =
  string_of_list_ascii (join_chars c ls).
Proof.
  induction ls as [|x ls IH]; [reflexivity|].
  destruct ls as [|y ls]; [reflexivity|].
  change (String.concat (String c EmptyString) (map string_of_list_ascii (x :: y :: ls)))
    with (string_of_list_ascii x ++ String c EmptyString ++
          String.concat (String c EmptyString) (map string_of_list_ascii (y :: ls)))%string.
  rewrite IH. cbn [join_chars]. rewrite string_of_list_ascii_app. reflexivity.
Qed.

Lemma list_concat_join_chars c (q : list string) :
  list_ascii_of_string (String.concat (String c EmptyString) q) =
  join_chars c (map list_ascii_of_string q).
Proof.
  rewrite <- (list_ascii_of_string_of_list_ascii (join_chars c _)).
  rewrite <- concat_join_chars, map_map.
  rewrite (map_ext _ (fun x => x)) by apply string_of_list_ascii_of_string.
  now rewrite map_id.
Qed.

(** [s.split("/").join("/")] is [s]. *)
Lemma concat_split_slash s : String.concat "/" (Str.split "/" s) = s.
Proof.
  unfold Str.split. rewrite concat_join_chars, join_split_chars.
  apply string_of_list_ascii_of_string.
Qed.

Lemma no_slash_chars (x : string) :
  ~ In "/"%char (list_ascii_of_string x) ->
  forall a, In a (list_ascii_of_string x) -> Ascii.eqb a "/"%char = false.
Proof.
  intros H a Ha. destruct (Ascii.eqb a "/") eqn:E; [|reflexivity].
  apply Ascii.eqb_eq in E. subst a. contradiction.
Qed.

Lemma prefixb_app p l : Str.prefixb p (p ++ l) = true.
Proof. induction p as [|a p IH]; [reflexivity|]. cbn. now rewrite Ascii.eqb_refl, IH. Qed.

Lemma skipn_length_app {A} (p l : list A) : skipn (List.length p) (p ++ l) = l.
Proof. induction p; [reflexivity|]. exact IHp. Qed.

Lemma prefixb_true p l : Str.prefixb p l = true -> l = p ++ skipn (List.length p) l.
Proof.
  revert l. induction p as [|a p IH]; intros l H; [reflexivity|].
  destruct l as [|b l]; [discriminate|]. cbn in H.
  apply andb_prop in H as [Hab Hp]. apply Ascii.eqb_eq in Hab. subst b.
  cbn. f_equal. now apply IH.
Qed.

Lemma replace_first_eq pat l :
  replace_first pat l =
  if Str.prefixb pat l then skipn (List.length pat) l
  else match l with [] => [] | a :: l' => a :: replace_first pat l' end.
Proof. destruct l; reflexivity. Qed.

Lemma replace_first_prefix pat l : replace_first pat (pat ++ l) = l.
Proof. rewrite replace_first_eq, prefixb_app. apply skipn_length_app. Qed.

Lemma replace_first_absent pat l :
  (forall pre post, l <> pre ++ pat ++ post) -> replace_first pat l = l.
Proof.
  induction l as [|a l IH]; intros H; rewrite replace_first_eq.
  - destruct (Str.prefixb pat []) eqn:E; [|reflexivity].
    exfalso. apply (H [] []). pose proof (prefixb_true _ _ E) as E'.
    rewrite skipn_nil, app_nil_r in E'. simpl. now rewrite app_nil_r.
  - destruct (Str.prefixb pat (a :: l)) eqn:E.
    + exfalso. apply (H [] (skipn (List.length pat) (a :: l))). now apply prefixb_true in E.
    + rewrite IH; [reflexivity|]. intros pre post Heq. apply (H (a :: pre) post).
      now rewrite Heq.
Qed.

Lemma list_slash_app (x y : string) :
  list_ascii_of_string (x ++ "/" ++ y) =
  list_ascii_of_string x ++ "/"%char :: list_ascii_of_string y.
Proof. rewrite list_ascii_of_string_app. reflexivity. Qed.

(** Extra X1: a URL made of the base URL, then owner, repository, one
    segment (GitHub's [tree]), branch and a path, separated by [/],
    is taken apart into exactly these owner, repository, branch and
    path; the path may itself contain [/]. *)
Theorem parseURL_full_url (base owner repo tree branch path : string) :
  ~ In "/"%char (list_ascii_of_string owner) ->
  ~ In "/"%char (list_ascii_of_string repo) ->
  ~ In "/"%char (list_ascii_of_string tree) ->
  ~ In "/"%char (list_ascii_of_string branch) ->
  parseURL (base ++ owner ++ "/" ++ repo ++ "/" ++ tree ++ "/" ++ branch ++ "/" ++ path) base =
  RepositoryURL.mk owner repo branch path.
Proof.
  intros Ho Hr Ht Hb. unfold parseURL.
  rewrite list_ascii_of_string_app, replace_first_prefix, string_of_list_ascii_of_string.
  unfold Str.split. rewrite !list_slash_app.
  rewrite !split_chars_app_sep by (apply no_slash_chars; assumption).
  cbn [map nth skipn]. rewrite !string_of_list_ascii_of_string.
  f_equal. apply concat_split_slash.
Qed.

Lemma parseURL_full_url_witness :
  ~ In "/"%char (list_ascii_of_string "owner") /\
  ~ In "/"%char (list_ascii_of_string "repo") /\
  ~ In "/"%char (list_ascii_of_string "tree") /\
  ~ In "/"%char (list_ascii_of_string "dev") /\
  parseURL ("https://github.com/" ++ "owner" ++ "/" ++ "repo" ++ "/" ++ "tree" ++ "/" ++
            "dev" ++ "/" ++ "docs/guide") "https://github.com/" =
  RepositoryURL.mk "owner" "repo" "dev" "docs/guide".
Proof.
  assert (H : forall s, existsb (fun a => Ascii.eqb a "/"%char) (list_ascii_of_string s) = false ->
              ~ In "/"%char (list_ascii_of_string s)).
  { intros s Hs Hin. assert (existsb (fun a => Ascii.eqb a "/"%char) (list_ascii_of_string s) = true)
      by (apply existsb_exists; exists "/"%char; split; [exact Hin|reflexivity]).
    congruence. }
  do 4 (split; [apply H; reflexivity|]).
  apply parseURL_full_url; apply H; reflexivity.
Defined.

(** Extra X2: the short forms.  [base/owner/repo] and, when the base URL
    does not occur in it, the shorthand [owner/repo] give that owner and
    repository, the default branch [main] and an empty path. *)
Theorem parseURL_short_forms (base owner repo : string) :
  ~ In "/"%char (list_ascii_of_string owner) ->
  ~ In "/"%char (list_ascii_of_string repo) ->
  parseURL (base ++ owner ++ "/" ++ repo) base =
    RepositoryURL.mk owner repo DEFAULT_BRANCH "" /\
  ((forall pre post, list_ascii_of_string (owner ++ "/" ++ repo) <>
                     pre ++ list_ascii_of_string base ++ post) ->
   parseURL (owner ++ "/" ++ repo) base = RepositoryURL.mk owner repo DEFAULT_BRANCH "").
Proof.
  intros Ho Hr.
  assert (Hs : Str.split "/" (owner ++ "/" ++ repo) = [owner; repo]).
  { unfold Str.split. rewrite list_slash_app, split_chars_app_sep by (apply no_slash_chars; assumption).
    rewrite split_chars_nosep by (apply no_slash_chars; assumption).
    cbn [map]. now rewrite !string_of_list_ascii_of_string. }
  split.
  - unfold parseURL.
    rewrite list_ascii_of_string_app, replace_first_prefix, string_of_list_ascii_of_string.
    now rewrite Hs.
  - intros Habs. unfold parseURL. rewrite replace_first_absent by exact Habs.
    rewrite string_of_list_ascii_of_string. now rewrite Hs.
Qed.

Lemma parseURL_short_forms_witness :
  ~ In "/"%char (list_ascii_of_string "owner") /\
  ~ In "/"%char (list_ascii_of_string "repo") /\
  parseURL ("https://github.com/" ++ "owner" ++ "/" ++ "repo") "https://github.com/" =
    RepositoryURL.mk "owner" "repo" DEFAULT_BRANCH "" /\
  ((forall pre post, list_ascii_of_string ("owner" ++ "/" ++ "repo") <>
                     pre ++ list_ascii_of_string "https://github.com/" ++ post) ->
   parseURL ("owner" ++ "/" ++ "repo") "https://github.com/" =
     RepositoryURL.mk "owner" "repo" DEFAULT_BRANCH "").
Proof.
  assert (Ho : ~ In "/"%char (list_ascii_of_string "owner")) by (simpl; intuition discriminate).
  assert (Hr : ~ In "/"%char (list_ascii_of_string "repo")) by (simpl; intuition discriminate).
  split; [exact Ho|]. split; [exact Hr|].
  exact (parseURL_short_forms "https://github.com/" "owner" "repo" Ho Hr).
Defined.

Lemma drop_common_app root q : drop_common root (root ++ q) = ([], q).
Proof. induction root as [|x root IH]; [reflexivity|]. cbn. now rewrite String.eqb_refl. Qed.

Lemma relative_prefix root q : relative root (root ++ q) = render q.
Proof. unfold relative. now rewrite drop_common_app. Qed.

Lemma valid_segment_parts x :
  valid_segment x = true ->
  String.eqb x "" = false /\ String.eqb x "." = false /\ String.eqb x ".." = false /\
  (forall a, In a (list_ascii_of_string x) -> Ascii.eqb a "/"%char = false).
Proof.
  unfold valid_segment. intros H.
  apply andb_prop in H as [H H4]. apply andb_prop in H as [H H3].
  apply andb_prop in H as [H1 H2]. apply negb_true_iff in H1, H2, H3, H4.
  repeat split; try assumption.
  intros a Ha. destruct (Ascii.eqb a "/") eqn:E; [|reflexivity].
  assert (existsb (fun a => Ascii.eqb a "/"%char) (list_ascii_of_string x) = true)
    by (apply existsb_exists; now exists a). congruence.
Qed.

Lemma norm_acc_regular q : forall acc,
  Forall (fun x => valid_segment x = true) q -> norm_acc acc q = rev acc ++ q.
Proof.
  induction q as [|x q IH]; intros acc H; [now rewrite app_nil_r|].
  inversion H as [|? ? Hx Hq]; subst.
  destruct (valid_segment_parts x Hx) as [H1 [H2 [H3 _]]].
  cbn [norm_acc]. rewrite H1, H2, H3. cbn [orb]. rewrite IH by exact Hq.
  cbn [rev]. now rewrite <- app_assoc.
Qed.

(** [join(root, render(q))] gives back [root ++ q]. *)
Lemma join_render root q :
  q <> [] -> Forall (fun x => valid_segment x = true) q -> join root (render q) = root ++ q.
Proof.
  intros Hne Hq. unfold join, render, Str.split.
  rewrite list_concat_join_chars, split_join_chars.
  - rewrite map_map. rewrite (map_ext _ (fun x => x)) by apply string_of_list_ascii_of_string.
    rewrite map_id, norm_acc_regular by exact Hq. now rewrite rev_involutive.
  - destruct q; [contradiction|discriminate].
  - apply Forall_map. refine (Forall_impl _ _ Hq). intros x Hx.
    now destruct (valid_segment_parts x Hx) as [_ [_ [_ H]]].
Qed.

Lemma names_valid_dir n ch :
  names_valid (EDir n ch) = valid_segment n && forallb names_valid ch.
Proof. cbn [names_valid ename]. f_equal. all: induction ch as [|x ch IH]; simpl; congruence. Qed.

Lemma files_of_valid e : names_valid e = true -> forall cur dirs f,
  In f (files_of cur dirs e) ->
  exists q, found_path f = cur ++ q /\ q <> [] /\ Forall (fun x => valid_segment x = true) q.
Proof.
  induction e as [n c|n ch IH] using entry_ind'; intros Hv cur dirs f Hin.
  - simpl in Hin. destruct Hin as [<-|[]]. exists [n].
    cbn [names_valid ename] in Hv. rewrite andb_true_r in Hv.
    split; [reflexivity|]. split; [discriminate|]. now constructor.
  - rewrite names_valid_dir in Hv. apply andb_prop in Hv as [Hn Hch].
    rewrite forallb_forall in Hch.
    rewrite files_of_dir in Hin. apply in_flat_map in Hin as [x [Hx Hf]].
    rewrite Forall_forall in IH.
    destruct (IH x Hx (Hch x Hx) _ _ _ Hf) as [q [Hp [Hne Hq]]].
    exists (n :: q). split; [rewrite Hp, <- app_assoc; reflexivity|].
    split; [discriminate|]. now constructor.
Qed.

(** Extra X3: when every name of the tree is a proper segment, joining
    the root with each relative path [files[i]] returned by
    [getDirectory] gives back the full path [fullPaths[i]]: the link
    targets of the link index resolve, from the root, to the files. *)
Theorem getDirectory_join_relative (root : path) (skip exclude : list string)
    (maxSize : jsnum) (w w' : world) (n : string) (es : list FS.entry)
    (files : list string) (fullPaths : list path) :
  lookup (w_fs w) root = inl (EDir n es) ->
  forallb names_valid es = true ->
  getDirectory root root skip exclude maxSize w = (Ret (files, fullPaths), w') ->
  List.length files = List.length fullPaths /\
  forall i, (i < List.length fullPaths)%nat ->
    join root (nth i files "") = nth i fullPaths [].
Proof.
  intros Hl Hv Hg. rewrite (getDirectory_spec _ _ _ _ _ _ _ Hl) in Hg.
  assert (Hall : forall p, In p (spec_matched skip exclude maxSize root es) ->
                 join root (relative root p) = p).
  { intros p Hin. unfold spec_matched in Hin. apply in_map_iff in Hin as [f [Hfp Hf]].
    apply filter_In in Hf as [Hf _]. unfold all_files in Hf.
    apply in_flat_map in Hf as [x [Hx Hfx]].
    rewrite forallb_forall in Hv.
    destruct (files_of_valid x (Hv x Hx) _ _ _ Hfx) as [q [Hp [Hne Hq]]].
    rewrite <- Hfp, Hp, relative_prefix. now apply join_render. }
  injection Hg as <- <- _. split; [apply length_map|].
  intros i Hi.
  rewrite nth_indep with (d' := relative root []) by (rewrite length_map; lia).
  rewrite map_nth. apply Hall. now apply nth_In.
Qed.

Lemma getDirectory_join_relative_witness :
  lookup (w_fs (world_of fs_B)) ["r"] = inl (EDir "r" tree_B) /\
  forallb names_valid tree_B = true /\
  getDirectory ["r"] ["r"] [] [] JPosInf (world_of fs_B) =
    (Ret (["a.md"; "b.txt"; "skip/c.md"], [["r"; "a.md"]; ["r"; "b.txt"]; ["r"; "skip"; "c.md"]]),
     world_of fs_B) /\
  List.length ["a.md"; "b.txt"; "skip/c.md"] =
    List.length [["r"; "a.md"]; ["r"; "b.txt"]; ["r"; "skip"; "c.md"]] /\
  forall i, (i < List.length [["r"; "a.md"]; ["r"; "b.txt"]; ["r"; "skip"; "c.md"]])%nat ->
    join ["r"] (nth i ["a.md"; "b.txt"; "skip/c.md"] "") =
    nth i [["r"; "a.md"]; ["r"; "b.txt"]; ["r"; "skip"; "c.md"]] [].
Proof.
  split; [reflexivity|]. split; [reflexivity|]. split; [reflexivity|].
  apply (getDirectory_join_relative ["r"] [] [] JPosInf (world_of fs_B) (world_of fs_B)
           "r" tree_B); reflexivity.
Defined.

(** ** [analyzeOption] *)

Lemma split_ws_aux_length l : forall cur prev,
  List.length (Str.split_ws_aux l cur prev) = S (ws_run_starts l prev).
Proof.
  induction l as [|a l IH]; intros cur prev; [reflexivity|].
  cbn [Str.split_ws_aux ws_run_starts].
  destruct (Str.is_ws a); [destruct prev|]; cbn [List.length]; rewrite ?IH; reflexivity.
Qed.

Lemma string_of_list_ascii_empty x : String.eqb (string_of_list_ascii x) "" = match x with [] => true | _ => false end.
Proof. destruct x; reflexivity. Qed.

Lemma split_ws_aux_words l : forall cur prev,
  (prev = true -> cur = []) ->
  List.length (filter (fun x => negb (String.eqb x "")) (map string_of_list_ascii
                                                     (Str.split_ws_aux l cur prev))) =
  word_ends l (match cur with [] => false | _ => true end).
Proof.
  induction l as [|a l IH]; intros cur prev Hinv.
  - cbn [Str.split_ws_aux map filter]. rewrite string_of_list_ascii_empty.
    destruct cur as [|c cur]; [reflexivity|].
    destruct (rev (c :: cur)) eqn:E; [|reflexivity].
    apply (f_equal (@List.length ascii)) in E. rewrite length_rev in E. discriminate.
  - cbn [Str.split_ws_aux word_ends]. destruct (Str.is_ws a).
    + destruct prev.
      * rewrite (Hinv eq_refl). rewrite IH by reflexivity. reflexivity.
      * cbn [map filter]. rewrite string_of_list_ascii_empty.
        destruct cur as [|c cur].
        -- cbn [rev negb]. rewrite IH by reflexivity. reflexivity.
        -- destruct (rev (c :: cur)) eqn:E.
           ++ apply (f_equal (@List.length ascii)) in E. rewrite length_rev in E. discriminate.
           ++ cbn [negb List.length]. rewrite IH by reflexivity. reflexivity.
    + rewrite IH by discriminate. reflexivity.
Qed.

Lemma run_starts_word_ends l :
  (ws_run_starts l true + 1 =
     word_ends l false + match l with [] => 1 | _ => if Str.is_ws (last l "0"%char) then 1 else 0 end)%nat /\
  (ws_run_starts l false + 1 =
     word_ends l true + match l with [] => 0 | _ => if Str.is_ws (last l "0"%char) then 1 else 0 end)%nat.
Proof.
  induction l as [|a l [IHA IHB]]; [split; reflexivity|].
  cbn [ws_run_starts word_ends].
  assert (Hl : forall x, last (a :: l) x =
                 match l with [] => a | _ => last l x end)
    by (intros x; destruct l; reflexivity).
  rewrite !Hl. destruct l as [|b l].
  - cbn. destruct (Str.is_ws a); split; reflexivity.
  - cbv beta iota in *. destruct (Str.is_ws a); split; lia.
Qed.

(** Extra X4: the per-file word count of [analyzeOption],
    [content.split(/\s+/).length], is the number of words of the content
    plus one when it begins with whitespace and one more when it ends
    with whitespace; an empty file counts as one word. *)
Theorem split_ws_count (s : string) :
  List.length (Str.split_ws "") = 1%nat /\
  (forall a l, list_ascii_of_string s = a :: l ->
   List.length (Str.split_ws s) =
     (spec_word_count s + (if Str.is_ws a then 1 else 0) +
      (if Str.is_ws (last (a :: l) "0"%char) then 1 else 0))%nat).
Proof.
  split; [reflexivity|]. intros a l Hs.
  unfold Str.split_ws, spec_word_count, Str.split_ws. rewrite length_map, Hs.
  rewrite split_ws_aux_length, (split_ws_aux_words (a :: l) [] false) by discriminate.
  cbn [ws_run_starts word_ends]. destruct (Str.is_ws a) eqn:Ha.
  - destruct (run_starts_word_ends l) as [HA _].
    assert (Hl : last (a :: l) "0"%char = match l with [] => a | _ => last l "0"%char end)
      by (destruct l; reflexivity).
    rewrite Hl. destruct l; [rewrite Ha; reflexivity|]. lia.
  - destruct (run_starts_word_ends l) as [_ HB].
    assert (Hl : last (a :: l) "0"%char = match l with [] => a | _ => last l "0"%char end)
      by (destruct l; reflexivity).
    rewrite Hl. destruct l; [rewrite Ha; reflexivity|]. lia.
Qed.

Lemma split_ws_count_witness :
  list_ascii_of_string (" two words" ++ nl)%string =
    " "%char :: list_ascii_of_string ("two words" ++ nl)%string /\
  List.length (Str.split_ws "") = 1%nat /\
  (forall a l, list_ascii_of_string (" two words" ++ nl)%string = a :: l ->
   List.length (Str.split_ws (" two words" ++ nl)%string) =
     (spec_word_count (" two words" ++ nl)%string + (if Str.is_ws a then 1 else 0) +
      (if Str.is_ws (last (a :: l) "0"%char) then 1 else 0))%nat).
Proof. split; [reflexivity|]. apply split_ws_count. Defined.

(** ** The [analyzeOption] loop *)

Lemma set_add_In x d s : In d (set_add x s) <-> In d s \/ d = x.
Proof.
  unfold set_add, Str.includes. destruct (existsb (String.eqb x) s) eqn:E.
  - split; [now left|]. intros [H|<-]; [exact H|].
    apply existsb_exists in E as [y [Hy Ey]]. apply String.eqb_eq in Ey. now subst.
  - rewrite in_app_iff. cbn. intuition.
Qed.

Lemma set_add_NoDup x s : NoDup s -> NoDup (set_add x s).
Proof.
  intros H. unfold set_add, Str.includes. destruct (existsb (String.eqb x) s) eqn:E; [exact H|].
  apply NoDup_app; [exact H|constructor; [intros []|constructor]|].
  intros y Hy [<-|[]].
  assert (existsb (String.eqb x) s = true)
    by (apply existsb_exists; exists x; split; [exact Hy | apply String.eqb_refl]).
  congruence.
Qed.

Lemma split_ws_nonempty s : (1 <= List.length (Str.split_ws s))%nat.
Proof. unfold Str.split_ws. rewrite length_map, split_ws_aux_length. lia. Qed.

(** Extra X5: the loop of [analyzeOption] only reads.  It leaves the
    world as it found it (no log line, no file change); when it ends
    normally, [totalWords] grew by at least one per file (a [split]
    never returns an empty array), [totalSize] grew by the sizes that
    [stat] reports for the paths, and [folders] holds, without repeats,
    the initial folders and the parent of each path; when it throws,
    it is the read or the stat of one of the paths that failed. *)
Theorem analyzeLoop_report ps words0 sz0 f0 w o w' :
  analyzeLoop ps (words0, sz0, f0) w = (o, w') ->
  w' = w /\
  (forall words sz folders, o = Ret (words, sz, folders) ->
     (NoDup f0 -> NoDup folders) /\
     (forall d, In d folders <->
        In d f0 \/ exists p, In p ps /\ d = Str.before_last_slash (render p)) /\
     (words0 + Z.of_nat (List.length ps) <= words)%Z /\
     exists sts, Forall2 (fun p e => lookup (w_fs w) p = inl e) ps sts /\
       sz = (sz0 + fold_right Z.add 0 (map size sts))%Z) /\
  (forall e, o = Thrown e ->
     exists p, In p ps /\ (read_text (w_fs w) p = inr e \/ lookup (w_fs w) p = inr e)) /\
  (forall c, o <> Exited c).
Proof.
  revert words0 sz0 f0 o. induction ps as [|p ps IH]; intros words0 sz0 f0 o Hrun.
  - cbn in Hrun. injection Hrun as <- <-. split; [reflexivity|]. split; [|split].
    + intros words sz folders Ho. injection Ho as <- <- <-. split; [exact (fun H => H)|].
      split; [|split].
      * intros d. split; [now left|]. intros [H|[q [[] _]]]. exact H.
      * cbn. lia.
      * exists []. split; [constructor|]. cbn. lia.
    + intros e Ho. discriminate.
    + intros c Ho. discriminate.
  - cbn [analyzeLoop] in Hrun. cbv [bind readTextFile stat fs_read] in Hrun.
    destruct (read_text (w_fs w) p) as [content|e] eqn:R.
    2:{ injection Hrun as <- <-. split; [reflexivity|]. split; [|split].
        - intros words sz folders Ho. discriminate.
        - intros e' Ho. injection Ho as <-. exists p. split; [now left|now left].
        - intros c Ho. discriminate. }
    destruct (lookup (w_fs w) p) as [st|e] eqn:L.
    2:{ injection Hrun as <- <-. split; [reflexivity|]. split; [|split].
        - intros words sz folders Ho. discriminate.
        - intros e' Ho. injection Ho as <-. exists p. split; [now left|now right].
        - intros c Ho. discriminate. }
    destruct (IH _ _ _ _ Hrun) as [Hw [HR [HT HE]]]. subst w'.
    split; [reflexivity|]. split; [|split; [|exact HE]].
    + intros words sz folders Ho. destruct (HR _ _ _ Ho) as [HN [HI [HW [sts [HF Hsz]]]]].
      split; [|split; [|split]].
      * intros H0. apply HN, set_add_NoDup, H0.
      * intros d. rewrite HI, set_add_In. split.
        -- intros [[H|H]|[q [Hq ->]]]; [now left|right; exists p; split; [now left|exact H]|].
           right. exists q. split; [now right|reflexivity].
        -- intros [H|[q [[<-|Hq] ->]]]; [now left; left|now left; right|].
           right. exists q. split; [exact Hq|reflexivity].
      * cbn [List.length] in *. pose proof (split_ws_nonempty content). lia.
      * exists (st :: sts). split; [constructor; assumption|]. cbn [map fold_right]. lia.
    + intros e Ho. destruct (HT e Ho) as [q [Hq H]]. exists q. split; [now right|exact H].
Qed.

Lemma analyzeLoop_report_witness :
  analyzeLoop [["r"; "ten.md"]; ["r"; "twenty.md"]] (0%Z, 0%Z, []) (world_of fs_D) =
    (Ret (32%Z, 60%Z, ["r"]), world_of fs_D) /\
  (world_of fs_D = world_of fs_D /\
  (forall words sz folders, @Ret (Z * Z * list string) (32%Z, 60%Z, ["r"]) = Ret (words, sz, folders) ->
     (NoDup (@nil string) -> NoDup folders) /\
     (forall d, In d folders <->
        In d (@nil string) \/ exists p, In p [["r"; "ten.md"]; ["r"; "twenty.md"]] /\
                             d = Str.before_last_slash (render p)) /\
     (0 + Z.of_nat (List.length [["r"; "ten.md"]; ["r"; "twenty.md"]]) <= words)%Z /\
     exists sts, Forall2 (fun p e => lookup fs_D p = inl e)
                   [["r"; "ten.md"]; ["r"; "twenty.md"]] sts /\
       sz = (0 + fold_right Z.add 0 (map size sts))%Z) /\
  (forall e, @Ret (Z * Z * list string) (32%Z, 60%Z, ["r"]) = Thrown e ->
     exists p, In p [["r"; "ten.md"]; ["r"; "twenty.md"]] /\
       (read_text fs_D p = inr e \/ lookup fs_D p = inr e)) /\
  (forall c, @Ret (Z * Z * list string) (32%Z, 60%Z, ["r"]) <> Exited c)).
Proof.
  split; [vm_compute; reflexivity|].
  apply analyzeLoop_report. vm_compute. reflexivity.
Defined.

Lemma size_nonneg e : (0 <= size e)%Z.
Proof. destruct e; cbn; lia. Qed.

Lemma sum_sizes_nonneg sts : (0 <= fold_right Z.add 0%Z (map size sts))%Z.
Proof. induction sts as [|e sts IH]; cbn; [lia|]. pose proof (size_nonneg e). lia. Qed.

(** Extra X6: [analyzeOption] changes nothing but the log and never
    exits.  If a read or a stat fails, it throws with the world as it
    was; otherwise it prints one analysis line, whose folder count is
    at most the number of paths and positive exactly when there is a
    path, whose word count is at least the number of paths, and whose
    average size is computed from the sizes of the files at [fullPaths]
    and the length of [files]: [NaN] when [files] is empty and those
    files hold 0 bytes, [Infinity] when [files] is empty and they hold
    some bytes, and a number otherwise. *)
Theorem analyzeOption_report files ps w o w' :
  analyzeOption files ps w = (o, w') ->
  w_fs w' = w_fs w /\ w_stdin w' = w_stdin w /\ w_tmp w' = w_tmp w /\
  w_remote w' = w_remote w /\
  (forall c, o <> Exited c) /\
  (forall e, o = Thrown e -> w' = w) /\
  (o = Ret tt -> exists nf words sts,
     let total := fold_right Z.add 0%Z (map size sts) in
     let avg := avg_centi_kb total (List.length files) in
     w_log w' = w_log w ++ [LAnalysis nf (Z.of_nat (List.length files)) words avg] /\
     Forall2 (fun p e => lookup (w_fs w) p = inl e) ps sts /\
     (0 <= nf <= Z.of_nat (List.length ps))%Z /\
     ((0 < nf)%Z <-> ps <> []) /\
     (Z.of_nat (List.length ps) <= words)%Z /\
     (avg = FixedNaN <-> files = [] /\ total = 0%Z) /\
     (avg = FixedInfinity <-> files = [] /\ (0 < total)%Z) /\
     (files <> [] -> exists n, avg = FixedDigits n)).
Proof.
  unfold analyzeOption, bind. intros Hrun.
  destruct (analyzeLoop ps (0%Z, 0%Z, []) w) as [o1 w1] eqn:H.
  apply analyzeLoop_report in H as [-> [HR [HT HE]]].
  destruct o1 as [[[words sz] folders]|e|c].
  - cbv [log] in Hrun. injection Hrun as <- <-. cbn.
    do 4 (split; [reflexivity|]). split; [intros c Hc; discriminate|].
    split; [intros e He; discriminate|]. intros _.
    destruct (HR _ _ _ eq_refl) as [HN [HI [HW [sts [Hsts Hsz]]]]].
    assert (Hlen : (List.length folders <=
                    List.length (map (fun p => Str.before_last_slash (render p)) ps))%nat).
    { apply NoDup_incl_length; [apply HN; constructor|].
      intros d Hd. apply HI in Hd as [[]|[q [Hq ->]]]. exact (in_map (fun p => Str.before_last_slash (render p)) _ _ Hq). }
    rewrite length_map in Hlen.
    exists (Z.of_nat (List.length folders)), words, sts. cbv zeta.
    assert (Htot : sz = fold_right Z.add 0%Z (map size sts)) by lia.
    rewrite <- Htot.
    assert (Hnn : (0 <= sz)%Z) by (rewrite Htot; apply sum_sizes_nonneg).
    split; [reflexivity|]. split; [exact Hsts|]. split; [lia|]. split; [|split; [lia|]].
    + destruct ps as [|p ps'].
      * split; [cbn in Hlen; lia|]. intros Hn. now contradiction Hn.
      * split; [intros _; discriminate|]. intros _.
        assert (Hin : In (Str.before_last_slash (render p)) folders)
          by (apply HI; right; exists p; split; [now left|reflexivity]).
        destruct folders; [destruct Hin|]. cbn [List.length]. lia.
    + destruct files as [|f files']; cbn [List.length avg_centi_kb].
      * destruct (Z.eqb_spec sz 0) as [Hz|Hz]; [|destruct (Z.ltb_spec 0 sz); [|lia]].
        -- split; [split; [split; [reflexivity|exact Hz]|intros; reflexivity]|].
           split; [split; [discriminate|lia]|]. intros Hf; now contradiction Hf.
        -- split; [split; [discriminate|intros [_ Hz']; contradiction]|].
           split; [split; [intros _; split; [reflexivity|lia]|intros; reflexivity]|].
           intros Hf; now contradiction Hf.
      * split; [split; [discriminate|intros [Hf _]; discriminate]|].
        split; [split; [discriminate|intros [Hf _]; discriminate]|].
        intros _. eexists. reflexivity.
  - cbv [log] in Hrun. injection Hrun as <- <-.
    do 4 (split; [reflexivity|]). split; [intros c Hc; discriminate|].
    split; [reflexivity|]. intros Ho. discriminate.
  - exfalso. exact (HE c eq_refl).
Qed.

Lemma analyzeOption_report_witness :
  analyzeOption [] [["r"; "ten.md"]] (world_of fs_D) =
    (Ret tt, mkWorld fs_D [LAnalysis 1%Z 0%Z 11%Z FixedInfinity] [] 0 []) /\
  (exists nf words sts,
     let total := fold_right Z.add 0%Z (map size sts) in
     let avg := avg_centi_kb total (List.length (@nil string)) in
     [LAnalysis 1%Z 0%Z 11%Z FixedInfinity] = [] ++ [LAnalysis nf 0%Z words avg] /\
     Forall2 (fun p e => lookup fs_D p = inl e) [["r"; "ten.md"]] sts /\
     (0 <= nf <= 1)%Z /\ ((0 < nf)%Z <-> [["r"; "ten.md"]] <> []) /\
     (1 <= words)%Z /\
     (avg = FixedNaN <-> @nil string = [] /\ total = 0%Z) /\
     (avg = FixedInfinity <-> @nil string = [] /\ (0 < total)%Z) /\
     (@nil string <> [] -> exists n, avg = FixedDigits n)).
Proof.
  assert (H : analyzeOption [] [["r"; "ten.md"]] (world_of fs_D) =
              (Ret tt, mkWorld fs_D [LAnalysis 1%Z 0%Z 11%Z FixedInfinity] [] 0 []))
    by (vm_compute; reflexivity).
  split; [exact H|].
  exact (proj2 (proj2 (proj2 (proj2 (proj2 (proj2 (analyzeOption_report _ _ _ _ _ H))))))
           eq_refl).
Defined.

(** ** Read-only modes *)

Lemma analyzeLoop_world ps acc w o w' : analyzeLoop ps acc w = (o, w') ->
  w' = w /\ match o with Exited _ => False | _ => True end.
Proof.
  revert acc o. induction ps as [|p ps IH]; intros [[words sz] folders] o H.
  - cbn in H. now injection H as <- <-.
  - cbn [analyzeLoop] in H. cbv [bind readTextFile stat fs_read] in H.
    destruct (read_text (w_fs w) p); [|now injection H as <- <-].
    destruct (lookup (w_fs w) p); [|now injection H as <- <-].
    exact (IH _ _ H).
Qed.

Section keeps.
Context {A B : Type}.

Lemma keeps_ret (a : A) : keeps_fs (ret a).
Proof. intros w o w' H. now injection H as <- <-. Qed.

Lemma keeps_exit0 : keeps_fs (@exit A 0%Z).
Proof. intros w o w' H. now injection H as <- <-. Qed.

Lemma halts_exit0 : halts_readonly (@exit A 0%Z).
Proof. intros w o w' H. now injection H as <- <-. Qed.

Lemma keeps_fs_read (f : FS.entry -> fsr A) : keeps_fs (fs_read f).
Proof. intros w o w' H. unfold fs_read in H. destruct (f (w_fs w)); now injection H as <- <-. Qed.

Lemma keeps_log l : keeps_fs (log l).
Proof. intros w o w' H. now injection H as <- <-. Qed.

Lemma keeps_prompt : keeps_fs prompt.
Proof. intros w o w' H. unfold prompt in H. destruct (w_stdin w); now injection H as <- <-. Qed.

Lemma keeps_bind (m : M A) (k : A -> M B) :
  keeps_fs m -> (forall a, keeps_fs (k a)) -> keeps_fs (bind m k).
Proof.
  intros Hm Hk w o w' H. unfold bind in H.
  destruct (m w) as [[a|e|c] w1] eqn:E; destruct (Hm _ _ _ E) as [H1 H2].
  - destruct (Hk a _ _ _ H) as [H3 H4]. split; [congruence|exact H4].
  - injection H as <- <-. split; [exact H1|exact I].
  - injection H as <- <-. split; [exact H1|exact H2].
Qed.

Lemma halts_bind_keeps (m : M A) (k : A -> M B) :
  keeps_fs m -> (forall a, halts_readonly (k a)) -> halts_readonly (bind m k).
Proof.
  intros Hm Hk w o w' H. unfold bind in H.
  destruct (m w) as [[a|e|c] w1] eqn:E; destruct (Hm _ _ _ E) as [H1 H2].
  - destruct (Hk a _ _ _ H) as [H3 H4]. split; [congruence|exact H4].
  - injection H as <- <-. split; [exact H1|exact I].
  - injection H as <- <-. split; [exact H1|exact H2].
Qed.

Lemma halts_bind_halts (m : M A) (k : A -> M B) :
  halts_readonly m -> halts_readonly (bind m k).
Proof.
  intros Hm w o w' H. unfold bind in H.
  destruct (m w) as [[a|e|c] w1] eqn:E; destruct (Hm _ _ _ E) as [H1 H2].
  - destruct H2.
  - injection H as <- <-. split; [exact H1|exact I].
  - injection H as <- <-. split; [exact H1|exact H2].
Qed.

End keeps.

Lemma keeps_analyzeOption files ps : keeps_fs (analyzeOption files ps).
Proof.
  unfold analyzeOption. apply keeps_bind.
  - intros w o w' H. destruct (analyzeLoop_world _ _ _ _ _ H) as [-> H2].
    split; [reflexivity|]. destruct o; [exact I|exact I|destruct H2].
  - intros [[words sz] folders]. apply keeps_log.
Qed.

Lemma keeps_getDirectory d b sk ex mx : keeps_fs (getDirectory d b sk ex mx).
Proof.
  unfold getDirectory, readDir. apply keeps_bind; [apply keeps_fs_read|intros a; apply keeps_ret].
Qed.

Lemma keeps_previewStep config files : keeps_fs (previewStep config files).
Proof.
  unfold previewStep, previewOption. destruct (preview config); [|apply keeps_ret].
  apply keeps_bind; [apply keeps_log|intros _].
  apply keeps_bind; [apply keeps_prompt|intros [a|]].
  - destruct (String.eqb (Str.to_lower a) "y"); [apply keeps_ret|apply keeps_exit0].
  - apply keeps_exit0.
Qed.

Lemma pipeline_readonly config :
  truthy (githubUrl config) = false -> truthy (gitlabUrl config) = false ->
  analyze config || summary config = true ->
  halts_readonly (pipeline config).
Proof.
  intros Hgh Hgl Hmode. unfold pipeline, locateSource. rewrite Hgh, Hgl.
  apply halts_bind_keeps; [apply keeps_ret|intros dirPath].
  apply halts_bind_keeps; [apply keeps_getDirectory|intros [files fullPaths]].
  apply halts_bind_keeps; [apply keeps_previewStep|intros _].
  destruct (analyze config).
  - apply halts_bind_halts, halts_bind_keeps; [apply keeps_analyzeOption|intros _].
    apply halts_exit0.
  - cbn in Hmode. rewrite Hmode.
    apply halts_bind_keeps; [apply keeps_ret|intros _].
    apply halts_bind_halts, halts_bind_keeps; [apply keeps_log|intros _].
    apply halts_exit0.
Qed.

(** Extra X7: with [--analyze] or [--summary] and no remote source,
    [main] never writes, copies or removes anything: it ends with the
    file system as it found it, by [Deno.exit(0)] (report printed, or
    preview declined) or [Deno.exit(1)] (no source given, or an error
    caught). *)
Theorem readonly_modes config w o w' :
  truthy (githubUrl config) = false -> truthy (gitlabUrl config) = false ->
  analyze config || summary config = true ->
  main config w = (o, w') ->
  w_fs w' = w_fs w /\ (o = Exited 0%Z \/ o = Exited 1%Z).
Proof.
  intros Hgh Hgl Hmode H. unfold main in H. rewrite Hgh, Hgl in H.
  destruct (truthy (localDir config)); cbn [orb negb] in H.
  - unfold catch in H. pose proof (pipeline_readonly config Hgh Hgl Hmode) as Hp.
    destruct (pipeline config w) as [[[]|e|c] w1] eqn:E; destruct (Hp _ _ _ E) as [H1 H2].
    + destruct H2.
    + cbv [bind log exit] in H. injection H as <- <-. cbn. split; [exact H1|now right].
    + injection H as <- <-. split; [exact H1|left; now subst c].
  - cbv [bind log exit] in H. injection H as <- <-. cbn. split; [reflexivity|now right].
Qed.

Lemma readonly_modes_witness :
  truthy (githubUrl (analyze_config "r")) = false /\
  truthy (gitlabUrl (analyze_config "r")) = false /\
  analyze (analyze_config "r") || summary (analyze_config "r") = true /\
  main (analyze_config "r") (world_of fs_D) =
    (Exited 0%Z, mkWorld fs_D [LAnalysis 1%Z 2%Z 32%Z (FixedDigits 3%Z)] [] 0 []) /\
  (w_fs (mkWorld fs_D [LAnalysis 1%Z 2%Z 32%Z (FixedDigits 3%Z)] [] 0 []) = w_fs (world_of fs_D) /\
   (@Exited unit 0%Z = Exited 0%Z \/ @Exited unit 0%Z = Exited 1%Z)).
Proof.
  assert (H : main (analyze_config "r") (world_of fs_D) =
    (Exited 0%Z, mkWorld fs_D [LAnalysis 1%Z 2%Z 32%Z (FixedDigits 3%Z)] [] 0 []))
    by (vm_compute; reflexivity).
  split; [reflexivity|]. split; [reflexivity|]. split; [reflexivity|]. split; [exact H|].
  exact (readonly_modes (analyze_config "r") _ _ _ eq_refl eq_refl eq_refl H).
Defined.

(** ** Argument parsing *)

Ltac parse_cases :=
  repeat match goal with
  | |- context [if negb (Str.includes supportedOptions ?a) then _ else _] =>
      destruct (negb (Str.includes supportedOptions a))
  | |- context [if String.eqb ?a ?b then _ else _] => destruct (String.eqb a b) eqn:?
  end.

Ltac unfold_setters :=
  unfold set_localDir, set_llmsFile, set_llmsFullFile, set_format, set_skip,
    set_exclude, set_branch, set_outputDir, set_githubUrl, set_gitlabUrl,
    set_preview, set_analyze, set_summary, set_maxSize, set_backup.

Lemma has_dot_txt v : has_dot (v ++ ".txt") = true.
Proof.
  unfold has_dot. rewrite list_ascii_of_string_app, existsb_app.
  apply orb_true_intro. right. reflexivity.
Qed.

Lemma expand_replacement_dot m b a t :
  expand_replacement m b a ("."%char :: t) = "."%char :: expand_replacement m b a t.
Proof. reflexivity. Qed.

Lemma has_dot_replace_ext s f :
  has_dot s = true -> has_dot (replace_ext s ("." ++ f)) = true.
Proof.
  intros H. unfold replace_ext. destruct (ext_match (list_ascii_of_string s)) as [[b m]|]; [|exact H].
  unfold has_dot. rewrite list_ascii_of_string_of_list_ascii, existsb_app.
  apply orb_true_intro. right. cbn [list_ascii_of_string String.append].
  rewrite expand_replacement_dot. reflexivity.
Qed.

Lemma parseArgs_dot_aux pf n : forall args c0, (List.length args < n)%nat ->
  has_dot (llmsFile c0) = true -> has_dot (llmsFullFile c0) = true ->
  match parseArgs pf args c0 with
  | PConfig c | PUndefined _ c => has_dot (llmsFile c) = true /\ has_dot (llmsFullFile c) = true
  | _ => True
  end.
Proof.
  induction n as [|n IH]; intros [|arg rest] c0 Hlen H1 H2; cbn [List.length] in Hlen;
    [lia|lia|now split|].
  cbn [parseArgs]. parse_cases; try exact I;
    destruct rest as [|v rest']; cbv beta iota zeta; cbn [List.length] in Hlen;
    try exact I; try (unfold_setters; cbn [llmsFile llmsFullFile]; now split);
    (apply IH; [cbn [List.length]; lia| |]); unfold_setters; cbn [llmsFile llmsFullFile];
    try assumption; try (destruct (has_dot v) eqn:E; [exact E|apply has_dot_txt]);
    apply has_dot_replace_ext; try assumption; apply has_dot_replace_ext, H1.
Qed.

(** Extra X8: whatever the arguments, when the option loop ends with a
    configuration, both output file names contain a dot: [--llms] and
    [--llms-full] append [.txt] to a name without one, and [--format]
    only replaces a final [.ext] by a text that starts with a dot. *)
Theorem parseArgs_names_have_dot pf args :
  match parseArgs pf args default_config with
  | PConfig c | PUndefined _ c => has_dot (llmsFile c) = true /\ has_dot (llmsFullFile c) = true
  | _ => True
  end.
Proof. apply (parseArgs_dot_aux pf (S (List.length args))); [lia|reflexivity|reflexivity]. Qed.

Lemma parseArgs_no_source_aux pf n : forall args c0, (List.length args < n)%nat ->
  ~ In "--local" args -> ~ In "--github" args -> ~ In "--gitlab" args ->
  localDir c0 = None -> githubUrl c0 = None -> gitlabUrl c0 = None ->
  match parseArgs pf args c0 with
  | PConfig c | PUndefined _ c => localDir c = None /\ githubUrl c = None /\ gitlabUrl c = None
  | _ => True
  end.
Proof.
  induction n as [|n IH]; intros [|arg rest] c0 Hlen Hl Hgh Hgl H1 H2 H3;
    cbn [List.length] in Hlen; [lia|lia|now repeat split|].
  cbn [In] in Hl, Hgh, Hgl.
  cbn [parseArgs].
  destruct (negb (Str.includes supportedOptions arg)); [exact I|].
  destruct (String.eqb arg "--local") eqn:E.
  { apply String.eqb_eq in E. now destruct Hl; left. }
  parse_cases; try exact I; destruct rest as [|v rest']; cbv beta iota zeta;
    try exact I; cbn [List.length In] in Hlen, Hl, Hgh, Hgl;
    try (unfold_setters; cbn [localDir githubUrl gitlabUrl]; now repeat split).
  all: try (apply IH; [cbn [List.length]; lia|tauto|tauto|tauto| | |];
            unfold_setters; cbn [localDir githubUrl gitlabUrl]; assumption).
  all: match goal with
       | E' : String.eqb ?x _ = true |- _ => apply String.eqb_eq in E'; subst x; tauto
       end.
Qed.

(** Extra X9: when no [--local], [--github] or [--gitlab] token is among
    the arguments and the option loop ends with a configuration, [main]
    prints the usage and exits with code 1, touching nothing else. *)
Theorem no_source_usage pf args w c :
  ~ In "--local" args -> ~ In "--github" args -> ~ In "--gitlab" args ->
  parseArgs pf args default_config = PConfig c ->
  main c w = (Exited 1%Z, mkWorld (w_fs w) (w_log w ++ [LUsage]) (w_stdin w) (w_tmp w) (w_remote w)).
Proof.
  intros Hl Hgh Hgl Hp.
  pose proof (parseArgs_no_source_aux pf (S (List.length args)) args default_config
                ltac:(lia) Hl Hgh Hgl eq_refl eq_refl eq_refl) as H.
  rewrite Hp in H. destruct H as [H1 [H2 H3]].
  unfold main. rewrite H1, H2, H3. reflexivity.
Qed.

Lemma no_source_usage_witness :
  ~ In "--local" ["--analyze"; "--branch"; "dev"] /\
  ~ In "--github" ["--analyze"; "--branch"; "dev"] /\
  ~ In "--gitlab" ["--analyze"; "--branch"; "dev"] /\
  parseArgs (fun _ => JNaN) ["--analyze"; "--branch"; "dev"] default_config =
    PConfig (set_branch "dev" (set_analyze true default_config)) /\
  main (set_branch "dev" (set_analyze true default_config)) (world_of fs_D) =
    (Exited 1%Z, mkWorld fs_D ([] ++ [LUsage]) [] 0 []).
Proof.
  assert (Hl : ~ In "--local" ["--analyze"; "--branch"; "dev"]) by (cbn; intuition discriminate).
  assert (Hgh : ~ In "--github" ["--analyze"; "--branch"; "dev"]) by (cbn; intuition discriminate).
  assert (Hgl : ~ In "--gitlab" ["--analyze"; "--branch"; "dev"]) by (cbn; intuition discriminate).
  assert (Hp : parseArgs (fun _ => JNaN) ["--analyze"; "--branch"; "dev"] default_config =
                 PConfig (set_branch "dev" (set_analyze true default_config))) by reflexivity.
  do 4 (split; [assumption|]).
  exact (no_source_usage (fun _ => JNaN) _ (world_of fs_D) _ Hl Hgh Hgl Hp).
Defined.

Lemma parseArgs_exits_aux pf n : forall args c0, (List.length args < n)%nat ->
  match parseArgs pf args c0 with
  | PInvalid a => In a args /\ Str.includes supportedOptions a = false
  | PHelp => In "--help" args
  | PTypeError => In (last args "") ["--llms"; "--llms-full"; "--format"; "--skip"; "--exclude"]
  | PUndefined f _ =>
      (f = "branch" /\ last args "" = "--branch") \/
      (f = "outputDir" /\ last args "" = "--output-dir")
  | PConfig _ => True
  end.
Proof.
  induction n as [|n IH]; intros [|arg rest] c0 Hlen; cbn [List.length] in Hlen;
    [lia|lia|exact I|].
  cbn [parseArgs]. destruct (negb (Str.includes supportedOptions arg)) eqn:Hs.
  { split; [now left|]. now apply negb_true_iff in Hs. }
  parse_cases; destruct rest as [|v rest']; cbv beta iota zeta; try exact I;
  try (match goal with
       | E : String.eqb ?x _ = true |- _ => apply String.eqb_eq in E; subst x
       end; cbn; tauto).
  all: try (match goal with |- context [parseArgs ?g ?r ?c] =>
         pose proof (IH r c ltac:(cbn [List.length] in *; lia)) as IH';
         destruct (parseArgs g r c) eqn:Hp; try rewrite Hp in IH';
         [exact I| destruct IH' as [Hin Hs']; split; [cbn [In]; tauto|exact Hs']
         | cbn [In]; tauto
         | destruct r; [discriminate Hp|exact IH']
         | destruct r; [discriminate Hp|exact IH']]
       end).
  all: match goal with |- In _ (?a :: _) =>
    left; unfold Str.includes, supportedOptions in Hs; cbn [existsb] in Hs;
    repeat match goal with E : String.eqb a _ = false |- _ => rewrite E in Hs; clear E end;
    cbn [orb negb] in Hs; destruct (String.eqb a "--help") eqn:Eh; [|discriminate Hs];
    apply String.eqb_eq in Eh; now subst a
  end.
Qed.

(** Extra X10: how the option loop can stop early.  [Deno.exit(1)] is
    only for an argument in option position that is not a supported
    option (a value taken by [args[++i]] is never checked, even when it
    looks like an option); [--help] exits only when it is among the
    arguments; a [TypeError] or an [undefined] branch or output directory
    only comes from a last argument that is an option missing its value:
    [--llms], [--llms-full], [--format], [--skip] or [--exclude] for the
    [TypeError], [--branch] or [--output-dir] for [undefined]. *)
Theorem parseArgs_exits pf args c0 :
  match parseArgs pf args c0 with
  | PInvalid a => In a args /\ Str.includes supportedOptions a = false
  | PHelp => In "--help" args
  | PTypeError => In (last args "") ["--llms"; "--llms-full"; "--format"; "--skip"; "--exclude"]
  | PUndefined f _ =>
      (f = "branch" /\ last args "" = "--branch") \/
      (f = "outputDir" /\ last args "" = "--output-dir")
  | PConfig _ => True
  end.
Proof. apply (parseArgs_exits_aux pf (S (List.length args))). lia. Qed.

(** ** Remote sources *)

(** Extra X11: when the clone of a [--github] source fails, [main] logs
    the error and exits with code 1, and the empty directory that
    [Deno.makeTempDir] created for the clone stays in the file system:
    nothing removes it on that path. *)
Theorem clone_failure_leaves_tempdir config w m es o r b p :
  truthy (githubUrl config) = true ->
  parseURL (opt_str (githubUrl config)) "https://github.com/" = RepositoryURL.mk o r b p ->
  w_fs w = EDir m es ->
  find_child ("tmp" ++ string_of_list_ascii (List.repeat "x"%char (w_tmp w))) es = None ->
  find_remote ("https://github.com/" ++ o ++ "/" ++ r ++ ".git")
    (if String.eqb b "" then Config.branch config else b) (w_remote w) = None ->
  main config w =
    (Exited 1%Z,
     mkWorld (EDir m (es ++ [EDir ("tmp" ++ string_of_list_ascii (List.repeat "x"%char (w_tmp w))) []]))
       (w_log w ++ [LError (CloneFailed ("https://github.com/" ++ o ++ "/" ++ r ++ ".git"))])
       (w_stdin w) (S (w_tmp w)) (w_remote w)).
Proof.
  intros Hgh Hu Hfs Hfind Hrem.
  unfold main. rewrite Hgh, orb_true_r. cbn [orb negb].
  unfold catch, pipeline, locateSource. rewrite Hgh. cbv zeta. rewrite Hu.
  cbn [RepositoryURL.owner RepositoryURL.repo RepositoryURL.branch RepositoryURL.path].
  unfold bind at 1. unfold bind at 1. unfold cloneRepository, bind at 1.
  unfold makeTempDir, add_top_dir. rewrite Hfs, Hfind.
  unfold git_clone, bind. cbv beta. cbn [w_remote w_fs w_log w_stdin w_tmp].
  rewrite Hrem. reflexivity.
Qed.

Lemma clone_failure_leaves_tempdir_witness :
  truthy (githubUrl (set_githubUrl (Some "o/r") default_config)) = true /\
  parseURL (opt_str (githubUrl (set_githubUrl (Some "o/r") default_config))) "https://github.com/" =
    RepositoryURL.mk "o" "r" "main" "" /\
  w_fs (world_of fs_B) = EDir "" [EDir "r" tree_B; EDir "out" []] /\
  find_child ("tmp" ++ string_of_list_ascii (List.repeat "x"%char (w_tmp (world_of fs_B))))
    [EDir "r" tree_B; EDir "out" []] = None /\
  find_remote ("https://github.com/" ++ "o" ++ "/" ++ "r" ++ ".git")
    (if String.eqb "main" "" then Config.branch (set_githubUrl (Some "o/r") default_config)
     else "main") (w_remote (world_of fs_B)) = None /\
  main (set_githubUrl (Some "o/r") default_config) (world_of fs_B) =
    (Exited 1%Z,
     mkWorld (EDir "" ([EDir "r" tree_B; EDir "out" []] ++
                       [EDir ("tmp" ++ string_of_list_ascii
                                (List.repeat "x"%char (w_tmp (world_of fs_B)))) []]))
       (w_log (world_of fs_B) ++
        [LError (CloneFailed ("https://github.com/" ++ "o" ++ "/" ++ "r" ++ ".git"))])
       (w_stdin (world_of fs_B)) (S (w_tmp (world_of fs_B))) (w_remote (world_of fs_B))).
Proof.
  assert (H1 : truthy (githubUrl (set_githubUrl (Some "o/r") default_config)) = true)
    by reflexivity.
  assert (H2 : parseURL (opt_str (githubUrl (set_githubUrl (Some "o/r") default_config)))
                 "https://github.com/" = RepositoryURL.mk "o" "r" "main" "")
    by (vm_compute; reflexivity).
  assert (H3 : w_fs (world_of fs_B) = EDir "" [EDir "r" tree_B; EDir "out" []]) by reflexivity.
  assert (H4 : find_child ("tmp" ++ string_of_list_ascii
                             (List.repeat "x"%char (w_tmp (world_of fs_B))))
                 [EDir "r" tree_B; EDir "out" []] = None) by (vm_compute; reflexivity).
  assert (H5 : find_remote ("https://github.com/" ++ "o" ++ "/" ++ "r" ++ ".git")
                 (if String.eqb "main" "" then Config.branch (set_githubUrl (Some "o/r") default_config)
                  else "main") (w_remote (world_of fs_B)) = None) by reflexivity.
  do 5 (split; [assumption|]).
  exact (clone_failure_leaves_tempdir _ _ _ _ _ _ _ _ H1 H2 H3 H4 H5).
Defined.

(** ** What a run keeps of the file system *)

Section preserves.
Variable P : FS.entry -> Prop.

Lemma keeps_preserves {A} (m : M A) : keeps_fs m -> preserves P m.
Proof. intros Hm w o w' H HP. destruct (Hm _ _ _ H) as [-> _]. exact HP. Qed.

Lemma preserves_ret {A} (a : A) : preserves P (ret a).
Proof. intros w o w' H HP. now injection H as <- <-. Qed.

Lemma preserves_exit {A} c : preserves P (@exit A c).
Proof. intros w o w' H HP. now injection H as <- <-. Qed.

Lemma preserves_throw {A} e : preserves P (@throw A e).
Proof. intros w o w' H HP. now injection H as <- <-. Qed.

Lemma preserves_log l : preserves P (log l).
Proof. intros w o w' H HP. now injection H as <- <-. Qed.

Lemma preserves_fs_read {A} (f : FS.entry -> fsr A) : preserves P (fs_read f).
Proof. apply keeps_preserves, keeps_fs_read. Qed.

Lemma preserves_fs_update f :
  (forall fs fs', f fs = inl fs' -> P fs -> P fs') -> preserves P (fs_update f).
Proof.
  intros Hf w o w' H HP. unfold fs_update in H.
  destruct (f (w_fs w)) as [fs'|e] eqn:E; injection H as <- <-; [exact (Hf _ _ E HP)|exact HP].
Qed.

Lemma preserves_bind {A B} (m : M A) (k : A -> M B) :
  preserves P m -> (forall a, preserves P (k a)) -> preserves P (bind m k).
Proof.
  intros Hm Hk w o w' H HP. unfold bind in H.
  destruct (m w) as [[a|e|c] w1] eqn:E; pose proof (Hm _ _ _ E HP) as H1.
  - exact (Hk a _ _ _ H H1).
  - now injection H as <- <-.
  - now injection H as <- <-.
Qed.

Lemma preserves_catch {A} (m : M A) (h : fserror -> M A) :
  preserves P m -> (forall e, preserves P (h e)) -> preserves P (catch m h).
Proof.
  intros Hm Hh w o w' H HP. unfold catch in H.
  destruct (m w) as [[a|e|c] w1] eqn:E; pose proof (Hm _ _ _ E HP) as H1.
  - now injection H as <- <-.
  - exact (Hh e _ _ _ H H1).
  - now injection H as <- <-.
Qed.

Lemma preserves_mapM {A B} (f : A -> M B) l :
  (forall x, preserves P (f x)) -> preserves P (mapM f l).
Proof.
  intros Hf. induction l as [|x l IH]; cbn [mapM]; [apply preserves_ret|].
  apply preserves_bind; [apply Hf|intros y].
  apply preserves_bind; [exact IH|intros ys]. apply preserves_ret.
Qed.

End preserves.

Lemma find_child_remove_other n n' ch :
  n <> n' -> find_child n (remove_child n' ch) = find_child n ch.
Proof.
  intros Hn. induction ch as [|e ch IH]; cbn; [reflexivity|].
  destruct (String.eqb (ename e) n') eqn:E; cbn.
  - apply String.eqb_eq in E. rewrite E.
    destruct (String.eqb n' n) eqn:E2; [apply String.eqb_eq in E2; congruence|reflexivity].
  - rewrite IH. reflexivity.
Qed.

Lemma write_text_dir n ch p s c' :
  write_text (EDir n ch) p s = inl c' -> exists ch', c' = EDir n ch'.
Proof.
  destruct p as [|n' p']; cbn; [discriminate|].
  destruct (find_child n' ch) as [c|].
  - destruct (write_text c p' s); [|discriminate]. intros H. injection H as <-. eexists; reflexivity.
  - destruct p'; [|discriminate]. intros H. injection H as <-. eexists; reflexivity.
Qed.

Lemma remove_dir n ch p c' :
  remove (EDir n ch) p = inl c' -> exists ch', c' = EDir n ch'.
Proof.
  destruct p as [|n' p']; cbn; [intros H; injection H as <-; eexists; reflexivity|].
  destruct (find_child n' ch) as [c|]; [|discriminate].
  destruct p'.
  - intros H. injection H as <-. eexists; reflexivity.
  - destruct (remove c (s :: p')); [|discriminate]. intros H. injection H as <-. eexists; reflexivity.
Qed.

Lemma remove_name c p c' : remove c p = inl c' -> ename c' = ename c.
Proof.
  destruct c as [fn fc|dn dch].
  - destruct p; cbn; [intros H; now injection H as <-|discriminate].
  - intros H. destruct (remove_dir _ _ _ _ H) as [ch' ->]. reflexivity.
Qed.

Lemma top_dir_dir n m ch : top_dir n (EDir m ch) <-> exists chd, find_child n ch = Some (EDir n chd).
Proof.
  unfold top_dir. cbn. destruct (find_child n ch) as [c|].
  - split; intros [chd H]; exists chd; congruence.
  - split; intros [chd H]; discriminate.
Qed.

Lemma top_dir_file n fn fc : ~ top_dir n (EFile fn fc).
Proof. intros [chd H]. discriminate. Qed.

Lemma write_text_top_dir n e p s e' :
  write_text e p s = inl e' -> top_dir n e -> top_dir n e'.
Proof.
  intros H Ht. destruct e as [fn fc|m ch]; [destruct (top_dir_file _ _ _ Ht)|].
  apply top_dir_dir in Ht as [chd Fn].
  destruct p as [|n' p']; [discriminate|]. cbn [write_text] in H.
  destruct (find_child n' ch) as [c|] eqn:Fc.
  - destruct (write_text c p' s) as [c'|err] eqn:W; [|discriminate]. injection H as <-.
    apply top_dir_dir. destruct (String.eqb n n') eqn:En.
    + apply String.eqb_eq in En. subst n'. rewrite Fn in Fc. injection Fc as <-.
      destruct (write_text_dir _ _ _ _ _ W) as [ch' ->]. exists ch'.
      now apply find_child_replace_same with (c0 := EDir n chd).
    + exists chd. rewrite find_child_replace_other; [exact Fn|congruence| |].
      * rewrite (write_text_name _ _ _ _ W). exact (find_child_name _ _ _ Fc).
      * intros E. subst n'. now rewrite String.eqb_refl in En.
  - destruct p'; [|discriminate]. injection H as <-. apply top_dir_dir.
    exists chd. now apply find_child_app_some.
Qed.

Lemma remove_top_dir n e p e' :
  remove e p = inl e' -> p <> [] -> p <> [n] -> top_dir n e -> top_dir n e'.
Proof.
  intros H Hp0 Hp Ht. destruct e as [fn fc|m ch]; [destruct (top_dir_file _ _ _ Ht)|].
  apply top_dir_dir in Ht as [chd Fn].
  destruct p as [|n' p']; [now destruct Hp0|]. cbn [remove] in H.
  destruct (find_child n' ch) as [c|] eqn:Fc; [|discriminate].
  destruct (String.eqb n n') eqn:En.
  - apply String.eqb_eq in En. subst n'. rewrite Fn in Fc. injection Fc as <-.
    destruct p' as [|x p']; [now destruct Hp|].
    destruct (remove (EDir n chd) (x :: p')) as [c'|err] eqn:R; [|discriminate].
    injection H as <-. apply top_dir_dir.
    destruct (remove_dir _ _ _ _ R) as [ch' ->]. exists ch'.
    now apply find_child_replace_same with (c0 := EDir n chd).
  - assert (Hne : n <> n') by (intros E; subst n'; now rewrite String.eqb_refl in En).
    destruct p' as [|x p'].
    + injection H as <-. apply top_dir_dir. exists chd.
      rewrite find_child_remove_other; assumption.
    + destruct (remove c (x :: p')) as [c'|err] eqn:R; [|discriminate].
      injection H as <-. apply top_dir_dir. exists chd.
      rewrite find_child_replace_other; [exact Fn|congruence| |exact Hne].
      rewrite (remove_name _ _ _ R). exact (find_child_name _ _ _ Fc).
Qed.

Lemma writeFiles_top_dir n a b files ps od bk :
  preserves (top_dir n) (writeFiles a b files ps od bk).
Proof.
  assert (Hw : forall q s, preserves (top_dir n) (writeTextFile q s)).
  { intros q s. apply preserves_fs_update. intros fs fs' H. now apply write_text_top_dir with q s. }
  unfold writeFiles. cbv zeta.
  apply preserves_bind; [|intros _].
  { destruct bk; [|apply preserves_ret].
    assert (Hb : forall q, preserves (top_dir n) (backupOne q)).
    { intros q. unfold backupOne. apply preserves_catch.
      - apply preserves_bind; [apply preserves_fs_read|intros _].
        apply preserves_bind; [|intros _; apply preserves_log].
        apply preserves_fs_update. intros fs fs' H. unfold copy_file in H.
        destruct (read_text fs q) as [c|e]; [|discriminate].
        now apply write_text_top_dir with (backup_path q) c.
      - intros []; first [apply preserves_ret|apply preserves_throw]. }
    apply preserves_bind; [apply Hb|intros _; apply Hb]. }
  apply preserves_bind; [apply Hw|intros _].
  apply preserves_bind; [apply preserves_mapM; intros x; apply preserves_fs_read|intros cs].
  apply preserves_bind; [apply Hw|intros _]. apply preserves_log.
Qed.

Lemma bind_inv {A B} (m : M A) (k : A -> M B) w o w' :
  bind m k w = (o, w') ->
  (exists a w1, m w = (Ret a, w1) /\ k a w1 = (o, w')) \/
  (exists e, m w = (Thrown e, w') /\ o = Thrown e) \/
  (exists c, m w = (Exited c, w') /\ o = Exited c).
Proof.
  unfold bind. destruct (m w) as [[a|e|c] w1]; intros H.
  - left. now exists a, w1.
  - right; left. injection H as <- <-. now exists e.
  - right; right. injection H as <- <-. now exists c.
Qed.

Lemma find_child_app_new_dir n ch es :
  find_child n es = None -> find_child n (es ++ [EDir n ch]) = Some (EDir n ch).
Proof.
  induction es as [|y es IH]; cbn; [now rewrite String.eqb_refl|].
  destruct (String.eqb (ename y) n); [discriminate|exact IH].
Qed.

(** [cloneRepository] leaves its temporary directory in the tree, and
    returns it when the clone succeeds. *)
Lemma cloneRepository_top_dir url br w m es o w' :
  w_fs w = EDir m es ->
  find_child ("tmp" ++ string_of_list_ascii (List.repeat "x"%char (w_tmp w))) es = None ->
  cloneRepository url br w = (o, w') ->
  top_dir ("tmp" ++ string_of_list_ascii (List.repeat "x"%char (w_tmp w))) (w_fs w') /\
  (forall a, o = Ret a -> a = [("tmp" ++ string_of_list_ascii (List.repeat "x"%char (w_tmp w)))%string]).
Proof.
  set (n := ("tmp" ++ string_of_list_ascii (List.repeat "x"%char (w_tmp w)))%string).
  intros Hfs Hfind H. unfold cloneRepository, bind, makeTempDir, add_top_dir in H.
  rewrite Hfs in H. fold n in H. rewrite Hfind in H.
  unfold git_clone in H. cbn [w_remote w_fs w_log w_stdin w_tmp] in H.
  destruct (find_remote url br (w_remote w)) as [t|].
  - cbn in H. injection H as <- <-. split; [|now intros a [= <-]].
    apply top_dir_dir. exists t. cbn [w_fs].
    apply find_child_replace_same with (c0 := EDir n []); [reflexivity|].
    now apply find_child_app_new_dir.
  - injection H as <- <-. split; [|discriminate].
    apply top_dir_dir. exists []. now apply find_child_app_new_dir.
Qed.

(** Extra X12: with a [--github] source whose URL names a sub-path, the
    clean-up at the end of [main] removes [join(dirPath, path)], not the
    temporary directory of the clone.  When that joined path is neither
    the temporary directory itself (as for the sub-path [.]) nor the
    directory above it (as for [..]), the temporary directory is still
    in the file system after the run, whatever the run ends with. *)
Theorem remote_subpath_keeps_clone config w m es o r b p out w' :
  truthy (githubUrl config) = true ->
  parseURL (opt_str (githubUrl config)) "https://github.com/" = RepositoryURL.mk o r b p ->
  join [("tmp" ++ string_of_list_ascii (List.repeat "x"%char (w_tmp w)))%string] p <>
    [("tmp" ++ string_of_list_ascii (List.repeat "x"%char (w_tmp w)))%string] ->
  join [("tmp" ++ string_of_list_ascii (List.repeat "x"%char (w_tmp w)))%string] p <> [] ->
  w_fs w = EDir m es ->
  find_child ("tmp" ++ string_of_list_ascii (List.repeat "x"%char (w_tmp w))) es = None ->
  main config w = (out, w') ->
  top_dir ("tmp" ++ string_of_list_ascii (List.repeat "x"%char (w_tmp w))) (w_fs w').
Proof.
  intros Hgh Hu Hj Hj0 Hfs Hfind H.
  assert (Hp : String.eqb p "" = false).
  { destruct (String.eqb p "") eqn:Ep; [|reflexivity].
    apply String.eqb_eq in Ep. subst p. exfalso. apply Hj. reflexivity. }
  unfold main in H. rewrite Hgh, orb_true_r in H. cbn [orb negb] in H.
  unfold catch in H. destruct (pipeline config w) as [o1 w1] eqn:E.
  assert (Ht : top_dir ("tmp" ++ string_of_list_ascii (List.repeat "x"%char (w_tmp w))) (w_fs w1)).
  { unfold pipeline, locateSource in E. rewrite Hgh in E. cbv beta iota zeta in E.
    rewrite Hu in E.
    cbn [RepositoryURL.owner RepositoryURL.repo RepositoryURL.branch RepositoryURL.path] in E.
    rewrite Hp in E.
    apply bind_inv in E as [[a [w2 [EL EK]]]|[[e [EL _]]|[c [EL _]]]];
      apply bind_inv in EL as [[d [w3 [EC ER]]]|[[e' [EC Eo]]|[c' [EC Eo]]]];
      try discriminate;
      try (exact (proj1 (cloneRepository_top_dir _ _ _ _ _ _ _ Hfs Hfind EC))).
    - injection ER as <- <-.
      destruct (cloneRepository_top_dir _ _ _ _ _ _ _ Hfs Hfind EC) as [Ht3 Hd].
      rewrite (Hd d eq_refl) in EK.
      match type of EK with
      | ?f _ = _ => enough (HK : preserves (top_dir ("tmp" ++
                        string_of_list_ascii (List.repeat "x"%char (w_tmp w)))) f)
                      by exact (HK _ _ _ EK Ht3)
      end.
      apply preserves_bind; [apply keeps_preserves, keeps_getDirectory|intros [files fullPaths]].
      cbv beta iota.
      apply preserves_bind; [apply keeps_preserves, keeps_previewStep|intros _].
      apply preserves_bind; [|intros _].
      { destruct (analyze config); [|apply preserves_ret].
        apply preserves_bind; [apply keeps_preserves, keeps_analyzeOption|intros _].
        apply preserves_exit. }
      apply preserves_bind; [|intros _].
      { destruct (summary config); [|apply preserves_ret].
        apply preserves_bind; [apply preserves_log|intros _]. apply preserves_exit. }
      apply preserves_bind; [apply writeFiles_top_dir|intros _].
      destruct (_ || _); [|apply preserves_ret].
      apply preserves_fs_update. intros fs fs' HR. exact (remove_top_dir _ _ _ _ HR Hj0 Hj). }
  destruct o1 as [a|e|c].
  - injection H as _ <-. exact Ht.
  - cbv [bind log exit] in H. injection H as _ <-. exact Ht.
  - injection H as _ <-. exact Ht.
Qed.

Lemma remote_subpath_keeps_clone_witness :
  truthy (githubUrl remote_config) = true /\
  parseURL (opt_str (githubUrl remote_config)) "https://github.com/" =
    RepositoryURL.mk "o" "r" "main" "docs" /\
  join [("tmp" ++ string_of_list_ascii (List.repeat "x"%char (w_tmp world_R)))%string] "docs" <>
    [("tmp" ++ string_of_list_ascii (List.repeat "x"%char (w_tmp world_R)))%string] /\
  join [("tmp" ++ string_of_list_ascii (List.repeat "x"%char (w_tmp world_R)))%string] "docs" <>
    [] /\
  w_fs world_R = EDir "" [EDir "out" []] /\
  find_child ("tmp" ++ string_of_list_ascii (List.repeat "x"%char (w_tmp world_R)))
    [EDir "out" []] = None /\
  main remote_config world_R = (Ret tt, world_R_after) /\
  top_dir ("tmp" ++ string_of_list_ascii (List.repeat "x"%char (w_tmp world_R))) (w_fs world_R_after).
Proof.
  assert (H1 : truthy (githubUrl remote_config) = true) by reflexivity.
  assert (H2 : parseURL (opt_str (githubUrl remote_config)) "https://github.com/" =
                 RepositoryURL.mk "o" "r" "main" "docs") by (vm_compute; reflexivity).
  assert (H3 : join [("tmp" ++ string_of_list_ascii (List.repeat "x"%char (w_tmp world_R)))%string]
                 "docs" <>
               [("tmp" ++ string_of_list_ascii (List.repeat "x"%char (w_tmp world_R)))%string])
    by (vm_compute; intros H; discriminate H).
  assert (H4 : join [("tmp" ++ string_of_list_ascii (List.repeat "x"%char (w_tmp world_R)))%string]
                 "docs" <> []) by (vm_compute; intros H; discriminate H).
  assert (H5 : w_fs world_R = EDir "" [EDir "out" []]) by reflexivity.
  assert (H6 : find_child ("tmp" ++ string_of_list_ascii (List.repeat "x"%char (w_tmp world_R)))
                 [EDir "out" []] = None) by (vm_compute; reflexivity).
  assert (H7 : main remote_config world_R = (Ret tt, world_R_after)) by (vm_compute; reflexivity).
  do 7 (split; [assumption|]).
  exact (remote_subpath_keeps_clone _ _ _ _ _ _ _ _ _ _ H1 H2 H3 H4 H5 H6 H7).
Defined.

(** ** Clean-up of the clone *)

Lemma names_replace_child n c' ch :
  ename c' = n -> map ename (replace_child n c' ch) = map ename ch.
Proof.
  intros Hc. induction ch as [|e ch IH]; cbn; [reflexivity|].
  destruct (String.eqb (ename e) n) eqn:E; cbn.
  - apply String.eqb_eq in E. now rewrite Hc, E.
  - now rewrite IH.
Qed.

Lemma count_names n ch ch' :
  map ename ch' = map ename ch ->
  List.length (filter (fun e => String.eqb (ename e) n) ch') =
  List.length (filter (fun e => String.eqb (ename e) n) ch).
Proof.
  revert ch. induction ch' as [|e' ch' IH]; intros [|e ch] H; try discriminate; [reflexivity|].
  injection H as He Hr. cbn. rewrite He.
  destruct (String.eqb (ename e) n); cbn [List.length]; rewrite (IH _ Hr); reflexivity.
Qed.

Lemma count_none n ch :
  find_child n ch = None -> List.length (filter (fun e => String.eqb (ename e) n) ch) = 0%nat.
Proof.
  induction ch as [|e ch IH]; cbn; [reflexivity|].
  destruct (String.eqb (ename e) n); [discriminate|exact IH].
Qed.

Lemma count_app n ch l :
  List.length (filter (fun e => String.eqb (ename e) n) (ch ++ l)) =
  (List.length (filter (fun e => String.eqb (ename e) n) ch) +
   List.length (filter (fun e => String.eqb (ename e) n) l))%nat.
Proof. now rewrite filter_app, length_app. Qed.

Lemma count_remove_le n n' ch :
  (List.length (filter (fun e => String.eqb (ename e) n) (remove_child n' ch)) <=
   List.length (filter (fun e => String.eqb (ename e) n) ch))%nat.
Proof.
  induction ch as [|e ch IH]; cbn; [lia|].
  destruct (String.eqb (ename e) n'); cbn [filter];
    destruct (String.eqb (ename e) n); cbn [List.length]; lia.
Qed.

Lemma count_zero_none n ch :
  List.length (filter (fun e => String.eqb (ename e) n) ch) = 0%nat -> find_child n ch = None.
Proof.
  induction ch as [|e ch IH]; cbn; [reflexivity|].
  destruct (String.eqb (ename e) n); [discriminate|exact IH].
Qed.

Lemma count_remove_found n ch c :
  find_child n ch = Some c ->
  (List.length (filter (fun e => String.eqb (ename e) n) ch) <= 1)%nat ->
  find_child n (remove_child n ch) = None.
Proof.
  induction ch as [|e ch IH]; cbn; [discriminate|].
  destruct (String.eqb (ename e) n) eqn:E.
  - intros _ Hc. cbn [List.length] in Hc. apply count_zero_none. lia.
  - intros Hf Hc. cbn. rewrite E. exact (IH Hf Hc).
Qed.

Lemma write_text_root_count n e p s e' :
  write_text e p s = inl e' -> (root_count n e <= 1)%nat -> (root_count n e' <= 1)%nat.
Proof.
  destruct e as [fn fc|m ch], p as [|n' p']; cbn [write_text]; try discriminate.
  - intros H. injection H as <-. cbn. lia.
  - destruct (find_child n' ch) as [c|] eqn:Fc.
    + destruct (write_text c p' s) as [c'|err] eqn:W; [|discriminate].
      intros H. injection H as <-. cbn [root_count].
      rewrite (count_names n ch (replace_child n' c' ch)); [exact (fun H => H)|].
      apply names_replace_child.
      rewrite (write_text_name _ _ _ _ W). exact (find_child_name _ _ _ Fc).
    + destruct p'; [|discriminate]. intros H. injection H as <-. cbn [root_count].
      rewrite count_app. cbn [filter ename].
      destruct (String.eqb n' n) eqn:En; cbn [List.length]; [|lia].
      apply String.eqb_eq in En. subst n'. rewrite (count_none _ _ Fc). lia.
Qed.

Lemma writeFiles_preserves (P : FS.entry -> Prop) a b files ps od bk :
  (forall e p s e', write_text e p s = inl e' -> P e -> P e') ->
  preserves P (writeFiles a b files ps od bk).
Proof.
  intros HP.
  assert (Hw : forall q s, preserves P (writeTextFile q s)).
  { intros q s. apply preserves_fs_update. intros fs fs' H. now apply HP with q s. }
  unfold writeFiles. cbv zeta.
  apply preserves_bind; [|intros _].
  { destruct bk; [|apply preserves_ret].
    assert (Hb : forall q, preserves P (backupOne q)).
    { intros q. unfold backupOne. apply preserves_catch.
      - apply preserves_bind; [apply preserves_fs_read|intros _].
        apply preserves_bind; [|intros _; apply preserves_log].
        apply preserves_fs_update. intros fs fs' H. unfold copy_file in H.
        destruct (read_text fs q) as [c|e]; [|discriminate].
        now apply HP with (backup_path q) c.
      - intros []; first [apply preserves_ret|apply preserves_throw]. }
    apply preserves_bind; [apply Hb|intros _; apply Hb]. }
  apply preserves_bind; [apply Hw|intros _].
  apply preserves_bind; [apply preserves_mapM; intros x; apply preserves_fs_read|intros cs].
  apply preserves_bind; [apply Hw|intros _]. apply preserves_log.
Qed.

(** [cloneRepository] adds exactly one top-level entry with the name of
    its temporary directory. *)
Lemma cloneRepository_root_count url br w m es o w' :
  w_fs w = EDir m es ->
  find_child ("tmp" ++ string_of_list_ascii (List.repeat "x"%char (w_tmp w))) es = None ->
  cloneRepository url br w = (o, w') ->
  root_count ("tmp" ++ string_of_list_ascii (List.repeat "x"%char (w_tmp w))) (w_fs w') = 1%nat.
Proof.
  set (n := ("tmp" ++ string_of_list_ascii (List.repeat "x"%char (w_tmp w)))%string).
  intros Hfs Hfind H. unfold cloneRepository, bind, makeTempDir, add_top_dir in H.
  rewrite Hfs in H. fold n in H. rewrite Hfind in H.
  unfold git_clone in H. cbn [w_remote w_fs w_log w_stdin w_tmp] in H.
  assert (Hc : List.length (filter (fun e => String.eqb (ename e) n) (es ++ [EDir n []])) = 1%nat).
  { rewrite count_app, (count_none _ _ Hfind). cbn. now rewrite String.eqb_refl. }
  destruct (find_remote url br (w_remote w)) as [t|].
  - cbn in H. injection H as <- <-. cbn [w_fs root_count].
    rewrite (count_names n (es ++ [EDir n []])); [exact Hc|].
    now apply names_replace_child.
  - injection H as <- <-. exact Hc.
Qed.

(** Extra X13: with a [--github] source whose URL names no sub-path, a
    run that completes removes the clone: afterwards no top-level entry
    has the name of the temporary directory. *)
Theorem remote_cleanup_removes_clone config w m es o r b w' :
  truthy (githubUrl config) = true ->
  parseURL (opt_str (githubUrl config)) "https://github.com/" = RepositoryURL.mk o r b "" ->
  w_fs w = EDir m es ->
  find_child ("tmp" ++ string_of_list_ascii (List.repeat "x"%char (w_tmp w))) es = None ->
  main config w = (Ret tt, w') ->
  lookup (w_fs w') [("tmp" ++ string_of_list_ascii (List.repeat "x"%char (w_tmp w)))%string] =
    inr NotFound.
Proof.
  intros Hgh Hu Hfs Hfind H.
  unfold main in H. rewrite Hgh, orb_true_r in H. cbn [orb negb] in H.
  apply catch_ret_inv in H as [E|[e [w1 [_ Eh]]]].
  2:{ cbv [bind log exit] in Eh. discriminate. }
  unfold pipeline, locateSource in E. rewrite Hgh in E. cbv beta iota zeta in E.
  rewrite Hu in E.
  cbn [RepositoryURL.owner RepositoryURL.repo RepositoryURL.branch RepositoryURL.path] in E.
  rewrite String.eqb_refl in E.
  apply bind_ret_inv in E as [d [w2 [EL EK]]].
  apply bind_ret_inv in EL as [d' [w3 [EC ER]]]. injection ER as <- <-.
  destruct (cloneRepository_top_dir _ _ _ _ _ _ _ Hfs Hfind EC) as [_ Hd].
  specialize (Hd d' eq_refl). subst d'.
  pose proof (cloneRepository_root_count _ _ _ _ _ _ _ Hfs Hfind EC) as Hc.
  set (n := ("tmp" ++ string_of_list_ascii (List.repeat "x"%char (w_tmp w)))%string) in *.
  set (P := fun fs => (root_count n fs <= 1)%nat).
  assert (HP2 : P (w_fs w3)) by (unfold P; lia).
  clearbody n. clear Hc.
  cbv beta in EK.
  apply bind_ret_inv in EK as [[files fullPaths] [w4 [E4 EK]]].
  assert (HP4 : P (w_fs w4))
    by exact (keeps_preserves P _ (keeps_getDirectory _ _ _ _ _) _ _ _ E4 HP2).
  apply bind_ret_inv in EK as [u5 [w5 [E5 EK]]].
  assert (HP5 : P (w_fs w5))
    by exact (keeps_preserves P _ (keeps_previewStep _ _) _ _ _ E5 HP4).
  apply bind_ret_inv in EK as [u6 [w6 [E6 EK]]].
  destruct (analyze config).
  { apply bind_ret_inv in E6 as [u [wx [_ Ex]]]. discriminate. }
  injection E6; intros; subst w6.
  apply bind_ret_inv in EK as [u7 [w7 [E7 EK]]].
  destruct (summary config).
  { apply bind_ret_inv in E7 as [u [wx [_ Ex]]]. discriminate. }
  injection E7; intros; subst w7.
  apply bind_ret_inv in EK as [u8 [w8 [E8 EK]]].
  assert (HP8 : P (w_fs w8)).
  { refine (writeFiles_preserves P _ _ _ _ _ _ _ _ _ _ E8 HP5).
    intros e p s e' Hw. unfold P. now apply write_text_root_count with p s. }
  cbn [orb] in EK.
  unfold removeRecursive, fs_update in EK.
  destruct (remove (w_fs w8) [n]) as [fs'|err] eqn:R; [|discriminate].
  injection EK as <-. cbn [w_fs].
  destruct (w_fs w8) as [fn fc|m8 ch8]; [discriminate|].
  cbn [remove] in R. destruct (find_child n ch8) as [c|] eqn:Fc; [|discriminate].
  injection R as <-. unfold P in HP8. cbn [root_count] in HP8.
  cbn [lookup]. rewrite (count_remove_found _ _ _ Fc HP8). reflexivity.
Qed.

Lemma remote_cleanup_removes_clone_witness :
  truthy (githubUrl remote_config_root) = true /\
  parseURL (opt_str (githubUrl remote_config_root)) "https://github.com/" =
    RepositoryURL.mk "o" "r" "main" "" /\
  w_fs world_R = EDir "" [EDir "out" []] /\
  find_child ("tmp" ++ string_of_list_ascii (List.repeat "x"%char (w_tmp world_R)))
    [EDir "out" []] = None /\
  main remote_config_root world_R = (Ret tt, snd (main remote_config_root world_R)) /\
  lookup (w_fs (snd (main remote_config_root world_R)))
    [("tmp" ++ string_of_list_ascii (List.repeat "x"%char (w_tmp world_R)))%string] =
    inr NotFound.
Proof.
  assert (H1 : truthy (githubUrl remote_config_root) = true) by reflexivity.
  assert (H2 : parseURL (opt_str (githubUrl remote_config_root)) "https://github.com/" =
                 RepositoryURL.mk "o" "r" "main" "") by (vm_compute; reflexivity).
  assert (H3 : w_fs world_R = EDir "" [EDir "out" []]) by reflexivity.
  assert (H4 : find_child ("tmp" ++ string_of_list_ascii (List.repeat "x"%char (w_tmp world_R)))
                 [EDir "out" []] = None) by (vm_compute; reflexivity).
  assert (H5 : main remote_config_root world_R = (Ret tt, snd (main remote_config_root world_R)))
    by (vm_compute; reflexivity).
  do 5 (split; [assumption|]).
  exact (remote_cleanup_removes_clone _ _ _ _ _ _ _ _ H1 H2 H3 H4 H5).
Defined.

(** * Every completed run *)

(** ** Paths under a directory *)

Lemma under_app dir q : under dir (dir ++ q) = true.
Proof.
  unfold under. rewrite firstn_app, Nat.sub_diag, firstn_all, firstn_O, app_nil_r.
  destruct (list_eq_dec string_dec dir dir); [reflexivity|contradiction].
Qed.

Lemma under_nil q : under [] q = true.
Proof. unfold under. cbn. destruct (list_eq_dec string_dec [] []); [reflexivity|contradiction]. Qed.

Lemma under_cons n dir x q : under (n :: dir) (x :: q) = (String.eqb x n && under dir q).
Proof.
  unfold under. cbn [List.length firstn].
  destruct (list_eq_dec string_dec (x :: firstn (List.length dir) q) (n :: dir)) as [E|E].
  - injection E as Ex Eq. subst x. rewrite String.eqb_refl. cbn [andb].
    destruct (list_eq_dec string_dec (firstn (List.length dir) q) dir); [reflexivity|contradiction].
  - destruct (String.eqb_spec x n) as [->|Hx]; cbn [andb]; [|reflexivity].
    destruct (list_eq_dec string_dec (firstn (List.length dir) q) dir) as [E'|]; [|reflexivity].
    exfalso. apply E. now rewrite E'.
Qed.

Lemma read_text_cons m ch x q :
  read_text (EDir m ch) (x :: q) =
  match find_child x ch with Some c => read_text c q | None => inr NotFound end.
Proof. unfold read_text. cbn [lookup]. destruct (find_child x ch); reflexivity. Qed.

(** Removing [dir] leaves every file outside it as it was. *)
Lemma remove_read_other dir : forall e e' q,
  remove e dir = inl e' -> under dir q = false -> read_text e' q = read_text e q.
Proof.
  induction dir as [|n p IH]; intros e e' q H Hu.
  - now rewrite under_nil in Hu.
  - destruct e as [fn fc|m ch]; [discriminate|]. cbn [remove] in H.
    destruct (find_child n ch) as [c|] eqn:Fc; [|discriminate].
    destruct q as [|x q].
    + destruct p as [|y p].
      * injection H as <-. reflexivity.
      * destruct (remove c (y :: p)); [|discriminate]. injection H as <-. reflexivity.
    + rewrite under_cons in Hu.
      destruct (String.eqb_spec x n) as [->|Hxn].
      * cbn [andb] in Hu. destruct p as [|y p].
        -- rewrite under_nil in Hu. discriminate.
        -- destruct (remove c (y :: p)) as [c'|err] eqn:R; [|discriminate]. injection H as <-.
           rewrite !read_text_cons, Fc.
           rewrite (find_child_replace_same n c c' ch);
             [|rewrite (remove_name _ _ _ R); exact (find_child_name _ _ _ Fc)|exact Fc].
           exact (IH _ _ _ R Hu).
      * destruct p as [|y p].
        -- injection H as <-. rewrite !read_text_cons, find_child_remove_other; [reflexivity|exact Hxn].
        -- destruct (remove c (y :: p)) as [c'|err] eqn:R; [|discriminate]. injection H as <-.
           rewrite !read_text_cons, find_child_replace_other; [reflexivity|congruence| |exact Hxn].
           rewrite (remove_name _ _ _ R). exact (find_child_name _ _ _ Fc).
Qed.

Lemma read_text_app fs root e q :
  lookup fs root = inl e -> read_text fs (root ++ q) = read_text e q.
Proof. intros H. unfold read_text. now rewrite lookup_app, H. Qed.

(** ** The matched list does not depend on where the tree is *)

Lemma files_of_shift root e : forall cur dirs,
  files_of (root ++ cur) dirs e =
  map (fun f => mkFound (root ++ found_path f) (found_dirs f) (found_name f) (found_size f))
    (files_of cur dirs e).
Proof.
  induction e as [n c|n ch IH] using entry_ind'; intros cur dirs.
  - cbn. now rewrite app_assoc.
  - rewrite !files_of_dir, <- app_assoc.
    induction ch as [|x ch IHch]; cbn [flat_map]; [reflexivity|].
    rewrite map_app, (Forall_inv IH), (IHch (Forall_inv_tail IH)). reflexivity.
Qed.

Lemma keep_shift skip exclude maxSize root (l : list found) :
  map found_path
    (filter (spec_keep skip exclude maxSize)
       (map (fun f => mkFound (root ++ found_path f) (found_dirs f) (found_name f) (found_size f)) l)) =
  map (app root) (map found_path (filter (spec_keep skip exclude maxSize) l)).
Proof.
  induction l as [|[fp fd fn fs] l IHl]; [reflexivity|].
  cbn [map filter found_path found_dirs found_name found_size].
  change (spec_keep skip exclude maxSize (mkFound (root ++ fp) fd fn fs))
    with (spec_keep skip exclude maxSize (mkFound fp fd fn fs)).
  destruct (spec_keep skip exclude maxSize (mkFound fp fd fn fs)); cbn [map];
    rewrite IHl; reflexivity.
Qed.

Lemma spec_matched_shift skip exclude maxSize root es :
  spec_matched skip exclude maxSize root es =
  map (app root) (spec_matched skip exclude maxSize [] es).
Proof.
  unfold spec_matched, all_files.
  induction es as [|e es IH]; cbn [flat_map]; [reflexivity|].
  rewrite !filter_app, !map_app, IH. f_equal.
  pose proof (files_of_shift root e [] []) as Hs. rewrite app_nil_r in Hs. rewrite Hs.
  apply keep_shift.
Qed.

Lemma relative_shift root (qs : list path) :
  map (relative root) (map (app root) qs) = map render qs.
Proof. rewrite map_map. apply map_ext. intros q. apply relative_prefix. Qed.

Lemma Forall2_map_inv {A A' B} (g : A -> A') (P : A' -> B -> Prop) l : forall l2,
  Forall2 P (map g l) l2 -> Forall2 (fun a b => P (g a) b) l l2.
Proof.
  induction l as [|a l IH]; intros l2 H; inversion H; subst; constructor; auto.
Qed.

(** ** What a completed run did *)

Lemma bind_thrown_eq {A B} (m : M A) (k : A -> M B) w e w1 :
  m w = (Thrown e, w1) -> bind m k w = (Thrown e, w1).
Proof. intros H. unfold bind. now rewrite H. Qed.

(** A run of [main] that returns normally located its source, walked
    it, went past the preview without changing the file system, ran
    [writeFiles] on the matched list and, for a GitHub or GitLab source,
    removed [dirPath]. *)
Lemma main_ret_inv config w w' :
  main config w = (Ret tt, w') ->
  exists root v n es v2 v3,
    locateSource config w = (Ret root, v) /\
    lookup (w_fs v) root = inl (EDir n es) /\
    w_fs v2 = w_fs v /\
    writeFiles (llmsFile config) (llmsFullFile config)
      (map (relative root) (spec_matched (skip config) (exclude config) (maxSize config) root es))
      (spec_matched (skip config) (exclude config) (maxSize config) root es)
      (outputDir config) (Config.backup config) v2 = (Ret tt, v3) /\
    (if remote_source config then remove (w_fs v3) root = inl (w_fs w') else w' = v3).
Proof.
  intros H. unfold main in H.
  destruct (negb _); [cbv [bind log exit] in H; discriminate|].
  apply catch_ret_inv in H as [H|[e [w1 [_ Hh]]]]; [|cbv [bind log exit] in Hh; discriminate].
  unfold pipeline in H.
  apply bind_ret_inv in H as [root [v [Hsrc H]]].
  apply bind_ret_inv in H as [[files fps] [v1 [Hg H]]].
  assert (Hl : exists n es, lookup (w_fs v) root = inl (EDir n es)).
  { unfold getDirectory in Hg. apply bind_ret_inv in Hg as [es [v1' [Hrd _]]].
    unfold readDir, fs_read in Hrd.
    destruct (lookup (w_fs v) root) as [[fn fc|n es']|err]; cbn in Hrd; try discriminate.
    now exists n, es'. }
  destruct Hl as [n [es Hl]].
  rewrite (getDirectory_spec _ _ _ _ _ _ _ Hl) in Hg. injection Hg as <- <- <-.
  apply bind_ret_inv in H as [[] [v2 [Hpv H]]].
  destruct (keeps_previewStep _ _ _ _ _ Hpv) as [Hfs2 _].
  apply bind_ret_inv in H as [[] [v3 [Han H]]].
  destruct (analyze config).
  { apply bind_ret_inv in Han as [[] [u [_ Hx]]]. cbv [exit] in Hx. discriminate. }
  cbv [ret] in Han. injection Han as <-.
  apply bind_ret_inv in H as [[] [v4 [Hsu H]]].
  destruct (summary config).
  { apply bind_ret_inv in Hsu as [[] [u [_ Hx]]]. cbv [exit] in Hx. discriminate. }
  cbv [ret] in Hsu. injection Hsu as <-.
  apply bind_ret_inv in H as [[] [v5 [Hw H]]].
  exists root, v, n, es, v2, v5.
  do 4 (split; [assumption|]).
  unfold remote_source. destruct (truthy (githubUrl config) || truthy (gitlabUrl config)).
  - unfold removeRecursive, fs_update in H.
    destruct (remove (w_fs v5) root); [|discriminate]. now injection H as <-.
  - cbv [ret] in H. now injection H as <-.
Qed.

Lemma locateSource_nonremote config w :
  remote_source config = false ->
  locateSource config w = (Ret (of_string (opt_str (localDir config))), w).
Proof.
  unfold remote_source, locateSource.
  destruct (truthy (githubUrl config)), (truthy (gitlabUrl config)); try discriminate.
  reflexivity.
Qed.

(** ** C2 *)

(** Claim C2 (corrected): after a run that returns normally (the run
    writes its outputs), the link-index file holds one heading line
    [# N] followed by a blank line, then one line [- [basename f](f)]
    per matched file [f], in the order of the walk, where [f] is the
    path of the file relative to the traversal root.  This covers local
    and remote sources, with or without a confirmed preview.  [N] is
    not the repository or directory name: it is the base name of the
    link-index path with every [.txt] and [llms-] removed ([llms] for
    the default [llms.txt]).  This holds when the link-index and
    full-content paths differ (otherwise the full content overwrites
    the link index) and, for a GitHub or GitLab source, when the
    link-index file is not inside the directory the clean-up removes. *)
Theorem link_index_content (config : Config.config) (w w' v : world) (root : path)
    (n : string) (es : list FS.entry) :
  locateSource config w = (Ret root, v) ->
  lookup (w_fs v) root = inl (EDir n es) ->
  output_path (outputDir config) (llmsFile config) <>
    output_path (outputDir config) (llmsFullFile config) ->
  (remote_source config = true ->
   under root (output_path (outputDir config) (llmsFile config)) = false) ->
  main config w = (Ret tt, w') ->
  read_text (w_fs w') (output_path (outputDir config) (llmsFile config)) =
    inl ("# " ++ Str.replace_txt_llms
                  (basename (render (output_path (outputDir config) (llmsFile config))))
         ++ nl ++ nl ++
         String.concat nl
           (map (fun p =>
                   let f := relative root p in
                   "- [" ++ basename f ++ "](" ++ f ++ ")")
              (spec_matched (skip config) (exclude config) (maxSize config) root es)))%string.
Proof.
  intros Hsrc Hl Hne Hu Hm.
  destruct (main_ret_inv _ _ _ Hm)
    as [root' [v' [n' [es' [v2 [v3 [Hsrc' [Hl' [_ [Hw Hrm]]]]]]]]]].
  rewrite Hsrc in Hsrc'. injection Hsrc' as <- <-.
  rewrite Hl in Hl'. injection Hl' as <- <-.
  destruct (writeFiles_full_content _ _ _ _ _ _ _ _ Hw) as [cs [_ [_ Hlp]]].
  assert (Hfin : read_text (w_fs w') (output_path (outputDir config) (llmsFile config)) =
                 read_text (w_fs v3) (output_path (outputDir config) (llmsFile config))).
  { destruct (remote_source config).
    - exact (remove_read_other _ _ _ _ Hrm (Hu eq_refl)).
    - now subst w'. }
  rewrite Hfin, (Hlp Hne). unfold llms_text, heading. rewrite map_map.
  rewrite !string_app_assoc. reflexivity.
Qed.

(** Over the [--github] source of [remote_config], cloned into [tmp]
    with the sub-path [docs]. *)
Lemma link_index_content_witness :
  locateSource remote_config world_R =
    (Ret ["tmp"; "docs"], snd (locateSource remote_config world_R)) /\
  lookup (w_fs (snd (locateSource remote_config world_R))) ["tmp"; "docs"] =
    inl (EDir "docs" [EFile "a.md" "x"]) /\
  output_path (outputDir remote_config) (llmsFile remote_config) <>
    output_path (outputDir remote_config) (llmsFullFile remote_config) /\
  under ["tmp"; "docs"] (output_path (outputDir remote_config) (llmsFile remote_config)) = false /\
  main remote_config world_R = (Ret tt, world_R_after) /\
  read_text (w_fs world_R_after) (output_path (outputDir remote_config) (llmsFile remote_config)) =
    inl ("# " ++ Str.replace_txt_llms
                  (basename (render (output_path (outputDir remote_config)
                                       (llmsFile remote_config))))
         ++ nl ++ nl ++
         String.concat nl
           (map (fun p =>
                   let f := relative ["tmp"; "docs"] p in
                   "- [" ++ basename f ++ "](" ++ f ++ ")")
              (spec_matched (skip remote_config) (exclude remote_config)
                 (maxSize remote_config) ["tmp"; "docs"] [EFile "a.md" "x"])))%string.
Proof.
  assert (H1 : locateSource remote_config world_R =
                 (Ret ["tmp"; "docs"], snd (locateSource remote_config world_R)))
    by (vm_compute; reflexivity).
  assert (H2 : lookup (w_fs (snd (locateSource remote_config world_R))) ["tmp"; "docs"] =
                 inl (EDir "docs" [EFile "a.md" "x"])) by (vm_compute; reflexivity).
  assert (H3 : output_path (outputDir remote_config) (llmsFile remote_config) <>
                 output_path (outputDir remote_config) (llmsFullFile remote_config))
    by (vm_compute; discriminate).
  assert (H4 : under ["tmp"; "docs"]
                 (output_path (outputDir remote_config) (llmsFile remote_config)) = false)
    by (vm_compute; reflexivity).
  assert (H5 : main remote_config world_R = (Ret tt, world_R_after))
    by (vm_compute; reflexivity).
  do 5 (split; [assumption|]).
  exact (link_index_content remote_config world_R world_R_after _ _ _ _ H1 H2 H3
           (fun _ => H4) H5).
Defined.

(** ** C7 *)

(** Claim C7: two runs with the same configuration that both return
    normally, whose located source directories hold the same tree (same
    entries in the same listing order), leave byte-identical contents in
    the full-content file and, when it is a different path, in the
    link-index file.  This covers local and remote sources, with or
    without a confirmed preview; the second run may start from the world
    the first one left.  Two clones of a remote source lie in different
    temporary directories; the outputs must then lie outside both
    directories the clean-up removes. *)
Theorem rerun_same_outputs (config : Config.config) (w1 w2 w1' w2' v1 v2 : world)
    (root1 root2 : path) (n : string) (es : list FS.entry) :
  wf_entry (EDir n es) ->
  locateSource config w1 = (Ret root1, v1) ->
  lookup (w_fs v1) root1 = inl (EDir n es) ->
  locateSource config w2 = (Ret root2, v2) ->
  lookup (w_fs v2) root2 = inl (EDir n es) ->
  (remote_source config = true ->
   under root1 (output_path (outputDir config) (llmsFile config)) = false /\
   under root1 (output_path (outputDir config) (llmsFullFile config)) = false /\
   under root2 (output_path (outputDir config) (llmsFile config)) = false /\
   under root2 (output_path (outputDir config) (llmsFullFile config)) = false) ->
  main config w1 = (Ret tt, w1') -> main config w2 = (Ret tt, w2') ->
  read_text (w_fs w1') (output_path (outputDir config) (llmsFullFile config)) =
    read_text (w_fs w2') (output_path (outputDir config) (llmsFullFile config)) /\
  (output_path (outputDir config) (llmsFile config) <>
     output_path (outputDir config) (llmsFullFile config) ->
   read_text (w_fs w1') (output_path (outputDir config) (llmsFile config)) =
     read_text (w_fs w2') (output_path (outputDir config) (llmsFile config))).
Proof.
  set (lp := output_path (outputDir config) (llmsFile config)).
  set (fp := output_path (outputDir config) (llmsFullFile config)).
  intros Hwf Hs1 Hl1 Hs2 Hl2 Hu Hm1 Hm2.
  destruct (main_ret_inv _ _ _ Hm1)
    as [r1 [u1 [n1 [es1 [x1 [y1 [Hs1' [Hl1' [Hfs1 [Hw1 Hrm1]]]]]]]]]].
  rewrite Hs1 in Hs1'. injection Hs1' as <- <-. rewrite Hl1 in Hl1'. injection Hl1' as <- <-.
  destruct (main_ret_inv _ _ _ Hm2)
    as [r2 [u2 [n2 [es2 [x2 [y2 [Hs2' [Hl2' [Hfs2 [Hw2 Hrm2]]]]]]]]]].
  rewrite Hs2 in Hs2'. injection Hs2' as <- <-. rewrite Hl2 in Hl2'. injection Hl2' as <- <-.
  set (Q := spec_matched (skip config) (exclude config) (maxSize config) [] es).
  rewrite (spec_matched_shift _ _ _ root1), relative_shift in Hw1.
  rewrite (spec_matched_shift _ _ _ root2), relative_shift in Hw2.
  fold Q in Hw1, Hw2.
  destruct (writeFiles_full_content _ _ _ _ _ _ _ _ Hw1) as [cs1 [Hf1 [HF1 Hlp1]]].
  destruct (writeFiles_full_content _ _ _ _ _ _ _ _ Hw2) as [cs2 [Hf2 [HF2 Hlp2]]].
  fold lp fp in Hf1, HF1, Hlp1, Hf2, HF2, Hlp2.
  apply Forall2_map_inv in HF1, HF2.
  (* the two runs place [lp] alike with respect to the matched files *)
  assert (Hlp : forall q, In q Q -> (root1 ++ q = lp <-> root2 ++ q = lp)).
  { intros q _. destruct (remote_source config) eqn:Er.
    - destruct (Hu eq_refl) as [Hu1 [_ [Hu2 _]]].
      split; intros Heq; exfalso.
      + rewrite <- Heq, under_app in Hu1. discriminate.
      + rewrite <- Heq, under_app in Hu2. discriminate.
    - rewrite (locateSource_nonremote _ w1 Er) in Hs1. injection Hs1 as <- _.
      rewrite (locateSource_nonremote _ w2 Er) in Hs2. injection Hs2 as <- _.
      reflexivity. }
  assert (Hcs : cs1 = cs2).
  { apply (Forall2_det _ _ _ _ _ HF1 HF2).
    intros q c1 c2 Hin [Ha1 Hb1] [Ha2 Hb2].
    destruct (list_eq_dec string_dec (root1 ++ q) lp) as [Heq|Hne].
    - rewrite (Ha1 Heq), (Ha2 (proj1 (Hlp q Hin) Heq)). reflexivity.
    - assert (Hne2 : root2 ++ q <> lp) by (intros E; exact (Hne (proj2 (Hlp q Hin) E))).
      destruct (matched_read _ _ _ [] n es q Hwf Hin) as [c Hc].
      specialize (Hc (EDir n es) eq_refl).
      assert (Hin1 : In (root1 ++ q)
                       (spec_matched (skip config) (exclude config) (maxSize config) root1 es))
        by (rewrite spec_matched_shift; now apply in_map).
      assert (Hin2 : In (root2 ++ q)
                       (spec_matched (skip config) (exclude config) (maxSize config) root2 es))
        by (rewrite spec_matched_shift; now apply in_map).
      assert (Hr1 : read_text (w_fs x1) (root1 ++ q) = inl c)
        by (rewrite (read_text_app _ _ _ _ (eq_trans (f_equal (fun fs => lookup fs root1) Hfs1) Hl1)); exact Hc).
      assert (Hr2 : read_text (w_fs x2) (root2 ++ q) = inl c)
        by (rewrite (read_text_app _ _ _ _ (eq_trans (f_equal (fun fs => lookup fs root2) Hfs2) Hl2)); exact Hc).
      rewrite (Hb1 c Hr1 Hne (matched_not_backup _ _ _ _ _ _ _ Hin1)
                 (matched_not_backup _ _ _ _ _ _ _ Hin1)).
      rewrite (Hb2 c Hr2 Hne2 (matched_not_backup _ _ _ _ _ _ _ Hin2)
                 (matched_not_backup _ _ _ _ _ _ _ Hin2)).
      reflexivity. }
  assert (Hfin : forall q, (remote_source config = true -> under root1 q = false /\ under root2 q = false) ->
                  read_text (w_fs w1') q = read_text (w_fs y1) q /\
                  read_text (w_fs w2') q = read_text (w_fs y2) q).
  { intros q Hq. destruct (remote_source config).
    - destruct (Hq eq_refl) as [Hq1 Hq2].
      split; [exact (remove_read_other _ _ _ _ Hrm1 Hq1)|exact (remove_read_other _ _ _ _ Hrm2 Hq2)].
    - subst w1' w2'. split; reflexivity. }
  split.
  - destruct (Hfin fp) as [E1 E2].
    { intros Hr. destruct (Hu Hr) as [_ [A [_ B]]]. now split. }
    now rewrite E1, E2, Hf1, Hf2, Hcs.
  - intros Hne. destruct (Hfin lp) as [E1 E2].
    { intros Hr. destruct (Hu Hr) as [A [_ [B _]]]. now split. }
    now rewrite E1, E2, (Hlp1 Hne), (Hlp2 Hne).
Qed.

Lemma wf_docs : wf_entry (EDir "docs" [EFile "a.md" "x"]).
Proof. constructor; repeat constructor. intros []. Qed.

(** Two runs over the [--github] source of [remote_config], the second
    from the world the first one left: the clones lie in [tmp] and
    [tmpx]. *)
Lemma rerun_same_outputs_witness :
  wf_entry (EDir "docs" [EFile "a.md" "x"]) /\
  locateSource remote_config world_R =
    (Ret ["tmp"; "docs"], snd (locateSource remote_config world_R)) /\
  lookup (w_fs (snd (locateSource remote_config world_R))) ["tmp"; "docs"] =
    inl (EDir "docs" [EFile "a.md" "x"]) /\
  locateSource remote_config world_R_after =
    (Ret ["tmpx"; "docs"], snd (locateSource remote_config world_R_after)) /\
  lookup (w_fs (snd (locateSource remote_config world_R_after))) ["tmpx"; "docs"] =
    inl (EDir "docs" [EFile "a.md" "x"]) /\
  main remote_config world_R = (Ret tt, world_R_after) /\
  main remote_config world_R_after = (Ret tt, snd (main remote_config world_R_after)) /\
  read_text (w_fs world_R_after)
      (output_path (outputDir remote_config) (llmsFullFile remote_config)) =
    read_text (w_fs (snd (main remote_config world_R_after)))
      (output_path (outputDir remote_config) (llmsFullFile remote_config)) /\
  (output_path (outputDir remote_config) (llmsFile remote_config) <>
     output_path (outputDir remote_config) (llmsFullFile remote_config) ->
   read_text (w_fs world_R_after)
       (output_path (outputDir remote_config) (llmsFile remote_config)) =
     read_text (w_fs (snd (main remote_config world_R_after)))
       (output_path (outputDir remote_config) (llmsFile remote_config))).
Proof.
  assert (H1 : locateSource remote_config world_R =
                 (Ret ["tmp"; "docs"], snd (locateSource remote_config world_R)))
    by (vm_compute; reflexivity).
  assert (H2 : lookup (w_fs (snd (locateSource remote_config world_R))) ["tmp"; "docs"] =
                 inl (EDir "docs" [EFile "a.md" "x"])) by (vm_compute; reflexivity).
  assert (H3 : locateSource remote_config world_R_after =
                 (Ret ["tmpx"; "docs"], snd (locateSource remote_config world_R_after)))
    by (vm_compute; reflexivity).
  assert (H4 : lookup (w_fs (snd (locateSource remote_config world_R_after))) ["tmpx"; "docs"] =
                 inl (EDir "docs" [EFile "a.md" "x"])) by (vm_compute; reflexivity).
  assert (H5 : remote_source remote_config = true ->
     under ["tmp"; "docs"] (output_path (outputDir remote_config) (llmsFile remote_config)) = false /\
     under ["tmp"; "docs"] (output_path (outputDir remote_config) (llmsFullFile remote_config)) = false /\
     under ["tmpx"; "docs"] (output_path (outputDir remote_config) (llmsFile remote_config)) = false /\
     under ["tmpx"; "docs"] (output_path (outputDir remote_config) (llmsFullFile remote_config)) = false)
    by (intros _; vm_compute; repeat split).
  assert (H6 : main remote_config world_R = (Ret tt, world_R_after))
    by (vm_compute; reflexivity).
  assert (H7 : main remote_config world_R_after = (Ret tt, snd (main remote_config world_R_after)))
    by (vm_compute; reflexivity).
  split; [exact wf_docs|]. do 6 (split; [assumption|]).
  exact (rerun_same_outputs remote_config world_R world_R_after world_R_after
           (snd (main remote_config world_R_after)) _ _ _ _ "docs" [EFile "a.md" "x"]
           wf_docs H1 H2 H3 H4 H5 H6 H7).
Defined.

(** ** Steps that read no input *)

(** Only [prompt] reads the operator's answers: every other step gives
    the same outcome and the same file system, temporary-directory
    counter and remotes from two worlds that agree on those, whatever
    their logs and pending answers, and leaves the answers alone. *)

Lemma no_input_ret {A} (a : A) : no_input (ret a).
Proof. intros w1 w2 Hs. cbv [ret fst snd]. auto. Qed.

Lemma no_input_throw {A} e : no_input (@throw A e).
Proof. intros w1 w2 Hs. cbv [throw fst snd]. auto. Qed.

Lemma no_input_exit {A} c : no_input (@exit A c).
Proof. intros w1 w2 Hs. cbv [exit fst snd]. auto. Qed.

Lemma no_input_log l : no_input (log l).
Proof.
  intros w1 w2 (Hf & Ht & Hr). cbv [log fst snd same_state]. cbn. auto.
Qed.

Lemma no_input_fs_read {A} (f : FS.entry -> fsr A) : no_input (fs_read f).
Proof.
  intros w1 w2 Hs. pose proof Hs as (Hf & _ & _). unfold fs_read. rewrite <- Hf.
  destruct (f (w_fs w1)); cbn; auto.
Qed.

Lemma no_input_fs_update f : no_input (fs_update f).
Proof.
  intros w1 w2 Hs. pose proof Hs as (Hf & Ht & Hr). unfold fs_update. rewrite <- Hf.
  destruct (f (w_fs w1)); cbn; [|auto]. unfold same_state; cbn. auto.
Qed.

Lemma no_input_makeTempDir : no_input makeTempDir.
Proof.
  intros w1 w2 Hs. pose proof Hs as (Hf & Ht & Hr). unfold makeTempDir. rewrite <- Hf, <- Ht.
  destruct (add_top_dir _ _ _); cbn; [|auto]. unfold same_state; cbn. auto.
Qed.

Lemma no_input_git_clone url br dir : no_input (git_clone url br dir).
Proof.
  intros w1 w2 Hs. pose proof Hs as (Hf & Ht & Hr). unfold git_clone. rewrite <- Hf, <- Hr.
  destruct (find_remote url br (w_remote w1)) as [t|]; [|cbn; auto].
  destruct dir as [|x [|y dir]]; [cbn; auto| |cbn; auto].
  destruct (w_fs w1) as [fn fc|m es]; cbn; [auto|]. unfold same_state; cbn. auto.
Qed.

Lemma no_input_bind {A B} (m : M A) (k : A -> M B) :
  no_input m -> (forall a, no_input (k a)) -> no_input (bind m k).
Proof.
  intros Hm Hk w1 w2 Hs. destruct (Hm w1 w2 Hs) as [E [Hs' Hst]].
  unfold bind. destruct (m w1) as [o1 u1], (m w2) as [o2 u2]. cbn in E, Hs', Hst. subst o2.
  destruct o1 as [a|e|c]; cbn; [|auto|auto].
  destruct (Hk a u1 u2 Hs') as [E' [Hs'' Hst']]. rewrite Hst' in *. auto.
Qed.

Lemma no_input_catch {A} (m : M A) (h : fserror -> M A) :
  no_input m -> (forall e, no_input (h e)) -> no_input (catch m h).
Proof.
  intros Hm Hh w1 w2 Hs. destruct (Hm w1 w2 Hs) as [E [Hs' Hst]].
  unfold catch. destruct (m w1) as [o1 u1], (m w2) as [o2 u2]. cbn in E, Hs', Hst. subst o2.
  destruct o1 as [a|e|c]; cbn; [auto| |auto].
  destruct (Hh e u1 u2 Hs') as [E' [Hs'' Hst']]. rewrite Hst' in *. auto.
Qed.

Lemma no_input_mapM {A B} (f : A -> M B) l :
  (forall x, no_input (f x)) -> no_input (mapM f l).
Proof.
  intros Hf. induction l as [|x l IH]; cbn [mapM].
  - apply no_input_ret.
  - apply no_input_bind; [apply Hf|intros y].
    apply no_input_bind; [exact IH|intros ys]. apply no_input_ret.
Qed.

Ltac ni_intro := match goal with |- forall _, _ => intro end.

Ltac ni :=
  repeat first
    [ apply no_input_ret | apply no_input_throw | apply no_input_exit
    | apply no_input_log | apply no_input_fs_read | apply no_input_fs_update
    | apply no_input_makeTempDir | apply no_input_git_clone
    | apply no_input_mapM; ni_intro
    | apply no_input_bind; [|ni_intro]
    | apply no_input_catch; [|ni_intro]
    | progress unfold readTextFile, stat, writeTextFile, copyFile, removeRecursive,
        readDir, getDirectory, backupOne, cloneRepository, previewOption, analyzeOption
    | match goal with |- no_input (match ?x with _ => _ end) => destruct x end ].

Lemma no_input_analyzeLoop fullPaths : forall acc, no_input (analyzeLoop fullPaths acc).
Proof. induction fullPaths as [|p l IH]; intros acc; cbn [analyzeLoop]; ni; auto. Qed.

Lemma no_input_writeFiles llmsFile llmsFullFile files fullPaths outputDir backup :
  no_input (writeFiles llmsFile llmsFullFile files fullPaths outputDir backup).
Proof.
  unfold writeFiles. ni.
Qed.

Lemma no_input_locateSource config : no_input (locateSource config).
Proof. unfold locateSource. ni. Qed.

Lemma no_input_getDirectory d b sk ex mx : no_input (getDirectory d b sk ex mx).
Proof. ni. Qed.

Lemma no_input_pipeline_tail config dirPath files fullPaths :
  no_input (pipeline_tail config dirPath files fullPaths).
Proof.
  unfold pipeline_tail. ni. apply no_input_analyzeLoop.
Qed.

(** [pipeline] is located source, walk, preview step, then the rest. *)
Lemma pipeline_split config :
  pipeline config =
  (dirPath <- locateSource config ;;
   '(files, fullPaths) <- getDirectory dirPath dirPath (skip config)
                            (exclude config) (maxSize config) ;;
   previewStep config files ;;;
   pipeline_tail config dirPath files fullPaths).
Proof. reflexivity. Qed.

Lemma pipeline_split_no_preview config :
  pipeline (set_preview false config) =
  (dirPath <- locateSource config ;;
   '(files, fullPaths) <- getDirectory dirPath dirPath (skip config)
                            (exclude config) (maxSize config) ;;
   ret tt ;;;
   pipeline_tail config dirPath files fullPaths).
Proof. reflexivity. Qed.

Lemma previewStep_confirmed config files w a rest :
  preview config = true -> w_stdin w = Some a :: rest ->
  String.eqb (Str.to_lower a) "y" = true ->
  previewStep config files w =
    (Ret tt, mkWorld (w_fs w) (w_log w ++ [LPreview files]) rest (w_tmp w) (w_remote w)).
Proof.
  intros Hp Hs Ha. unfold previewStep. rewrite Hp.
  cbv [bind previewOption log prompt]. cbn [w_stdin w_fs w_log w_tmp w_remote].
  rewrite Hs, Ha. reflexivity.
Qed.

(** A confirmed preview changes nothing but the log and the answers. *)
Lemma pipeline_confirmed config w a rest :
  preview config = true -> w_stdin w = Some a :: rest ->
  String.eqb (Str.to_lower a) "y" = true ->
  fst (pipeline config w) = fst (pipeline (set_preview false config) w) /\
  same_state (snd (pipeline config w)) (snd (pipeline (set_preview false config) w)).
Proof.
  intros Hp Hs Ha.
  assert (Hrefl : forall u, same_state u u) by (intros u; repeat split).
  rewrite pipeline_split, pipeline_split_no_preview. cbv [bind].
  destruct (no_input_locateSource config w w (Hrefl w)) as [_ [_ Hst]].
  destruct (locateSource config w) as [[root|e|c] v] eqn:Hl; cbn [fst snd] in Hst |- *;
    [|split; [reflexivity|apply Hrefl]..].
  destruct (no_input_getDirectory root root (skip config) (exclude config) (maxSize config)
              v v (Hrefl v)) as [_ [_ Hst']].
  destruct (getDirectory root root (skip config) (exclude config) (maxSize config) v)
    as [[[files fps]|e|c] v1] eqn:Hg; cbn [fst snd] in Hst' |- *;
    [|split; [reflexivity|apply Hrefl]..].
  rewrite (previewStep_confirmed config files v1 a rest Hp ltac:(congruence) Ha).
  cbv [ret]. cbv iota.
  destruct (no_input_pipeline_tail config root files fps
              (mkWorld (w_fs v1) (w_log v1 ++ [LPreview files]) rest (w_tmp v1) (w_remote v1))
              v1 ltac:(repeat split)) as [E [Hs' _]].
  split; assumption.
Qed.

(** ** C6 *)

(** Claim C6 (corrected): in preview mode the outputs are not always
    left unwritten.  When the operator's first answer is [y] or [Y],
    the run goes on exactly as a run without preview: the same exit
    status and the same file system.  So it writes both outputs unless
    [--analyze] or [--summary] ends it first with exit code 0.  When
    the answer is anything else, or there is none, and a source is
    given and the walk succeeds, the run exits with code 0 and writes
    nothing.  The file system is then as it was once the source was
    located: unchanged for a local directory, while for a GitHub or
    GitLab source the clone's temporary directory is left in place. *)
Theorem preview_answer_outcomes (config : Config.config) (w : world) :
  preview config = true ->
  (forall a rest,
     w_stdin w = Some a :: rest -> String.eqb (Str.to_lower a) "y" = true ->
     fst (main config w) = fst (main (set_preview false config) w) /\
     w_fs (snd (main config w)) = w_fs (snd (main (set_preview false config) w))) /\
  (forall w1 root n es,
     (truthy (localDir config) || truthy (githubUrl config) ||
      truthy (gitlabUrl config)) = true ->
     locateSource config w = (Ret root, w1) ->
     lookup (w_fs w1) root = inl (EDir n es) ->
     declines (w_stdin w1) = true ->
     exists w',
       main config w = (Exited 0, w') /\ w_fs w' = w_fs w1 /\
       (githubUrl config = None -> gitlabUrl config = None -> w_fs w' = w_fs w)).
Proof.
  intros Hp. split.
  - intros a rest Hs Ha.
    destruct (pipeline_confirmed config w a rest Hp Hs Ha) as [E Hss].
    assert (Hcond : (truthy (localDir (set_preview false config)) ||
                     truthy (githubUrl (set_preview false config)) ||
                     truthy (gitlabUrl (set_preview false config))) =
                    (truthy (localDir config) || truthy (githubUrl config) ||
                     truthy (gitlabUrl config))) by reflexivity.
    unfold main. rewrite Hcond.
    destruct (negb _); [split; reflexivity|].
    unfold catch.
    destruct (pipeline config w) as [o1 u1], (pipeline (set_preview false config) w) as [o2 u2].
    cbn [fst snd] in E, Hss. subst o2.
    destruct o1 as [x|e|c]; cbn [fst snd]; [split; [reflexivity|apply Hss]| |split; [reflexivity|apply Hss]].
    assert (Hh : no_input (log (LError e) ;;; @exit unit 1)) by ni.
    destruct (Hh u1 u2 Hss) as [E' [Hs' _]]. split; [exact E'|apply Hs'].
  - intros w1 root n es Hor Hsrc Hl Hd.
    exact (preview_declined_run config w w1 root n es Hor Hp Hsrc Hl Hd).
Qed.

(** Over [fs_B] with [--preview]: the answer [y] and the answer [n]. *)
Lemma preview_answer_outcomes_witness :
  preview (preview_config "r") = true /\
  ((forall a rest,
      w_stdin (mkWorld fs_B [] [Some "y"] 0 []) = Some a :: rest ->
      String.eqb (Str.to_lower a) "y" = true ->
      fst (main (preview_config "r") (mkWorld fs_B [] [Some "y"] 0 [])) =
        fst (main (set_preview false (preview_config "r")) (mkWorld fs_B [] [Some "y"] 0 [])) /\
      w_fs (snd (main (preview_config "r") (mkWorld fs_B [] [Some "y"] 0 []))) =
        w_fs (snd (main (set_preview false (preview_config "r")) (mkWorld fs_B [] [Some "y"] 0 [])))) /\
   (forall w1 root n es,
      (truthy (localDir (preview_config "r")) || truthy (githubUrl (preview_config "r")) ||
       truthy (gitlabUrl (preview_config "r"))) = true ->
      locateSource (preview_config "r") (mkWorld fs_B [] [Some "y"] 0 []) = (Ret root, w1) ->
      lookup (w_fs w1) root = inl (EDir n es) ->
      declines (w_stdin w1) = true ->
      exists w',
        main (preview_config "r") (mkWorld fs_B [] [Some "y"] 0 []) = (Exited 0, w') /\
        w_fs w' = w_fs w1 /\
        (githubUrl (preview_config "r") = None -> gitlabUrl (preview_config "r") = None ->
         w_fs w' = w_fs (mkWorld fs_B [] [Some "y"] 0 [])))) /\
  fst (main (preview_config "r") (mkWorld fs_B [] [Some "y"] 0 [])) = Ret tt /\
  (truthy (localDir (preview_config "r")) || truthy (githubUrl (preview_config "r")) ||
   truthy (gitlabUrl (preview_config "r"))) = true /\
  locateSource (preview_config "r") (mkWorld fs_B [] [Some "n"] 0 []) =
    (Ret ["r"], mkWorld fs_B [] [Some "n"] 0 []) /\
  lookup fs_B ["r"] = inl (EDir "r" tree_B) /\
  declines [Some "n"] = true /\
  exists w',
    main (preview_config "r") (mkWorld fs_B [] [Some "n"] 0 []) = (Exited 0, w') /\
    w_fs w' = fs_B.
Proof.
  assert (Hp : preview (preview_config "r") = true) by reflexivity.
  split; [exact Hp|]. split; [exact (preview_answer_outcomes _ _ Hp)|].
  split; [vm_compute; reflexivity|].
  assert (Hor : (truthy (localDir (preview_config "r")) || truthy (githubUrl (preview_config "r")) ||
                 truthy (gitlabUrl (preview_config "r"))) = true) by reflexivity.
  assert (Hl : locateSource (preview_config "r") (mkWorld fs_B [] [Some "n"] 0 []) =
                 (Ret ["r"], mkWorld fs_B [] [Some "n"] 0 [])) by reflexivity.
  assert (Hlk : lookup fs_B ["r"] = inl (EDir "r" tree_B)) by reflexivity.
  assert (Hd : declines [Some "n"] = true) by reflexivity.
  do 4 (split; [assumption|]).
  destruct (proj2 (preview_answer_outcomes (preview_config "r") (mkWorld fs_B [] [Some "n"] 0 []) Hp)
              _ _ "r" tree_B Hor Hl Hlk Hd) as [w' [Hm [Hf _]]].
  exists w'. split; [exact Hm|exact Hf].
Defined.

(** ** The average size in doubles *)

(** [(384 / 25 / 1024).toFixed(2)] is ["0.01"]: the double nearest to
    15.36 lies below it, so 100 times the quotient by 1024 lies below
    1.5. *)
Example avg_double_rounding : avg_centi_kb 384 25 = FixedDigits 1.
Proof. vm_compute. reflexivity. Qed.
